(** * Direct ("slow") nonlinear Fourier transform of FNFT: a shallow embedding

    The development follows [src/fnft_nsev_slow.c] and
    [src/private/fnft__nse_scatter_matrix.c].

    - [REAL] is the C type [double], [COMPLEX] is [double complex].  The
      functions below are written once over the interface [FloatOps]; the
      instance [float_ops] at the end of the definitions runs them on
      binary64 numbers.
    - [UINT] and [INT] values are integers in [Z]; the unsigned subtractions
      and products of the source are written with their wrap-around modulo
      [2^64] ([usub], [umul]).
    - A pointer is an [option]: [None] is [NULL], [Some v] is a valid pointer
      whose target currently holds [v].  An array is a [list]; a load or a
      store outside the array is undefined behaviour in C and makes the
      model return [None].
    - A C function that returns a status code and writes through its
      arguments becomes a function to [option (INT * memory)]: the outer
      [None] is undefined behaviour, the pair is the returned code and the
      memory the caller sees afterwards (also on the error paths, where
      the buffers may be partially written). *)

From Stdlib Require Import ZArith QArith Floats Lia.
From stdpp Require Import base option list.

Local Open Scope Z_scope.

(** ** Status codes (fnft__errwarn.h) *)

Inductive INT : Type :=
  | SUCCESS
  | E_NOMEM
  | E_INVALID_ARGUMENT
  | E_DIV_BY_ZERO
  | E_OTHER.

Global Instance INT_eq_dec : EqDecision INT.
Proof. solve_decision. Defined.

(** Modelled from the spec: the macro [E_SUBROUTINE] of fnft__errwarn.h is
    not among the sources; "SubroutineFailure wraps a lower component's
    error code when re-raised by a caller, preserving the original kind". *)
Definition E_SUBROUTINE (ec : INT) : INT := ec.

(** ** Enumerations of the options record (fnft_nsev.h, fnft_nse_discretization_t.h)

    A C enumeration holds any integer, so every type has a constructor for
    the values that have no name; these are the values that reach the
    [default:] labels. *)

Inductive nse_discretization_t : Type :=
  | nse_discretization_BO
  | nse_discretization_CF4_2
  | nse_discretization_CF4_3
  | nse_discretization_CF5_3
  | nse_discretization_CF6_4
  | nse_discretization_ES4
  | nse_discretization_TES4
  | nse_discretization_2SPLIT1A
  | nse_discretization_other (code : Z).

Inductive akns_discretization_t : Type :=
  | akns_discretization_BO.

Inductive nsev_bsfilt_t : Type :=
  | nsev_bsfilt_NONE
  | nsev_bsfilt_BASIC
  | nsev_bsfilt_FULL
  | nsev_bsfilt_other (code : Z).

Inductive nsev_bsloc_t : Type :=
  | nsev_bsloc_NEWTON
  | nsev_bsloc_other (code : Z).

Inductive nsev_dstype_t : Type :=
  | nsev_dstype_NORMING_CONSTANTS
  | nsev_dstype_RESIDUES
  | nsev_dstype_BOTH
  | nsev_dstype_other (code : Z).

Inductive nsev_cstype_t : Type :=
  | nsev_cstype_REFLECTION_COEFFICIENT
  | nsev_cstype_AB
  | nsev_cstype_BOTH
  | nsev_cstype_other (code : Z).

Global Instance nse_discretization_eq_dec : EqDecision nse_discretization_t.
Proof. solve_decision. Defined.
Global Instance nsev_bsfilt_eq_dec : EqDecision nsev_bsfilt_t.
Proof. solve_decision. Defined.
Global Instance nsev_bsloc_eq_dec : EqDecision nsev_bsloc_t.
Proof. solve_decision. Defined.
Global Instance nsev_dstype_eq_dec : EqDecision nsev_dstype_t.
Proof. solve_decision. Defined.
Global Instance nsev_cstype_eq_dec : EqDecision nsev_cstype_t.
Proof. solve_decision. Defined.

Record fnft_nsev_slow_opts_t : Type := mk_opts {
  bound_state_filtering : nsev_bsfilt_t;
  bound_state_localization : nsev_bsloc_t;
  niter : Z;
  discspec_type : nsev_dstype_t;
  contspec_type : nsev_cstype_t;
  normalization_flag : Z;
  discretization : nse_discretization_t;
  richardson_extrapolation_flag : Z
}.

(** The static [default_opts] of fnft_nsev_slow.c. *)
Definition default_opts : fnft_nsev_slow_opts_t :=
  {| bound_state_filtering := nsev_bsfilt_FULL;
     bound_state_localization := nsev_bsloc_NEWTON;
     niter := 10;
     discspec_type := nsev_dstype_NORMING_CONSTANTS;
     contspec_type := nsev_cstype_REFLECTION_COEFFICIENT;
     normalization_flag := 1;
     discretization := nse_discretization_BO;
     richardson_extrapolation_flag := 0 |}.

Definition fnft_nsev_slow_default_opts : fnft_nsev_slow_opts_t := default_opts.

Definition set_discspec_type (v : nsev_dstype_t) (o : fnft_nsev_slow_opts_t) :=
  mk_opts (bound_state_filtering o) (bound_state_localization o) (niter o) v
          (contspec_type o) (normalization_flag o) (discretization o)
          (richardson_extrapolation_flag o).

Definition set_bound_state_localization (v : nsev_bsloc_t) (o : fnft_nsev_slow_opts_t) :=
  mk_opts (bound_state_filtering o) v (niter o) (discspec_type o)
          (contspec_type o) (normalization_flag o) (discretization o)
          (richardson_extrapolation_flag o).

(** ** Unsigned arithmetic of [UINT] (a 64-bit [size_t]) *)

Definition UINT_MODULUS : Z := 2 ^ 64.
Definition usub (a b : Z) : Z := (a - b) mod UINT_MODULUS.
Definition umul (a b : Z) : Z := (a * b) mod UINT_MODULUS.

(** ** Arrays *)

Definition load {A} (l : list A) (i : nat) : option A := l !! i.

Definition store {A} (l : list A) (i : nat) (v : A) : option (list A) :=
  if decide (i < length l)%nat then Some (<[i := v]> l) else None.

(** [for (i = lo; i < lo + n; i++) body] with a state [S]; the body either
    goes on ([Continue]) or leaves the enclosing function with a status code
    ([Return]). *)
Inductive flow (S : Type) : Type :=
  | Continue (s : S)
  | Return (rc : INT) (s : S).
Arguments Continue {S} s.
Arguments Return {S} rc s.

Fixpoint for_loop {S : Type} (n : nat) (i : nat)
    (body : nat → S → option (flow S)) (s : S) : option (flow S) :=
  match n with
  | O => Some (Continue s)
  | Datatypes.S n' =>
      match body i s with
      | None => None
      | Some (Continue s') => for_loop n' (Datatypes.S i) body s'
      | Some (Return rc s') => Some (Return rc s')
      end
  end.

(** ** Floating-point interface

    The operations the two source files use on [REAL] and [COMPLEX], named
    after the C operators and the macros of fnft_numtypes.h.  A product or
    quotient of a real and a complex operand acts on both components
    ([Cscale], [Cdivr]), as in C. *)

Class FloatOps (REAL COMPLEX : Type) : Type := {
  RofZ : Z → REAL;                 (* conversion of an integer *)
  RofQ : Q → REAL;                 (* a decimal literal *)
  UINTofR : REAL → Z;              (* conversion of a REAL to UINT *)
  NAN : REAL;
  INFINITY : REAL;
  PI : REAL;
  EPSILON : REAL;
  Radd : REAL → REAL → REAL;
  Rsub : REAL → REAL → REAL;
  Rmul : REAL → REAL → REAL;
  Rdiv : REAL → REAL → REAL;
  Ropp : REAL → REAL;
  FABS : REAL → REAL;
  SQRT : REAL → REAL;
  ROUND : REAL → REAL;
  CEIL : REAL → REAL;
  POW : REAL → REAL → REAL;
  Rltb : REAL → REAL → bool;       (* x < y *)
  Rleb : REAL → REAL → bool;       (* x <= y *)
  Reqb : REAL → REAL → bool;       (* x == y *)
  Cmk : REAL → REAL → COMPLEX;     (* re + im*I *)
  CREAL : COMPLEX → REAL;
  CIMAG : COMPLEX → REAL;
  CABS : COMPLEX → REAL;
  CONJ : COMPLEX → COMPLEX;
  CEXP : COMPLEX → COMPLEX;
  Cadd : COMPLEX → COMPLEX → COMPLEX;
  Csub : COMPLEX → COMPLEX → COMPLEX;
  Cmul : COMPLEX → COMPLEX → COMPLEX;
  Cdiv : COMPLEX → COMPLEX → COMPLEX;
  Cscale : REAL → COMPLEX → COMPLEX;   (* real * complex *)
  Cdivr : COMPLEX → REAL → COMPLEX;    (* complex / real *)
  Cneg : COMPLEX → COMPLEX;            (* -z *)
  Ceqb : COMPLEX → COMPLEX → bool      (* z == w *)
}.

Section Numeric.
Context {REAL COMPLEX : Type} `{FloatOps REAL COMPLEX}.

Definition Rgtb (x y : REAL) : bool := Rltb y x.      (* x > y *)
Definition Rgeb (x y : REAL) : bool := Rleb y x.      (* x >= y *)
Definition CofR (x : REAL) : COMPLEX := Cmk x (RofZ 0).
Definition I : COMPLEX := Cmk (RofZ 0) (RofZ 1).
Definition Cis0 (z : COMPLEX) : bool := Ceqb z (CofR (RofZ 0)).   (* z == 0.0 *)

(** [malloc(n * sizeof(COMPLEX))]: [malloc_ok] tells whether a block of [n]
    elements is granted, [uninit] is the indeterminate value a fresh block
    holds in each slot. *)
Definition malloc_block (malloc_ok : Z → bool) (uninit : nat → COMPLEX) (n : Z)
    : option (list COMPLEX) :=
  if malloc_ok n then Some (uninit <$> seq 0 (Z.to_nat n)) else None.

(** An engine writes the first [n] slots of an output array. *)
Definition write_block (buf : list COMPLEX) (n : nat) (f : nat → COMPLEX)
    : option (list COMPLEX) :=
  if decide (n ≤ length buf)%nat
  then Some ((f <$> seq 0 n) ++ drop n buf) else None.

End Numeric.

(** * private/fnft__nse_scatter_matrix.c *)

Module NseScatterMatrix.
Section NseScatterMatrix.
Context {REAL COMPLEX : Type} `{FloatOps REAL COMPLEX}.

Variable malloc_ok : Z → bool.
Variable uninit : nat → COMPLEX.
Local Abbreviation malloc := (malloc_block malloc_ok uninit).

(** [akns_scatter_matrix(D, q, r, eps_t, K, lambda, result,
    akns_discretization)] of fnft__akns_scatter.c, which is not among the
    sources: status and the contents of [result] afterwards. *)
Variable akns_scatter_matrix :
  Z → list COMPLEX → list COMPLEX → REAL → Z → list COMPLEX → list COMPLEX →
  akns_discretization_t → INT * list COMPLEX.

(** [for (i = 0; i < D; i++) r[i] = f(q[i]);] *)
Definition fill_r (f : COMPLEX → COMPLEX) (D : Z) (q r : list COMPLEX)
    : option (list COMPLEX) :=
  res ← for_loop (Z.to_nat D) 0
          (λ i r, x ← load q i; r ← store r i (f x); Some (Continue r)) r;
  match res with Continue r => Some r | Return _ r => Some r end.

(** The eight-argument entry point of this file.  [result] is the only
    memory it writes. *)
Definition nse_scatter_matrix (D : Z) (q : option (list COMPLEX)) (eps_t : REAL)
    (kappa : Z) (K : Z) (lambda : option (list COMPLEX))
    (result : option (list COMPLEX)) (discretization : nse_discretization_t)
    : option (INT * option (list COMPLEX)) :=
  (* Check inputs *)
  if decide (D = 0) then Some (E_INVALID_ARGUMENT, result) else
  match q with
  | None => Some (E_INVALID_ARGUMENT, result)
  | Some q =>
  if negb (Rgtb eps_t (RofZ 0)) then Some (E_INVALID_ARGUMENT, result) else
  if decide (Z.abs kappa ≠ 1) then Some (E_INVALID_ARGUMENT, result) else
  if Rleb (RofZ K) (RofQ 0.0) then Some (E_INVALID_ARGUMENT, result) else
  match lambda, result with
  | None, _ | _, None => Some (E_INVALID_ARGUMENT, result)
  | Some lambda, Some res =>
  match discretization with
  | nse_discretization_BO =>
      let akns_discretization := akns_discretization_BO in
      (* a failed allocation sets ret_code = E_NOMEM and goes on; the loops
         below then write through the null pointer *)
      r ← malloc D;
      r ← (if decide (kappa = 1)
           then fill_r (λ z, Cneg (CONJ z)) D q r
           else fill_r CONJ D q r);
      let '(ret_code, res) :=
        akns_scatter_matrix D q r eps_t K lambda res akns_discretization in
      Some (ret_code, Some res)
  | _ => (* Unknown discretization *)
      Some (E_INVALID_ARGUMENT, result)
  end
  end
  end.

End NseScatterMatrix.
End NseScatterMatrix.

(** * The interface on binary64 numbers

    [REAL] is Rocq's primitive [float] (IEEE 754 binary64, round to nearest
    even), [COMPLEX] is a pair of them.  Sums, products, quotients, square
    roots and comparisons of reals are the machine operations.  The complex
    product and quotient are the textbook formulas; [POW] (for an exponent
    that is a non-negative integer), [CABS] and [CEXP] are computed from the
    machine operations and differ from the C library in the last digits. *)

Module Binary64.

Definition of_Z (z : Z) : float := SF2Prim (binary_normalize prec emax z 0 false).

(** A decimal literal [n/d]: the quotient is correctly rounded when [n] and
    [d] are below [2^53], which holds for the literals of the sources. *)
Definition of_Q (q : Q) : float :=
  PrimFloat.div (of_Z (Qnum q)) (of_Z (Zpos (Qden q))).

(** Conversion to [UINT]: truncation; 0 where C leaves the result undefined
    (negative, infinite or NaN operand). *)
Definition to_UINT (x : float) : Z :=
  match Prim2SF x with
  | S754_finite false m e =>
      if 0 <=? e then Zpos m * 2 ^ e else Zpos m / 2 ^ (- e)
  | _ => 0
  end.

(** [round]: to the nearest integer, halfway cases away from zero. *)
Definition round (x : float) : float :=
  match Prim2SF x with
  | S754_finite s m e =>
      if 0 <=? e then x
      else
        let twice := (Zpos m * 2) / 2 ^ (- e) in
        let r := of_Z ((twice + 1) / 2) in
        if s then PrimFloat.opp r else r
  | _ => x
  end.

Definition ceil (x : float) : float :=
  match Prim2SF x with
  | S754_finite s m e =>
      if 0 <=? e then x
      else
        let n := Zpos m / 2 ^ (- e) in
        let exact := Zpos m mod 2 ^ (- e) =? 0 in
        if s then PrimFloat.opp (of_Z n)
        else of_Z (if exact then n else n + 1)
  | _ => x
  end.

Definition pow (x y : float) : float :=
  if PrimFloat.eqb (of_Z (to_UINT y)) y
  then Nat.iter (Z.to_nat (to_UINT y)) (PrimFloat.mul x) 1%float
  else nan.

Definition complex : Type := float * float.

Definition cadd (z w : complex) : complex :=
  (PrimFloat.add (fst z) (fst w), PrimFloat.add (snd z) (snd w)).
Definition csub (z w : complex) : complex :=
  (PrimFloat.sub (fst z) (fst w), PrimFloat.sub (snd z) (snd w)).
Definition cmul (z w : complex) : complex :=
  (PrimFloat.sub (PrimFloat.mul (fst z) (fst w)) (PrimFloat.mul (snd z) (snd w)),
   PrimFloat.add (PrimFloat.mul (fst z) (snd w)) (PrimFloat.mul (snd z) (fst w))).
Definition cdiv (z w : complex) : complex :=
  let d := PrimFloat.add (PrimFloat.mul (fst w) (fst w))
                         (PrimFloat.mul (snd w) (snd w)) in
  (PrimFloat.div (PrimFloat.add (PrimFloat.mul (fst z) (fst w))
                                (PrimFloat.mul (snd z) (snd w))) d,
   PrimFloat.div (PrimFloat.sub (PrimFloat.mul (snd z) (fst w))
                                (PrimFloat.mul (fst z) (snd w))) d).
Definition cscale (x : float) (z : complex) : complex :=
  (PrimFloat.mul x (fst z), PrimFloat.mul x (snd z)).
Definition cdivr (z : complex) (x : float) : complex :=
  (PrimFloat.div (fst z) x, PrimFloat.div (snd z) x).
Definition cneg (z : complex) : complex :=
  (PrimFloat.opp (fst z), PrimFloat.opp (snd z)).
Definition conj (z : complex) : complex := (fst z, PrimFloat.opp (snd z)).
Definition ceqb (z w : complex) : bool :=
  PrimFloat.eqb (fst z) (fst w) && PrimFloat.eqb (snd z) (snd w).
Definition cabs (z : complex) : float :=
  PrimFloat.sqrt (PrimFloat.add (PrimFloat.mul (fst z) (fst z))
                                (PrimFloat.mul (snd z) (snd z))).

(** [exp z] by the first [n] terms of its power series:
    [term] is [z^k/k!], [acc] the sum so far. *)
Fixpoint cexp_series (n : nat) (k : Z) (z term acc : complex) : complex :=
  match n with
  | O => acc
  | S n =>
      let term := cdivr (cmul term z) (of_Z k) in
      cexp_series n (k + 1) z term (cadd acc term)
  end.

Definition cexp (z : complex) : complex :=
  cexp_series 40 1 z (1%float, 0%float) (1%float, 0%float).

End Binary64.

Global Instance float_ops : FloatOps float Binary64.complex := {|
  RofZ := Binary64.of_Z;
  RofQ := Binary64.of_Q;
  UINTofR := Binary64.to_UINT;
  NAN := nan;
  INFINITY := infinity;
  PI := 0x1.921fb54442d18p+1%float;
  EPSILON := 0x1p-52%float;
  Radd := PrimFloat.add;
  Rsub := PrimFloat.sub;
  Rmul := PrimFloat.mul;
  Rdiv := PrimFloat.div;
  Ropp := PrimFloat.opp;
  FABS := PrimFloat.abs;
  SQRT := PrimFloat.sqrt;
  ROUND := Binary64.round;
  CEIL := Binary64.ceil;
  POW := Binary64.pow;
  Rltb := PrimFloat.ltb;
  Rleb := PrimFloat.leb;
  Reqb := PrimFloat.eqb;
  Cmk := λ re im, (re, im);
  CREAL := fst;
  CIMAG := snd;
  CABS := Binary64.cabs;
  CONJ := Binary64.conj;
  CEXP := Binary64.cexp;
  Cadd := Binary64.cadd;
  Csub := Binary64.csub;
  Cmul := Binary64.cmul;
  Cdiv := Binary64.cdiv;
  Cscale := Binary64.cscale;
  Cdivr := Binary64.cdivr;
  Cneg := Binary64.cneg;
  Ceqb := Binary64.ceqb
|}.

(** * A runnable instance of what the sources do not contain

    The model below takes the discretization descriptor, the engine and the
    helpers of fnft__misc.c as parameters.  This module gives one concrete
    choice of each on binary64 numbers, so that the model can be run on
    sample inputs. *)

Module Reference.
Import Binary64.

(** Modelled from the spec: the table of fnft__nse_discretization.c is not
    among the sources; the scale is "how many effective samples one original
    sample expands to" (1 for the direct scheme, 2, 3 and 4 for the two-,
    three- and four-node composite schemes, 3 for the derivative-based
    scheme) and "0 is the sentinel for unsupported". *)
Definition D_scale (d : nse_discretization_t) : Z :=
  match d with
  | nse_discretization_BO => 1
  | nse_discretization_CF4_2 => 2
  | nse_discretization_CF4_3 => 3
  | nse_discretization_CF5_3 => 3
  | nse_discretization_CF6_4 => 4
  | nse_discretization_ES4 => 3
  | nse_discretization_TES4 => 3
  | _ => 0
  end.

(** Modelled from the spec: the convergence order of the same table, "direct
    (scale 1, order 1)"; the other orders are the ones in the schemes' names. *)
Definition method_order (d : nse_discretization_t) : Z :=
  match d with
  | nse_discretization_BO => 1
  | nse_discretization_CF4_2 => 4
  | nse_discretization_CF4_3 => 4
  | nse_discretization_CF5_3 => 5
  | nse_discretization_CF6_4 => 6
  | nse_discretization_ES4 => 4
  | nse_discretization_TES4 => 4
  | _ => 0
  end.

(** Modelled from the spec: the "fractional-sample phase correction at the
    domain edges" of the same table, half a sample here. *)
Definition boundary_coeff (d : nse_discretization_t) : float :=
  match D_scale d with 0 => nan | _ => 0.5%float end.

Definition malloc_ok (n : Z) : bool := true.
Definition uninit (i : nat) : complex := (0%float, 0%float).

(** Modelled from the spec: misc_resample of fnft__misc.c is not among the
    sources.  The spec describes a band-limited shift of the signal by
    [delta]; this stand-in interpolates linearly between neighbouring
    samples (and keeps the edge samples). *)
Definition misc_resample (D : Z) (eps_t : float) (q : list complex) (delta : float)
    : INT * (nat → complex) :=
  (SUCCESS,
   λ i, let x := nth i q (0%float, 0%float) in
        let frac := PrimFloat.div delta eps_t in
        let y := if PrimFloat.ltb frac 0%float
                 then nth (i - 1) q x else nth (i + 1) q x in
        cadd x (cscale (PrimFloat.abs frac) (csub y x))).

(** Modelled from the spec: misc_l2norm2 of fnft__misc.c is not among the
    sources; the squared L2 norm of the sampled signal on [[a, b]], by the
    rectangle rule. *)
Definition misc_l2norm2 (D : Z) (q : list complex) (a b : float) : float :=
  PrimFloat.mul
    (fold_left (λ acc z, PrimFloat.add acc (PrimFloat.mul (cabs z) (cabs z)))
               (take (Z.to_nat D) q) 0%float)
    (PrimFloat.div (PrimFloat.sub b a) (of_Z D)).

(** Modelled from the spec: misc_filter of fnft__misc.c is not among the
    sources; "drop every candidate outside the box in a single pass,
    compacting the surviving set in place; the count is updated in place". *)
Definition misc_filter (K : Z) (vals : list complex)
    (bounding_box : float * float * float * float) : INT * Z * list complex :=
  let '(re_lo, re_hi, im_lo, im_hi) := bounding_box in
  let inside (z : complex) :=
    negb (PrimFloat.ltb re_hi (fst z) || PrimFloat.ltb (fst z) re_lo
          || PrimFloat.ltb im_hi (snd z) || PrimFloat.ltb (snd z) im_lo) in
  let kept := List.filter inside (take (Z.to_nat K) vals) in
  (SUCCESS, Z.of_nat (length kept), kept ++ drop (length kept) vals).

(** Modelled from the spec: misc_merge of fnft__misc.c is not among the
    sources; "coalesce any two candidates whose distance is below" the
    tolerance, "keeping one representative". *)
Definition misc_merge (K : Z) (vals : list complex) (tol : float)
    : INT * Z * list complex :=
  let kept :=
    fold_left
      (λ acc z, if existsb (λ w, PrimFloat.ltb (cabs (csub w z)) tol) acc
                then acc else acc ++ [z])
      (take (Z.to_nat K) vals) [] in
  (SUCCESS, Z.of_nat (length kept), kept ++ drop (length kept) vals).

(** Modelled from the spec: the engine of fnft__nse_scatter.c is not among
    the sources; it "integrates the 2x2 linear ODE d/dt Psi = P(lambda, q,
    r) Psi across all effective samples by composing per-sample transfer
    matrices, accumulating the product left-to-right", and "propagates the
    matrix derivative using the product rule on the same composition".
    The per-sample factor is the first-order one,
    [1 + eps_t * [[-i lambda, q], [r, i lambda]]].  The state is
    [(S11, S12, S21, S22)] and its derivative. *)
Definition mat : Type := complex * complex * complex * complex.

Definition mat_mul (a b : mat) : mat :=
  let '(a11, a12, a21, a22) := a in
  let '(b11, b12, b21, b22) := b in
  (cadd (cmul a11 b11) (cmul a12 b21), cadd (cmul a11 b12) (cmul a12 b22),
   cadd (cmul a21 b11) (cmul a22 b21), cadd (cmul a21 b12) (cmul a22 b22)).

Definition mat_add (a b : mat) : mat :=
  let '(a11, a12, a21, a22) := a in
  let '(b11, b12, b21, b22) := b in
  (cadd a11 b11, cadd a12 b12, cadd a21 b21, cadd a22 b22).

Definition transfer (eps_t : float) (lam qn rn : complex) : mat * mat :=
  let i := (0%float, 1%float) in
  let c0 := (0%float, 0%float) in
  let one := (1%float, 0%float) in
  let il := cscale eps_t (cmul i lam) in
  ((csub one il, cscale eps_t qn, cscale eps_t rn, cadd one il),
   (cneg (cscale eps_t i), c0, c0, cscale eps_t i)).

Definition scatter (eps_t : float) (kappa : Z) (q : list complex)
    (r : option (list complex)) (lam : complex) : mat * mat :=
  let c0 := (0%float, 0%float) in
  let one := (1%float, 0%float) in
  let r := match r with
           | Some r => r
           | None => (λ z, cscale (of_Z (- kappa)) (conj z)) <$> q
           end in
  fold_left
    (λ '(Sm, Sm') '(qn, rn),
       let '(U, U') := transfer eps_t lam qn rn in
       (mat_mul U Sm, mat_add (mat_mul U' Sm) (mat_mul U Sm')))
    (zip q r)
    ((one, c0, c0, one), (c0, c0, c0, c0)).

Definition nse_scatter_matrix (D : Z) (q : list complex) (r : option (list complex))
    (eps_t : float) (kappa : Z) (K : Z) (lambda : list complex)
    (discretization : nse_discretization_t) (derivative_flag : Z)
    : INT * (nat → complex) :=
  (match D_scale discretization with 0 => E_INVALID_ARGUMENT | _ => SUCCESS end,
   λ k, let '(S11, S12, S21, S22) :=
          fst (scatter eps_t kappa (take (Z.to_nat D) q) r
                       (nth (k / 4) lambda (0%float, 0%float))) in
        match (k mod 4)%nat with
        | 0%nat => S11 | 1%nat => S12 | 2%nat => S21 | _ => S22
        end).

Definition nse_scatter_bound_states (D : Z) (q : list complex)
    (r : option (list complex)) (T : float * float) (K : Z)
    (bound_states : list complex) (discretization : nse_discretization_t)
    (skip_b_flag : Z)
    : INT * (nat → complex) * (nat → complex) * (nat → complex) :=
  let eps_t := PrimFloat.div (PrimFloat.sub (snd T) (fst T))
                             (of_Z (D / D_scale discretization - 1)) in
  let at_ (k : nat) :=
    scatter eps_t 1 (take (Z.to_nat D) q) r
            (nth k bound_states (0%float, 0%float)) in
  (match D_scale discretization with 0 => E_INVALID_ARGUMENT | _ => SUCCESS end,
   λ k, (fst (at_ k)).1.1.1,
   λ k, (snd (at_ k)).1.1.1,
   λ k, (fst (at_ k)).1.2).

(** An engine with one simple zero: [a(lambda) = lambda - z0],
    [a'(lambda) = 1] and [b(lambda) = b0]. *)
Definition single_zero (z0 b0 : complex) (D : Z) (q : list complex)
    (r : option (list complex)) (T : float * float) (K : Z)
    (bound_states : list complex) (discretization : nse_discretization_t)
    (skip_b_flag : Z)
    : INT * (nat → complex) * (nat → complex) * (nat → complex) :=
  (SUCCESS,
   λ k, csub (nth k bound_states (0%float, 0%float)) z0,
   λ k, (1%float, 0%float),
   λ k, b0).

End Reference.

(** * fnft_nsev_slow.c *)

Section NsevSlow.
Context {REAL COMPLEX : Type} `{FloatOps REAL COMPLEX}.

(** ** What the file calls and the sources do not contain

    The discretization descriptor (fnft__nse_discretization.c), the
    scatter-matrix engine (fnft__nse_scatter.c), the helpers of
    fnft__misc.c and the allocator are parameters of the development.  An
    engine that fills an output array is given by the value it leaves in
    each slot. *)

Variable nse_discretization_D_scale : nse_discretization_t → Z.
Variable nse_discretization_method_order : nse_discretization_t → Z.
Variable nse_discretization_boundary_coeff : nse_discretization_t → REAL.

(** The allocator, see [malloc_block]. *)
Variable malloc_ok : Z → bool.
Variable uninit : nat → COMPLEX.
Local Abbreviation malloc := (malloc_block malloc_ok uninit).

(** [misc_resample(D, eps_t, q, delta, q_new)]: status and [q_new[i]]. *)
Variable misc_resample :
  Z → REAL → list COMPLEX → REAL → INT * (nat → COMPLEX).

(** [misc_l2norm2(D, q, T[0], T[1])]. *)
Variable misc_l2norm2 : Z → list COMPLEX → REAL → REAL → REAL.

(** [misc_filter(&K, vals, NULL, bounding_box)] and
    [misc_merge(&K, vals, tol)]: status, new count and new array. *)
Variable misc_filter :
  Z → list COMPLEX → REAL * REAL * REAL * REAL → INT * Z * list COMPLEX.
Variable misc_merge : Z → list COMPLEX → REAL → INT * Z * list COMPLEX.

(** [nse_scatter_matrix(D, q, r, eps_t, kappa, K, lambda, result,
    discretization, derivative_flag)], the ten-argument engine that
    [fnft_nsev_slow_base] calls: status and [result[k]]. *)
Variable nse_scatter_matrix :
  Z → list COMPLEX → option (list COMPLEX) → REAL → Z → Z → list COMPLEX →
  nse_discretization_t → Z → INT * (nat → COMPLEX).

(** [nse_scatter_bound_states(D, q, r, T, K, bound_states, a_vals,
    aprime_vals, b, discretization, skip_b_flag)]: status, and the values
    [a_vals[k]], [aprime_vals[k]] and [b[k]]. *)
Variable nse_scatter_bound_states :
  Z → list COMPLEX → option (list COMPLEX) → REAL * REAL → Z → list COMPLEX →
  nse_discretization_t → Z →
  INT * (nat → COMPLEX) * (nat → COMPLEX) * (nat → COMPLEX).

(** ** signal_effective_from_signal *)

(** The targets of the four output pointers of the resampler. *)
Record resample_cells : Type := mk_cells {
  Dsub_ptr : option Z;
  q_effective_ptr : option (option (list COMPLEX));
  r_effective_ptr : option (option (list COMPLEX));
  first_last_index : option (Z * Z)
}.

(** [-kappa*CONJ(z)] *)
Definition cofield (kappa : Z) (z : COMPLEX) : COMPLEX :=
  Cscale (RofZ (- kappa)) (CONJ z).

(** Number of iterations of [for (isub = 0; isub < n; isub += stride)]. *)
Definition strided_count (n stride : Z) : nat :=
  Z.to_nat ((n + stride - 1) / stride).

(** case nse_discretization_BO *)
Definition resample_BO (q : list COMPLEX) (kappa : Z) (D_effective : Z)
    (nskip_per_step : Z) (q_effective r_effective : list COMPLEX)
    : option (flow (list COMPLEX * list COMPLEX)) :=
  for_loop (Z.to_nat D_effective) 0
    (λ isub '(qe, re),
       x ← load q (isub * Z.to_nat nskip_per_step);
       qe ← store qe isub x;
       re ← store re isub (cofield kappa x);
       Some (Continue (qe, re)))
    (q_effective, r_effective).

(** case nse_discretization_CF4_2 *)
Definition resample_CF4_2 (D : Z) (q : list COMPLEX) (eps_t : REAL) (kappa : Z)
    (D_effective nskip_per_step : Z) (q_effective r_effective : list COMPLEX)
    : option (flow (list COMPLEX * list COMPLEX)) :=
  match malloc D, malloc D with
  | Some q_1, Some q_2 =>
      let scl_factor := Rdiv (SQRT (RofQ 3.0)) (RofQ 6.0) in
      let '(ret_code, v1) :=
        misc_resample D eps_t q
          (Rmul (Rmul (Ropp eps_t) scl_factor) (RofZ nskip_per_step)) in
      if decide (ret_code ≠ SUCCESS)
      then Some (Return (E_SUBROUTINE ret_code) (q_effective, r_effective))
      else
      q_1 ← write_block q_1 (Z.to_nat D) v1;
      let '(ret_code, v2) :=
        misc_resample D eps_t q
          (Rmul (Rmul eps_t scl_factor) (RofZ nskip_per_step)) in
      if decide (ret_code ≠ SUCCESS)
      then Some (Return (E_SUBROUTINE ret_code) (q_effective, r_effective))
      else
      q_2 ← write_block q_2 (Z.to_nat D) v2;
      for_loop (strided_count D_effective 2) 0
        (λ k '(qe, re),
           let isub := (2 * k)%nat in
           let i := (k * Z.to_nat nskip_per_step)%nat in
           a ← load q_1 i;
           b ← load q_2 i;
           let e0 := Csub (Cdivr (Cadd a b) (RofQ 4.0)) (Cscale scl_factor (Csub b a)) in
           let e1 := Cadd (Cdivr (Cadd a b) (RofQ 4.0)) (Cscale scl_factor (Csub b a)) in
           qe ← store qe isub e0;
           qe ← store qe (isub + 1) e1;
           re ← store re isub (cofield kappa e0);
           re ← store re (isub + 1) (cofield kappa e1);
           Some (Continue (qe, re)))
        (q_effective, r_effective)
  | _, _ => Some (Return E_NOMEM (q_effective, r_effective))
  end.

(** [c1*x + c2*y + c3*z] with real coefficients, as written in the CF4_3 case. *)
Definition lincomb_r (c1 c2 c3 : Q) (x y z : COMPLEX) : COMPLEX :=
  Cadd (Cadd (Cscale (RofQ c1) x) (Cscale (RofQ c2) y)) (Cscale (RofQ c3) z).

(** The same with the complex coefficients of the CF5_3 and CF6_4 cases. *)
Definition lincomb_c (c1 c2 c3 : Q * Q) (x y z : COMPLEX) : COMPLEX :=
  let k c := Cmk (RofQ (fst c)) (RofQ (snd c)) in
  Cadd (Cadd (Cmul (k c1) x) (Cmul (k c2) y)) (Cmul (k c3) z).

(** case nse_discretization_CF4_3 *)
Definition resample_CF4_3 (D : Z) (q : list COMPLEX) (eps_t : REAL) (kappa : Z)
    (D_effective nskip_per_step : Z) (q_effective r_effective : list COMPLEX)
    : option (flow (list COMPLEX * list COMPLEX)) :=
  match malloc D, malloc D with
  | Some q_1, Some q_3 =>
      let '(ret_code, v1) :=
        misc_resample D eps_t q
          (Rmul (Rmul (Ropp eps_t) (SQRT (Rdiv (RofQ 3.0) (RofQ 20.0))))
                (RofZ nskip_per_step)) in
      if decide (ret_code ≠ SUCCESS)
      then Some (Return (E_SUBROUTINE ret_code) (q_effective, r_effective))
      else
      q_1 ← write_block q_1 (Z.to_nat D) v1;
      let '(ret_code, v3) :=
        misc_resample D eps_t q
          (Rmul (Rmul eps_t (SQRT (Rdiv (RofQ 3.0) (RofQ 20.0))))
                (RofZ nskip_per_step)) in
      if decide (ret_code ≠ SUCCESS)
      then Some (Return (E_SUBROUTINE ret_code) (q_effective, r_effective))
      else
      q_3 ← write_block q_3 (Z.to_nat D) v3;
      for_loop (strided_count D_effective 3) 0
        (λ k '(qe, re),
           let isub := (3 * k)%nat in
           let i := (k * Z.to_nat nskip_per_step)%nat in
           a ← load q_1 i;
           m ← load q i;
           c ← load q_3 i;
           let e0 := lincomb_r 0.302556833188024 (-0.033333333333333)
                               0.005776500145310 a m c in
           let e1 := lincomb_r (-0.030555555555556) 0.511111111111111
                               (-0.030555555555556) a m c in
           let e2 := lincomb_r 0.005776500145310 (-0.033333333333333)
                               0.302556833188024 a m c in
           qe ← store qe isub e0;
           qe ← store qe (isub + 1) e1;
           qe ← store qe (isub + 2) e2;
           re ← store re isub (cofield kappa e0);
           re ← store re (isub + 1) (cofield kappa e1);
           re ← store re (isub + 2) (cofield kappa e2);
           Some (Continue (qe, re)))
        (q_effective, r_effective)
  | _, _ => Some (Return E_NOMEM (q_effective, r_effective))
  end.

(** [r_1[i] = -kappa*CONJ(q_1[i])] for [i < D]. *)
Definition cofield_array (kappa : Z) (D : Z) (src dst : list COMPLEX)
    : option (list COMPLEX) :=
  r ← for_loop (Z.to_nat D) 0
        (λ i dst, x ← load src i; dst ← store dst i (cofield kappa x);
                  Some (Continue dst)) dst;
  match r with Continue dst => Some dst | Return _ dst => Some dst end.

(** The part the CF5_3 and CF6_4 cases share: the two shifted copies of the
    signal and the three co-fields. *)
Definition resample_shifted (D : Z) (q : list COMPLEX) (eps_t : REAL) (kappa : Z)
    (delta_1 delta_3 : REAL)
    : option (INT + (list COMPLEX * list COMPLEX * list COMPLEX * list COMPLEX * list COMPLEX)) :=
  match malloc D, malloc D, malloc D, malloc D, malloc D with
  | Some q_1, Some q_3, Some r_1, Some r_2, Some r_3 =>
      let '(ret_code, v1) := misc_resample D eps_t q delta_1 in
      if decide (ret_code ≠ SUCCESS) then Some (inl (E_SUBROUTINE ret_code)) else
      q_1 ← write_block q_1 (Z.to_nat D) v1;
      let '(ret_code, v3) := misc_resample D eps_t q delta_3 in
      if decide (ret_code ≠ SUCCESS) then Some (inl (E_SUBROUTINE ret_code)) else
      q_3 ← write_block q_3 (Z.to_nat D) v3;
      r_1 ← cofield_array kappa D q_1 r_1;
      r_2 ← cofield_array kappa D q r_2;
      r_3 ← cofield_array kappa D q_3 r_3;
      Some (inr (q_1, q_3, r_1, r_2, r_3))
  | _, _, _, _, _ => Some (inl E_NOMEM)
  end.

(** case nse_discretization_CF5_3 *)
Definition resample_CF5_3 (D : Z) (q : list COMPLEX) (eps_t : REAL) (kappa : Z)
    (D_effective nskip_per_step : Z) (q_effective r_effective : list COMPLEX)
    : option (flow (list COMPLEX * list COMPLEX)) :=
  (* the shifts are written  -eps_t*SQRT(15.0)/10.0*nskip_per_step  and
     eps_t*SQRT(15.0)/10.0*nskip_per_step  *)
  s ← resample_shifted D q eps_t kappa
        (Rmul (Rdiv (Rmul (Ropp eps_t) (SQRT (RofQ 15.0))) (RofQ 10.0))
              (RofZ nskip_per_step))
        (Rmul (Rdiv (Rmul eps_t (SQRT (RofQ 15.0))) (RofQ 10.0))
              (RofZ nskip_per_step));
  match s with
  | inl rc => Some (Return rc (q_effective, r_effective))
  | inr (q_1, q_3, r_1, r_2, r_3) =>
      let c00 := (0.320333759788527, 0.055396500128741)%Q in
      let c01 := (-0.022222222222222, 0.066666666666667)%Q in
      let c02 := (0.001888462433695, -0.022063166795408)%Q in
      let c10 := (-0.044444444444444, -0.077459666924148)%Q in
      let c12 := (-0.044444444444444, 0.077459666924148)%Q in
      let c20 := (0.001888462433695, 0.022063166795408)%Q in
      let c21 := (-0.022222222222222, -0.066666666666667)%Q in
      let c22 := (0.320333759788527, -0.055396500128741)%Q in
      (* the middle coefficient of the second node is the real 0.488888888888889 *)
      let mid x y z :=
        Cadd (Cadd (Cmul (Cmk (RofQ (fst c10)) (RofQ (snd c10))) x)
                   (Cscale (RofQ 0.488888888888889) y))
             (Cmul (Cmk (RofQ (fst c12)) (RofQ (snd c12))) z) in
      for_loop (strided_count D_effective 3) 0
        (λ k '(qe, re),
           let isub := (3 * k)%nat in
           let i := (k * Z.to_nat nskip_per_step)%nat in
           a ← load q_1 i; m ← load q i; c ← load q_3 i;
           ra ← load r_1 i; rm ← load r_2 i; rc ← load r_3 i;
           qe ← store qe isub (lincomb_c c00 c01 c02 a m c);
           re ← store re isub (lincomb_c c00 c01 c02 ra rm rc);
           qe ← store qe (isub + 1) (mid a m c);
           re ← store re (isub + 1) (mid ra rm rc);
           qe ← store qe (isub + 2) (lincomb_c c20 c21 c22 a m c);
           re ← store re (isub + 2) (lincomb_c c20 c21 c22 ra rm rc);
           Some (Continue (qe, re)))
        (q_effective, r_effective)
  end.

(** case nse_discretization_CF6_4 *)
Definition resample_CF6_4 (D : Z) (q : list COMPLEX) (eps_t : REAL) (kappa : Z)
    (D_effective nskip_per_step : Z) (q_effective r_effective : list COMPLEX)
    : option (flow (list COMPLEX * list COMPLEX)) :=
  (* the shifts are written  -eps_t*nskip_per_step*SQRT(15.0)/10.0  and
     eps_t*nskip_per_step*SQRT(15.0)/10.0  *)
  s ← resample_shifted D q eps_t kappa
        (Rdiv (Rmul (Rmul (Ropp eps_t) (RofZ nskip_per_step)) (SQRT (RofQ 15.0)))
              (RofQ 10.0))
        (Rdiv (Rmul (Rmul eps_t (RofZ nskip_per_step)) (SQRT (RofQ 15.0)))
              (RofQ 10.0));
  match s with
  | inl rc => Some (Return rc (q_effective, r_effective))
  | inr (q_1, q_3, r_1, r_2, r_3) =>
      let c00 := (0.245985577298764, 0.038734389227165)%Q in
      let c01 := (-0.046806149832549, 0.012442141491185)%Q in
      let c02 := (0.010894359342569, -0.004575808769067)%Q in
      let c10 := (0.062868370946917, -0.048761268117765)%Q in
      let c11 := (0.269028372054771, -0.012442141491185)%Q in
      let c12 := (-0.041970529810473, 0.014602687659668)%Q in
      for_loop (strided_count D_effective 4) 0
        (λ k '(qe, re),
           let isub := (4 * k)%nat in
           let i := (k * Z.to_nat nskip_per_step)%nat in
           a ← load q_1 i; m ← load q i; c ← load q_3 i;
           ra ← load r_1 i; rm ← load r_2 i; rc ← load r_3 i;
           qe ← store qe isub (lincomb_c c00 c01 c02 a m c);
           re ← store re isub (lincomb_c c00 c01 c02 ra rm rc);
           qe ← store qe (isub + 1) (lincomb_c c10 c11 c12 a m c);
           re ← store re (isub + 1) (lincomb_c c10 c11 c12 ra rm rc);
           qe ← store qe (isub + 2) (lincomb_c c12 c11 c10 a m c);
           re ← store re (isub + 2) (lincomb_c c12 c11 c10 ra rm rc);
           qe ← store qe (isub + 3) (lincomb_c c02 c01 c00 a m c);
           re ← store re (isub + 3) (lincomb_c c02 c01 c00 ra rm rc);
           Some (Continue (qe, re)))
        (q_effective, r_effective)
  end.

(** case nse_discretization_ES4, nse_discretization_TES4 *)
Definition resample_ES4 (q : list COMPLEX) (eps_t : REAL) (kappa : Z)
    (D_effective nskip_per_step : Z) (q_effective r_effective : list COMPLEX)
    : option (flow (list COMPLEX * list COMPLEX)) :=
  let unflow (r : flow (list COMPLEX)) :=
    match r with Continue s => s | Return _ s => s end in
  let at_ (z : Z) : nat := Z.to_nat z in
  qe ← unflow <$> for_loop (strided_count D_effective 3) 0
        (λ k qe, x ← load q (k * Z.to_nat nskip_per_step);
                 qe ← store qe (3 * k) x;
                 Some (Continue qe)) q_effective;
  let eps_t_sub := Rmul eps_t (RofZ nskip_per_step) in
  let eps_t_sub_2 := POW eps_t_sub (RofZ 2) in
  let two z := Cscale (RofZ 2) z in
  (* q_effective[1], q_effective[2] *)
  q3 ← load qe 3; q0 ← load qe 0;
  qe ← store qe 1 (Cdivr (Csub q3 q0) eps_t_sub);
  q6 ← load qe 6; q3 ← load qe 3; q0 ← load qe 0;
  qe ← store qe 2 (Cdivr (Cadd (Csub q6 (two q3)) q0) eps_t_sub_2);
  (* q_effective[D_effective-2], q_effective[D_effective-1] *)
  a ← load qe (at_ (usub D_effective 3)); b ← load qe (at_ (usub D_effective 6));
  qe ← store qe (at_ (usub D_effective 2)) (Cdivr (Csub a b) eps_t_sub);
  a ← load qe (at_ (usub D_effective 3)); b ← load qe (at_ (usub D_effective 6));
  c ← load qe (at_ (usub D_effective 9));
  qe ← store qe (at_ (usub D_effective 1))
                (Cdivr (Cadd (Csub a (two b)) c) eps_t_sub_2);
  (* for (isub=3; isub<D_effective-3; isub=isub+3) *)
  qe ← unflow <$> for_loop (strided_count (usub D_effective 3 - 3) 3) 0
        (λ k qe,
           let isub := (3 + 3 * k)%nat in
           nx ← load qe (isub + 3); pv ← load qe (isub - 3);
           qe ← store qe (isub + 1)
                  (Cdivr (Csub nx pv) (Rmul (RofZ 2) eps_t_sub));
           nx ← load qe (isub + 3); cu ← load qe isub; pv ← load qe (isub - 3);
           qe ← store qe (isub + 2)
                  (Cdivr (Cadd (Csub nx (two cu)) pv) eps_t_sub_2);
           Some (Continue qe)) qe;
  re ← cofield_array kappa D_effective qe r_effective;
  Some (Continue (qe, re)).

Definition signal_effective_from_signal (D : Z) (q : option (list COMPLEX))
    (eps_t : REAL) (kappa : Z) (m : resample_cells)
    (discretization : nse_discretization_t) : option (INT * resample_cells) :=
  (* Check inputs *)
  if decide (D < 2) then Some (E_INVALID_ARGUMENT, m) else
  match q, Dsub_ptr m, q_effective_ptr m, r_effective_ptr m with
  | None, _, _, _ | _, None, _, _ | _, _, None, _ | _, _, _, None =>
      Some (E_INVALID_ARGUMENT, m)
  | Some q, Some Dsub, Some _, Some _ =>
  if Rleb eps_t (RofQ 0.0) then Some (E_INVALID_ARGUMENT, m) else
  if decide (Z.abs kappa ≠ 1) then Some (E_INVALID_ARGUMENT, m) else
  match first_last_index m with
  | None => Some (E_INVALID_ARGUMENT, m)
  | Some _ =>
  (* Determine number of samples after downsampling, Dsub *)
  let Dsub := if decide (Dsub < 2) then 2 else Dsub in
  let Dsub := if decide (Dsub > D) then D else Dsub in
  let nskip_per_step := UINTofR (ROUND (Rdiv (RofZ D) (RofZ Dsub))) in
  let Dsub := UINTofR (ROUND (Rdiv (RofZ D) (RofZ nskip_per_step))) in
  let D_scale := nse_discretization_D_scale discretization in
  if decide (D_scale = 0) then Some (E_INVALID_ARGUMENT, m) else
  let D_effective := umul Dsub D_scale in
  match malloc D_effective, malloc D_effective with
  | Some q_effective, Some r_effective =>
      filled ←
        match discretization with
        | nse_discretization_BO =>
            resample_BO q kappa D_effective nskip_per_step q_effective r_effective
        | nse_discretization_CF4_2 =>
            resample_CF4_2 D q eps_t kappa D_effective nskip_per_step
                           q_effective r_effective
        | nse_discretization_CF4_3 =>
            resample_CF4_3 D q eps_t kappa D_effective nskip_per_step
                           q_effective r_effective
        | nse_discretization_CF5_3 =>
            resample_CF5_3 D q eps_t kappa D_effective nskip_per_step
                           q_effective r_effective
        | nse_discretization_CF6_4 =>
            resample_CF6_4 D q eps_t kappa D_effective nskip_per_step
                           q_effective r_effective
        | nse_discretization_ES4 | nse_discretization_TES4 =>
            resample_ES4 q eps_t kappa D_effective nskip_per_step
                         q_effective r_effective
        | _ => (* Unknown discretization *)
            Some (Return E_INVALID_ARGUMENT (q_effective, r_effective))
        end;
      match filled with
      | Return ret_code _ => Some (ret_code, m)
      | Continue (q_effective, r_effective) =>
          (* Original index of the first and last sample in qsub *)
          Some (SUCCESS,
                {| Dsub_ptr := Some Dsub;
                   q_effective_ptr := Some (Some q_effective);
                   r_effective_ptr := Some (Some r_effective);
                   first_last_index :=
                     Some (0, umul (usub Dsub 1) nskip_per_step) |})
      end
  | _, _ => Some (E_NOMEM, m)
  end
  end
  end.

(** ** re_bound, im_bound *)

(** [0.9*PI/FABS(2 * eps_t)] *)
Definition re_bound (eps_t : REAL) : REAL :=
  Rdiv (Rmul (RofQ 0.9) PI) (FABS (Rmul (RofZ 2) eps_t)).

(** [1.5 * 0.25 * misc_l2norm2(D, q, T[0], T[1])] *)
Definition im_bound (D : Z) (q : list COMPLEX) (T : REAL * REAL) : REAL :=
  Rmul (Rmul (RofQ 1.5) (RofQ 0.25)) (misc_l2norm2 D q (fst T) (snd T)).

(** ** refine_roots_newton *)

(** The test that ends the iteration of one root early:
    [CIMAG(lam) > im_bound_val || CREAL(lam) > re_bound_val
     || CREAL(lam) < -re_bound_val || CIMAG(lam) < 0.0]. *)
Definition out_of_region (im_bound_val re_bound_val : REAL) (lam : COMPLEX) : bool :=
  Rgtb (CIMAG lam) im_bound_val
  || Rgtb (CREAL lam) re_bound_val
  || Rltb (CREAL lam) (Ropp re_bound_val)
  || Rltb (CIMAG lam) (RofQ 0.0).

(** One call of the engine at a single root, as in the loop body:
    [nse_scatter_bound_states(D, q, r, T, 1, bound_states + i, &a_val,
    &aprime_val, &b_val, discretization, 1)]. *)
Definition scatter_at (D : Z) (q : list COMPLEX) (r : option (list COMPLEX))
    (T : REAL * REAL) (discretization : nse_discretization_t) (lam : COMPLEX)
    : INT * COMPLEX * COMPLEX :=
  let '(ret_code, a_vals, aprime_vals, _) :=
    nse_scatter_bound_states D q r T 1 [lam] discretization 1 in
  (ret_code, a_vals 0%nat, aprime_vals 0%nat).

(** [error = a_val / aprime_val] and the update
    [bound_states[i] -= error] at a root [lam]. *)
Definition newton_error (D : Z) (q : list COMPLEX) (r : option (list COMPLEX))
    (T : REAL * REAL) (discretization : nse_discretization_t) (lam : COMPLEX)
    : COMPLEX :=
  let '(_, a_val, aprime_val) := scatter_at D q r T discretization lam in
  Cdiv a_val aprime_val.

Definition newton_update (D : Z) (q : list COMPLEX) (r : option (list COMPLEX))
    (T : REAL * REAL) (discretization : nse_discretization_t) (lam : COMPLEX)
    : COMPLEX :=
  Csub lam (newton_error D q r T discretization lam).

(** The [do { ... } while (CABS(error) > eprecision && iter < niter)] loop of
    one root.  [iter] is the counter before the body runs; [fuel] bounds the
    unfolding and is [niter] at the call (the loop runs at most [niter]
    times).  [Continue lam] is the value of [bound_states[i]] when the loop
    is left, [Return rc lam] when the function returns inside the loop. *)
Fixpoint newton_do_while (D : Z) (q : list COMPLEX) (r : option (list COMPLEX))
    (T : REAL * REAL) (discretization : nse_discretization_t) (niter : Z)
    (im_bound_val re_bound_val : REAL)
    (fuel : nat) (iter : Z) (lam : COMPLEX) : flow COMPLEX :=
  match fuel with
  | O => Continue lam
  | S fuel =>
      (* Compute a(lam) and a'(lam) at the current root *)
      let '(ret_code, a_val, aprime_val) := scatter_at D q r T discretization lam in
      if decide (ret_code ≠ SUCCESS)
      then Return (E_SUBROUTINE (E_SUBROUTINE ret_code)) lam
      else
      (* Perform Newton updates: lam[i] <- lam[i] - a(lam[i])/a'(lam[i]) *)
      if Cis0 aprime_val then Return E_DIV_BY_ZERO lam else
      let error := newton_error D q r T discretization lam in
      let lam := newton_update D q r T discretization lam in
      let iter := iter + 1 in
      if out_of_region im_bound_val re_bound_val lam then Continue lam   (* break *)
      else if Rgtb (CABS error) (Rmul EPSILON (RofZ 100)) && bool_decide (iter < niter)
      then newton_do_while D q r T discretization niter
                           im_bound_val re_bound_val fuel iter lam
      else Continue lam
  end.

Definition refine_roots_newton (D : Z) (q : option (list COMPLEX))
    (r : option (list COMPLEX)) (T : option (REAL * REAL)) (K : Z)
    (bound_states : option (list COMPLEX))
    (discretization : nse_discretization_t) (niter : Z)
    : option (INT * option (list COMPLEX)) :=
  (* Check inputs *)
  if decide (K = 0) then Some (SUCCESS, bound_states) else
  if decide (niter = 0) then Some (SUCCESS, bound_states) else
  match bound_states, q, T with
  | None, _, _ | _, None, _ | _, _, None => Some (E_INVALID_ARGUMENT, bound_states)
  | Some bs, Some q, Some T =>
  let D_scale := nse_discretization_D_scale discretization in
  if decide (D_scale = 0) then Some (E_INVALID_ARGUMENT, bound_states) else
  let D_given := D / D_scale in
  let eps_t := Rdiv (Rsub (snd T) (fst T)) (RofZ (usub D_given 1)) in
  let im_bound_val := Rmul (RofZ (umul D_scale D_scale)) (im_bound D q T) in
  if Reqb im_bound_val NAN
  then Some (E_SUBROUTINE E_OTHER, bound_states) else
  let re_bound_val := re_bound eps_t in
  (* Perform iterations of Newton's method *)
  res ← for_loop (Z.to_nat K) 0
          (λ i bs,
             lam ← load bs i;
             match newton_do_while D q r T discretization niter
                     im_bound_val re_bound_val (Z.to_nat niter) 0 lam with
             | Continue lam => bs ← store bs i lam; Some (Continue bs)
             | Return rc lam => bs ← store bs i lam; Some (Return rc bs)
             end) bs;
  match res with
  | Continue bs => Some (SUCCESS, Some bs)
  | Return rc bs => Some (rc, Some bs)
  end
  end.

(** ** compute_normconsts_or_residues *)

(** [memcpy(a + dst, a + src, n*sizeof(COMPLEX))] inside one array. *)
Definition memcpy_within (a : list COMPLEX) (dst src n : nat)
    : option (list COMPLEX) :=
  if decide (src + n ≤ length a ∧ dst + n ≤ length a)%nat
  then Some (take dst a ++ take n (drop src a) ++ drop (dst + n) a)
  else None.

Definition compute_normconsts_or_residues (D : Z) (q : option (list COMPLEX))
    (r : option (list COMPLEX)) (T : REAL * REAL) (K : Z)
    (bound_states : list COMPLEX) (normconsts_or_residues : list COMPLEX)
    (opts : fnft_nsev_slow_opts_t) : option (INT * list COMPLEX) :=
  (* Check inputs *)
  if decide (K = 0) then Some (SUCCESS, normconsts_or_residues) else
  if decide (D = 0) then Some (E_INVALID_ARGUMENT, normconsts_or_residues) else
  match q with
  | None => Some (E_INVALID_ARGUMENT, normconsts_or_residues)
  | Some q =>
  match malloc K, malloc K with
  | Some _, Some _ =>
      guard (Z.to_nat K ≤ length bound_states)%nat;;
      let '(ret_code, a_vals, aprime_vals, b_vals) :=
        nse_scatter_bound_states D q r T K (take (Z.to_nat K) bound_states)
                                 (discretization opts) 0 in
      ncr ← write_block normconsts_or_residues (Z.to_nat K) b_vals;
      if decide (ret_code ≠ SUCCESS) then Some (E_SUBROUTINE ret_code, ncr) else
      (* Update to or add residues if requested *)
      if decide (discspec_type opts ≠ nsev_dstype_NORMING_CONSTANTS) then
        prepared ←
          match discspec_type opts with
          | nsev_dstype_RESIDUES => Some (inr (0%nat, ncr))
          | nsev_dstype_BOTH =>
              ncr ← memcpy_within ncr (Z.to_nat K) 0 (Z.to_nat K);
              Some (inr (Z.to_nat K, ncr))
          | _ => Some (inl (E_INVALID_ARGUMENT, ncr))
          end;
        match prepared with
        | inl err => Some err
        | inr (offset, ncr) =>
            (* Divide norming constants by derivatives to get residues *)
            res ← for_loop (Z.to_nat K) 0
                    (λ i ncr,
                       if Cis0 (aprime_vals i) then Some (Return E_DIV_BY_ZERO ncr)
                       else
                         x ← load ncr (offset + i);
                         ncr ← store ncr (offset + i) (Cdiv x (aprime_vals i));
                         Some (Continue ncr)) ncr;
            match res with
            | Continue ncr => Some (SUCCESS, ncr)
            | Return rc ncr => Some (rc, ncr)
            end
        end
      else Some (SUCCESS, ncr)
  | _, _ => Some (E_NOMEM, normconsts_or_residues)
  end
  end.

(** ** The memory the caller of fnft_nsev_slow sees

    The four output arguments, the options record [opts] points to, and the
    static [default_opts] that is used (through its address) when [opts] is
    [NULL]. *)
Record nsev_mem : Type := mk_mem {
  contspec : option (list COMPLEX);
  K_ptr : option Z;
  bound_states : option (list COMPLEX);
  normconsts_or_residues : option (list COMPLEX);
  opts : option fnft_nsev_slow_opts_t;
  static_default_opts : fnft_nsev_slow_opts_t
}.

Definition set_contspec (v : option (list COMPLEX)) (m : nsev_mem) : nsev_mem :=
  mk_mem v (K_ptr m) (bound_states m) (normconsts_or_residues m) (opts m)
         (static_default_opts m).
Definition set_K (v : Z) (m : nsev_mem) : nsev_mem :=
  mk_mem (contspec m) (Some v) (bound_states m) (normconsts_or_residues m)
         (opts m) (static_default_opts m).
Definition set_bound_states (v : option (list COMPLEX)) (m : nsev_mem) : nsev_mem :=
  mk_mem (contspec m) (K_ptr m) v (normconsts_or_residues m) (opts m)
         (static_default_opts m).
Definition set_normconsts_or_residues (v : option (list COMPLEX)) (m : nsev_mem)
    : nsev_mem :=
  mk_mem (contspec m) (K_ptr m) (bound_states m) v (opts m)
         (static_default_opts m).

(** [opts->field] after [if (opts == NULL) opts = &default_opts;]. *)
Definition opts_deref (m : nsev_mem) : fnft_nsev_slow_opts_t :=
  match opts m with Some o => o | None => static_default_opts m end.

(** [opts->field = v] through the same pointer. *)
Definition opts_update (f : fnft_nsev_slow_opts_t → fnft_nsev_slow_opts_t)
    (m : nsev_mem) : nsev_mem :=
  match opts m with
  | Some o => mk_mem (contspec m) (K_ptr m) (bound_states m)
                     (normconsts_or_residues m) (Some (f o)) (static_default_opts m)
  | None => mk_mem (contspec m) (K_ptr m) (bound_states m)
                   (normconsts_or_residues m) None (f (static_default_opts m))
  end.

(** ** fnft_nsev_slow_base: the continuous spectrum *)

(** [CEXP(I*xi*phase_factor)] *)
Definition phase (xi : COMPLEX) (phase_factor : REAL) : COMPLEX :=
  CEXP (Cscale phase_factor (Cmul I xi)).

(** The loop of [case nsev_cstype_REFLECTION_COEFFICIENT]. *)
Definition contspec_rho (M : Z) (phase_factor_rho : REAL)
    (scatter_coeffs : nat → COMPLEX) (xi contspec : list COMPLEX)
    : option (flow (list COMPLEX)) :=
  for_loop (Z.to_nat M) 0
    (λ i contspec,
       if Cis0 (scatter_coeffs (i * 4)%nat)
       then Some (Return E_DIV_BY_ZERO contspec)
       else
         x ← load xi i;
         contspec ← store contspec i
           (Cdiv (Cmul (scatter_coeffs (i * 4 + 2)%nat) (phase x phase_factor_rho))
                 (scatter_coeffs (i * 4)%nat));
         Some (Continue contspec)) contspec.

(** The loop of [case nsev_cstype_AB]. *)
Definition contspec_ab (M : Z) (offset : nat) (phase_factor_a phase_factor_b : REAL)
    (scatter_coeffs : nat → COMPLEX) (xi contspec : list COMPLEX)
    : option (flow (list COMPLEX)) :=
  for_loop (Z.to_nat M) 0
    (λ i contspec,
       x ← load xi i;
       contspec ← store contspec (offset + i)
         (Cmul (scatter_coeffs (i * 4)%nat) (phase x phase_factor_a));
       contspec ← store contspec (offset + Z.to_nat M + i)
         (Cmul (scatter_coeffs (i * 4 + 2)%nat) (phase x phase_factor_b));
       Some (Continue contspec)) contspec.

(** [switch (opts->contspec_type)] of fnft_nsev_slow_base (lines 405-446):
    from the scattering coefficients [scatter_coeffs[4*i .. 4*i+3]] at the
    grid points [xi[i]] to the output array. *)
Definition contspec_assemble (M : Z) (T : REAL * REAL) (eps_t boundary_coeff : REAL)
    (contspec_type : nsev_cstype_t) (scatter_coeffs : nat → COMPLEX)
    (xi contspec : list COMPLEX) : option (flow (list COMPLEX)) :=
  let edge_1 := Radd (snd T) (Rmul eps_t boundary_coeff) in
  let edge_0 := Rsub (fst T) (Rmul eps_t boundary_coeff) in
  let phase_factor_rho := Rmul (Ropp (RofQ 2.0)) edge_1 in
  let phase_factor_a := Rsub edge_1 edge_0 in
  let phase_factor_b := Rsub (Ropp edge_1) edge_0 in
  match contspec_type with
  | nsev_cstype_BOTH =>
      filled ← contspec_rho M phase_factor_rho scatter_coeffs xi contspec;
      match filled with
      | Return rc contspec => Some (Return rc contspec)
      | Continue contspec =>
          contspec_ab M (Z.to_nat M) phase_factor_a phase_factor_b
                      scatter_coeffs xi contspec
      end
  | nsev_cstype_REFLECTION_COEFFICIENT =>
      contspec_rho M phase_factor_rho scatter_coeffs xi contspec
  | nsev_cstype_AB =>
      contspec_ab M 0 phase_factor_a phase_factor_b scatter_coeffs xi contspec
  | nsev_cstype_other _ => Some (Return E_INVALID_ARGUMENT contspec)
  end.

(** [xi[i] = XI[0] + eps_xi*i] for [i < M]. *)
Definition xi_grid (XI : REAL * REAL) (eps_xi : REAL) (M : Z) : list COMPLEX :=
  (λ i : nat, CofR (Radd (fst XI) (Rmul eps_xi (RofZ (Z.of_nat i)))))
    <$> seq 0 (Z.to_nat M).

(** [if (contspec != NULL && M > 0) { ... }] of fnft_nsev_slow_base. *)
Definition base_contspec (D : Z) (q : list COMPLEX) (r : option (list COMPLEX))
    (T : REAL * REAL) (M : Z) (XI : option (REAL * REAL)) (kappa : Z)
    (eps_t : REAL) (o : fnft_nsev_slow_opts_t) (contspec : list COMPLEX)
    : option (flow (list COMPLEX)) :=
  match malloc M, malloc (umul 4 M) with
  | Some _, Some _ =>
      XI ← XI;
      let eps_xi := Rdiv (Rsub (snd XI) (fst XI)) (RofZ (usub M 1)) in
      let xi := xi_grid XI eps_xi M in
      let '(ret_code, scatter_coeffs) :=
        nse_scatter_matrix D q r eps_t kappa M xi (discretization o) 0 in
      if decide (ret_code ≠ SUCCESS)
      then Some (Return (E_SUBROUTINE ret_code) contspec) else
      let boundary_coeff := nse_discretization_boundary_coeff (discretization o) in
      if Reqb boundary_coeff NAN then Some (Return E_INVALID_ARGUMENT contspec) else
      contspec_assemble M T eps_t boundary_coeff (contspec_type o)
                        scatter_coeffs xi contspec
  | _, _ => Some (Return E_NOMEM contspec)
  end.

(** ** fnft_nsev_slow_base: the discrete spectrum *)

(** [q_tmp[i] = D_scale*q[j]] with [j = 1, 1 + D_scale, ...], for [i < D_given]. *)
Definition rescaled_samples (D_scale D_given : Z) (q q_tmp : list COMPLEX)
    : option (list COMPLEX) :=
  r ← for_loop (Z.to_nat D_given) 0
        (λ i q_tmp,
           x ← load q (1 + i * Z.to_nat D_scale);
           q_tmp ← store q_tmp i (Cscale (RofZ D_scale) x);
           Some (Continue q_tmp)) q_tmp;
  match r with Continue t => Some t | Return _ t => Some t end.

(** The two filter passes and the merge pass on the local count [K] and on
    [buffer] (which is [bound_states]). *)
Definition base_filter_merge (D_scale D_given : Z) (q : list COMPLEX)
    (T : REAL * REAL) (eps_t : REAL) (o : fnft_nsev_slow_opts_t)
    (K : Z) (buffer : list COMPLEX) : option (flow (Z * list COMPLEX)) :=
  (* Filter bound states *)
  pass1 ←
    (if decide (bound_state_filtering o ≠ nsev_bsfilt_NONE) then
       let bounding_box := (Ropp INFINITY, INFINITY, RofQ 0.0, INFINITY) in
       let '(ret_code, K, buffer) := misc_filter K buffer bounding_box in
       if decide (ret_code ≠ SUCCESS)
       then Some (Return (E_SUBROUTINE ret_code) (K, buffer))
       else Some (Continue (K, buffer))
     else Some (Continue (K, buffer)));
  match pass1 with
  | Return rc s => Some (Return rc s)
  | Continue (K, buffer) =>
  pass2 ←
    (if decide (bound_state_filtering o = nsev_bsfilt_FULL) then
       let bb1 := re_bound eps_t in
       let bb0 := Ropp bb1 in
       let bb2 := RofZ 0 in
       bb3 ←
         (if decide (D_scale = 1) then Some (inr (im_bound D_given q T))
          else
            match malloc D_given with
            | None => Some (inl E_NOMEM)
            | Some q_tmp =>
                q_tmp ← rescaled_samples D_scale D_given q q_tmp;
                Some (inr (im_bound D_given q_tmp T))
            end);
       match bb3 with
       | inl rc => Some (Return rc (K, buffer))
       | inr bb3 =>
           let '(ret_code, K, buffer) := misc_filter K buffer (bb0, bb1, bb2, bb3) in
           if decide (ret_code ≠ SUCCESS)
           then Some (Return (E_SUBROUTINE ret_code) (K, buffer))
           else Some (Continue (K, buffer))
       end
     else Some (Continue (K, buffer)));
  match pass2 with
  | Return rc s => Some (Return rc s)
  | Continue (K, buffer) =>
      let '(ret_code, K, buffer) := misc_merge K buffer (SQRT EPSILON) in
      if decide (ret_code ≠ SUCCESS)
      then Some (Return (E_SUBROUTINE ret_code) (K, buffer))
      else Some (Continue (K, buffer))
  end
  end.

(** [if (kappa == +1 && bound_states != NULL) { ... }] of
    fnft_nsev_slow_base, entered with [bound_states] and [*K_ptr]. *)
Definition base_discspec (D : Z) (q : list COMPLEX) (r : option (list COMPLEX))
    (T : REAL * REAL) (D_scale D_given : Z) (eps_t : REAL)
    (bs : list COMPLEX) (K0 : Z) (m : nsev_mem) : option (INT * nsev_mem) :=
  let o := opts_deref m in
  (* Localize bound states ... *)
  match bound_state_localization o with
  | nsev_bsloc_NEWTON =>
      let K := K0 in
      refined ← refine_roots_newton D (Some q) r (Some T) K (Some bs)
                                    (discretization o) (niter o);
      let '(ret_code, buffer) := refined in
      if decide (ret_code ≠ SUCCESS)
      then Some (E_SUBROUTINE ret_code, set_bound_states buffer m) else
      buffer ← buffer;
      passes ← base_filter_merge D_scale D_given q T eps_t o K buffer;
      match passes with
      | Return rc (_, buffer) => Some (rc, set_bound_states (Some buffer) m)
      | Continue (K, buffer) =>
          let m := set_bound_states (Some buffer) m in
          (* Norming constants and/or residues *)
          match normconsts_or_residues m with
          | Some ncr =>
              if decide (K0 ≠ 0) then
                computed ← compute_normconsts_or_residues D (Some q) r T K0
                                                          buffer ncr o;
                let '(ret_code, ncr) := computed in
                let m := set_normconsts_or_residues (Some ncr) m in
                if decide (ret_code ≠ SUCCESS)
                then Some (E_SUBROUTINE ret_code, m)
                else Some (SUCCESS, set_K K m)
              else Some (SUCCESS, set_K K m)
          | None => Some (SUCCESS, set_K K m)
          end
      end
  | nsev_bsloc_other _ => Some (E_INVALID_ARGUMENT, m)
  end.

Definition fnft_nsev_slow_base (D : Z) (q r : option (list COMPLEX))
    (T : option (REAL * REAL)) (M : Z) (XI : option (REAL * REAL)) (kappa : Z)
    (m : nsev_mem) : option (INT * nsev_mem) :=
  (* Check inputs *)
  if decide (D < 2) then Some (E_INVALID_ARGUMENT, m) else
  match q with
  | None => Some (E_INVALID_ARGUMENT, m)
  | Some q =>
  match T with
  | None => Some (E_INVALID_ARGUMENT, m)
  | Some T =>
  if Rgeb (fst T) (snd T) then Some (E_INVALID_ARGUMENT, m) else
  if bool_decide (contspec m ≠ None)
     && match XI with None => true | Some XI => Rgeb (fst XI) (snd XI) end
  then Some (E_INVALID_ARGUMENT, m) else
  if decide (Z.abs kappa ≠ 1) then Some (E_INVALID_ARGUMENT, m) else
  if bool_decide (bound_states m ≠ None) && bool_decide (K_ptr m = None)
  then Some (E_INVALID_ARGUMENT, m) else
  let o := opts_deref m in
  (* Determine step size *)
  let D_scale := nse_discretization_D_scale (discretization o) in
  if decide (D_scale = 0) then Some (E_INVALID_ARGUMENT, m) else
  let D_given := D / D_scale in
  let eps_t := Rdiv (Rsub (snd T) (fst T)) (RofZ (usub D_given 1)) in
  (* Compute the continuous spectrum *)
  cont ←
    match contspec m with
    | Some cs =>
        if decide (M > 0) then
          filled ← base_contspec D q r T M XI kappa eps_t o cs;
          match filled with
          | Continue cs => Some (Continue (set_contspec (Some cs) m))
          | Return rc cs => Some (Return rc (set_contspec (Some cs) m))
          end
        else Some (Continue m)
    | None => Some (Continue m)
    end;
  match cont with
  | Return rc m => Some (rc, m)
  | Continue m =>
      (* Compute the discrete spectrum *)
      match bound_states m with
      | Some bs =>
          if decide (kappa = 1) then
            K0 ← K_ptr m;
            base_discspec D q r T D_scale D_given eps_t bs K0 m
          else
            match K_ptr m with
            | Some _ => Some (SUCCESS, set_K 0 m)
            | None => Some (SUCCESS, m)
            end
      | None =>
          match K_ptr m with
          | Some _ => Some (SUCCESS, set_K 0 m)
          | None => Some (SUCCESS, m)
          end
      end
  end
  end
  end.

(** ** fnft_nsev_slow: the Richardson step *)

(** Lines 274-281: the step on the continuous spectrum.  [contspec] is the
    output of the run on all [D] samples, [contspec_sub] the output of the
    run on the subsampled signal. *)
Definition richardson_contspec (M : Z) (XI : REAL * REAL) (dxi eps_t_sub : REAL)
    (scl_num scl_den : REAL) (contspec_len : Z)
    (contspec_sub contspec : list COMPLEX) : option (list COMPLEX) :=
  r ← for_loop (Z.to_nat M) 0
        (λ i contspec,
           if Rltb (FABS (Radd (fst XI) (Rmul dxi (RofZ (Z.of_nat i)))))
                   (Rdiv (Rmul (RofQ 0.9) PI) (Rmul (RofQ 2.0) eps_t_sub))
           then
             (* for (j=0; j<contspec_len; j+=M) *)
             for_loop (strided_count contspec_len M) 0
               (λ b contspec,
                  let j := (b * Z.to_nat M)%nat in
                  full ← load contspec (i + j);
                  sub ← load contspec_sub (i + j);
                  contspec ← store contspec (i + j)
                    (Cdivr (Csub (Cscale scl_num full) sub) scl_den);
                  Some (Continue contspec)) contspec
           else Some (Continue contspec)) contspec;
  match r with Continue c => Some c | Return _ c => Some c end.

(** [CABS(lam - y)/CABS(lam)], the relative distance of line 293. *)
Definition relative_distance (lam y : COMPLEX) : REAL :=
  Rdiv (CABS (Csub lam y)) (CABS lam).

(** Lines 290-298: the search of the eigenvalue of the subsampled run that
    is nearest to [lam].  The state is [(loc, bs_err_thres)]. *)
Definition nearest_sub (eps_t : REAL) (lam : COMPLEX) (bound_states_sub : list COMPLEX)
    (K_sub : Z) : option (nat * REAL) :=
  r ← for_loop (Z.to_nat K_sub) 0
        (λ j '(loc, bs_err_thres),
           y ← load bound_states_sub j;
           let bs_err := relative_distance lam y in
           if Rltb bs_err bs_err_thres
           then Some (Continue (j, bs_err))
           else Some (Continue (loc, bs_err_thres)))
        (Z.to_nat K_sub, eps_t);
  match r with Continue s => Some s | Return _ s => Some s end.

(** The arrays the step on the bound states works on: [bound_states],
    the array [normconsts_or_residues_reserve] points to, and
    [normconsts_or_residues_sub]. *)
Record richardson_arrays : Type := mk_arrays {
  ra_bound_states : list COMPLEX;
  ra_reserve : option (list COMPLEX);
  ra_sub : option (list COMPLEX)
}.

(** Lines 289-311: one iteration [i] of the loop over the eigenvalues. *)
Definition richardson_bound_state (eps_t scl_num scl_den : REAL)
    (ds_type_opt : nsev_dstype_t) (K K_sub : Z) (bound_states_sub : list COMPLEX)
    (i : nat) (a : richardson_arrays) : option richardson_arrays :=
  lam ← load (ra_bound_states a) i;
  '(loc, _) ← nearest_sub eps_t lam bound_states_sub K_sub;
  if decide (loc < Z.to_nat K_sub)%nat then
    y ← load bound_states_sub loc;
    bs ← store (ra_bound_states a) i (Cdivr (Csub (Cscale scl_num lam) y) scl_den);
    if bool_decide (ds_type_opt = nsev_dstype_RESIDUES)
       || bool_decide (ds_type_opt = nsev_dstype_BOTH)
    then
      let k := Z.to_nat K in
      let ks := Z.to_nat K_sub in
      res ← ra_reserve a;
      sub ← ra_sub a;
      (* Computing aprimes from residues and norming constants *)
      n ← load res i; d ← load res (k + i);
      res ← store res (k + i) (Cdiv n d);
      n ← load sub loc; d ← load sub (ks + loc);
      sub ← store sub (ks + loc) (Cdiv n d);
      (* Richardson step on aprime *)
      x ← load res (k + i); y ← load sub (loc + ks);
      res ← store res (k + i) (Cdivr (Csub (Cscale scl_num x) y) scl_den);
      (* Computing residue *)
      n ← load res i; d ← load res (k + i);
      res ← store res (k + i) (Cdiv n d);
      Some (mk_arrays bs (Some res) (Some sub))
    else Some (mk_arrays bs (ra_reserve a) (ra_sub a))
  else Some a.

Definition richardson_bound_states (eps_t scl_num scl_den : REAL)
    (ds_type_opt : nsev_dstype_t) (K K_sub : Z) (bound_states_sub : list COMPLEX)
    (a : richardson_arrays) : option richardson_arrays :=
  r ← for_loop (Z.to_nat K) 0
        (λ i a, a ← richardson_bound_state eps_t scl_num scl_den ds_type_opt
                      K K_sub bound_states_sub i a;
                Some (Continue a)) a;
  match r with Continue a => Some a | Return _ a => Some a end.

(** [memcpy(dst, src + from, n*sizeof(COMPLEX))] between two arrays. *)
Definition memcpy_from (dst src : list COMPLEX) (from n : nat)
    : option (list COMPLEX) :=
  if decide (from + n ≤ length src ∧ n ≤ length dst)%nat
  then Some (take n (drop from src) ++ drop n dst) else None.

(** What [normconsts_or_residues_reserve] points to: the caller's array
    [normconsts_or_residues] itself, or a block of its own. *)
Inductive reserve_ptr : Type :=
  | reserve_is_output
  | reserve_is_block (blk : list COMPLEX).

(** Lines 194-318: the body of the second
    [if (opts->richardson_extrapolation_flag == 1)], entered after the run on
    all [D] samples has succeeded. *)
Definition fnft_nsev_slow_richardson (D : Z) (q : option (list COMPLEX))
    (T : REAL * REAL) (M : Z) (XI : option (REAL * REAL)) (kappa : Z)
    (eps_t : REAL) (D_scale : Z) (ds_type_opt : nsev_dstype_t)
    (reserve : reserve_ptr) (cells : resample_cells) (m : nsev_mem)
    : option (INT * nsev_mem) :=
  (* Allocating memory *)
  cont_alloc ←
    match contspec m with
    | Some _ =>
        if decide (M > 0) then
          match contspec_type (opts_deref m) with
          | nsev_cstype_BOTH => Some (inr (umul 3 M, malloc (umul 3 M)))
          | nsev_cstype_REFLECTION_COEFFICIENT => Some (inr (M, malloc M))
          | nsev_cstype_AB => Some (inr (umul 2 M, malloc (umul 2 M)))
          | nsev_cstype_other _ => Some (inl E_INVALID_ARGUMENT)
          end
        else Some (inr (0, None))
    | None => Some (inr (0, None))
    end;
  match cont_alloc with
  | inl rc => Some (rc, m)
  | inr (contspec_len, contspec_sub) =>
  if bool_decide (contspec m ≠ None) && bool_decide (M > 0)
     && bool_decide (contspec_sub = None)
  then Some (E_NOMEM, m) else
  disc_alloc ←
    match bound_states m with
    | Some bs =>
        if decide (kappa = 1) then
          K ← K_ptr m;
          if decide (K ≠ 0) then
            let K_sub := K in
            let bound_states_sub := malloc K_sub in
            match discspec_type (opts_deref m) with
            | nsev_dstype_other _ => Some (inl E_INVALID_ARGUMENT)
            | t =>
                let discspec_len :=
                  match t with
                  | nsev_dstype_NORMING_CONSTANTS => K_sub
                  | _ => umul 2 K_sub
                  end in
                match malloc discspec_len, bound_states_sub with
                | Some ncr_sub, Some bs_sub =>
                    (* for (i=0; i<K_sub; i++) bound_states_sub[i] = bound_states[i]; *)
                    copied ← for_loop (Z.to_nat K_sub) 0
                                (λ i bs_sub, x ← load bs i; bs_sub ← store bs_sub i x;
                                             Some (Continue bs_sub)) bs_sub;
                    match copied with
                    | Continue bs_sub | Return _ bs_sub =>
                        Some (inr (K_sub, Some bs_sub, Some ncr_sub))
                    end
                | _, _ => Some (inl E_NOMEM)
                end
            end
          else Some (inr (0, None, None))
        else Some (inr (0, None, None))
    | None => Some (inr (0, None, None))
    end;
  match disc_alloc with
  | inl rc => Some (rc, m)
  | inr (K_sub, bound_states_sub, normconsts_or_residues_sub) =>
  (* Preparing q_effective *)
  let method_order := nse_discretization_method_order (discretization (opts_deref m)) in
  if decide (method_order = 0) then Some (E_INVALID_ARGUMENT, m) else
  let Dsub := UINTofR (CEIL (RofZ (D / 2))) in
  resampled ← signal_effective_from_signal D q eps_t kappa
                 (mk_cells (Some Dsub) (q_effective_ptr cells)
                           (r_effective_ptr cells) (first_last_index cells))
                 (discretization (opts_deref m));
  let '(ret_code, cells) := resampled in
  if decide (ret_code ≠ SUCCESS) then Some (E_SUBROUTINE ret_code, m) else
  Dsub ← Dsub_ptr cells;
  q_effective ← q_effective_ptr cells;
  r_effective ← r_effective_ptr cells;
  '(first, last) ← first_last_index cells;
  let Tsub := (Radd (fst T) (Rmul (RofZ first) eps_t),
               Radd (fst T) (Rmul (RofZ last) eps_t)) in
  let eps_t_sub := Rdiv (Rsub (snd Tsub) (fst Tsub)) (RofZ (usub Dsub 1)) in
  (* Calling fnft_nsev_base with subsampled signal *)
  let bs_loc_opt := bound_state_localization (opts_deref m) in
  let m := opts_update (set_bound_state_localization nsev_bsloc_NEWTON) m in
  sub_run ← fnft_nsev_slow_base (umul Dsub D_scale) q_effective r_effective
               (Some Tsub) M XI kappa
               (mk_mem contspec_sub (Some K_sub) bound_states_sub
                       normconsts_or_residues_sub (opts m) (static_default_opts m));
  let '(ret_code, sub) := sub_run in
  if decide (ret_code ≠ SUCCESS) then Some (E_SUBROUTINE ret_code, m) else
  K_sub ← K_ptr sub;
  let m := opts_update (set_bound_state_localization bs_loc_opt) m in
  let m := opts_update (set_discspec_type ds_type_opt) m in
  (* Richardson step *)
  let scl_num := POW (Rdiv (RofZ D) (RofZ Dsub)) (RofZ method_order) in
  let scl_den := Rsub scl_num (RofQ 1.0) in
  XI ← XI;
  let dxi := Rdiv (Rsub (snd XI) (fst XI)) (RofZ (usub M 1)) in
  m ←
    match contspec m with
    | Some cs =>
        if decide (M > 0) then
          cs_sub ← contspec sub;
          cs ← richardson_contspec M XI dxi eps_t_sub scl_num scl_den
                                   contspec_len cs_sub cs;
          Some (set_contspec (Some cs) m)
        else Some m
    | None => Some m
    end;
  match bound_states m with
  | Some bs =>
      if decide (kappa = 1) then
        K ← K_ptr m;
        if bool_decide (K ≠ 0) && bool_decide (K_sub ≠ 0) then
          bs_sub ← bound_states sub;
          let res :=
            match reserve with
            | reserve_is_output => normconsts_or_residues m
            | reserve_is_block blk => Some blk
            end in
          a ← richardson_bound_states eps_t scl_num scl_den ds_type_opt K K_sub
                 bs_sub (mk_arrays bs res (normconsts_or_residues sub));
          let m := set_bound_states (Some (ra_bound_states a)) m in
          (* writes through the reserve pointer land in the output array when
             the two are the same array *)
          let m :=
            match reserve with
            | reserve_is_output => set_normconsts_or_residues (ra_reserve a) m
            | reserve_is_block _ => m
            end in
          match ds_type_opt with
          | nsev_dstype_RESIDUES =>
              ncr ← normconsts_or_residues m;
              res ← ra_reserve a;
              ncr ← memcpy_from ncr res (Z.to_nat K) (Z.to_nat K);
              Some (SUCCESS, set_normconsts_or_residues (Some ncr) m)
          | nsev_dstype_BOTH =>
              ncr ← normconsts_or_residues m;
              res ← ra_reserve a;
              ncr ← memcpy_from ncr res 0 (Z.to_nat (umul 2 K));
              Some (SUCCESS, set_normconsts_or_residues (Some ncr) m)
          | _ => Some (SUCCESS, m)
          end
        else Some (SUCCESS, m)
      else Some (SUCCESS, m)
  | None => Some (SUCCESS, m)
  end
  end
  end.

Definition fnft_nsev_slow (D : Z) (q : option (list COMPLEX))
    (T : option (REAL * REAL)) (M : Z) (XI : option (REAL * REAL)) (kappa : Z)
    (m : nsev_mem) : option (INT * nsev_mem) :=
  (* Check inputs *)
  if decide (D < 2) then Some (E_INVALID_ARGUMENT, m) else
  match q with
  | None => Some (E_INVALID_ARGUMENT, m)
  | Some _ =>
  match T with
  | None => Some (E_INVALID_ARGUMENT, m)
  | Some T =>
  if Rgeb (fst T) (snd T) then Some (E_INVALID_ARGUMENT, m) else
  if bool_decide (contspec m ≠ None)
     && match XI with None => true | Some XI => Rgeb (fst XI) (snd XI) end
  then Some (E_INVALID_ARGUMENT, m) else
  if decide (Z.abs kappa ≠ 1) then Some (E_INVALID_ARGUMENT, m) else
  if bool_decide (bound_states m ≠ None) && bool_decide (K_ptr m = None)
  then Some (E_INVALID_ARGUMENT, m) else
  (* Determine step size *)
  let eps_t := Rdiv (Rsub (snd T) (fst T)) (RofZ (usub D 1)) in
  let ds_type_opt := discspec_type (opts_deref m) in
  prepared ←
    (if bool_decide (richardson_extrapolation_flag (opts_deref m) = 1)
        && bool_decide (ds_type_opt = nsev_dstype_RESIDUES)
     then
       let m := opts_update (set_discspec_type nsev_dstype_BOTH) m in
       K ← K_ptr m;
       match malloc (umul K 2) with
       | Some blk => Some (Continue (reserve_is_block blk, m))
       | None => Some (Return E_NOMEM (reserve_is_output, m))
       end
     else Some (Continue (reserve_is_output, m)));
  match prepared with
  | Return rc (_, m) => Some (rc, m)
  | Continue (reserve, m) =>
  let D_scale := nse_discretization_D_scale (discretization (opts_deref m)) in
  if decide (D_scale = 0) then Some (E_INVALID_ARGUMENT, m) else
  let Dsub := D in
  (* Resample signal *)
  resampled ← signal_effective_from_signal D q eps_t kappa
                 (mk_cells (Some Dsub) (Some None) (Some None) (Some (0, 0)))
                 (discretization (opts_deref m));
  let '(ret_code, cells) := resampled in
  if decide (ret_code ≠ SUCCESS) then Some (E_SUBROUTINE ret_code, m) else
  q_effective ← q_effective_ptr cells;
  r_effective ← r_effective_ptr cells;
  full_run ← fnft_nsev_slow_base (umul D D_scale) q_effective r_effective
                (Some T) M XI kappa m;
  let '(ret_code, m) := full_run in
  if decide (ret_code ≠ SUCCESS) then Some (E_SUBROUTINE ret_code, m) else
  if decide (richardson_extrapolation_flag (opts_deref m) = 1)
  then fnft_nsev_slow_richardson D q T M XI kappa eps_t D_scale ds_type_opt
                                 reserve cells m
  else Some (SUCCESS, m)
  end
  end
  end.

(** ** Invariants used in the proofs *)

(** The invariant of the loops that write a node of the effective signal
    and its co-field together. *)
Definition cofield_upto (kappa : Z) (lq lr : nat) (k : nat)
    (s : list COMPLEX * list COMPLEX) : Prop :=
  length s.1 = lq ∧ length s.2 = lr
  ∧ ∀ j x, (j < k)%nat → s.1 !! j = Some x → s.2 !! j = Some (cofield kappa x).

(** * Properties *)

(** ** Loops and arrays *)

Lemma for_loop_snoc {S : Type} (body : nat → S → option (flow S)) n i s :
  for_loop (Datatypes.S n) i body s =
  match for_loop n i body s with
  | Some (Continue s') => body (i + n)%nat s'
  | other => other
  end.
Proof.
  revert i s. induction n as [|n IH]; intros i s.
  - simpl. rewrite Nat.add_0_r. destruct (body i s) as [[s'|rc s']|]; reflexivity.
  - change (for_loop (Datatypes.S (Datatypes.S n)) i body s)
      with (match body i s with
            | None => None
            | Some (Continue s') => for_loop (Datatypes.S n) (Datatypes.S i) body s'
            | Some (Return rc s') => Some (Return rc s')
            end).
    destruct (body i s) as [[s'|rc s']|] eqn:E.
    + rewrite IH. simpl. rewrite E, Nat.add_succ_r. reflexivity.
    + simpl. rewrite E. reflexivity.
    + simpl. rewrite E. reflexivity.
Qed.

(** A loop whose body always goes on is a fold: an invariant of the body
    holds after the loop, and the loop returns. *)
Lemma for_loop_invariant {S : Type} (P : nat → S → Prop)
    (body : nat → S → option (flow S)) n i s :
  P i s →
  (∀ k t, (i ≤ k < i + n)%nat → P k t →
          ∃ t', body k t = Some (Continue t') ∧ P (Datatypes.S k) t') →
  ∃ s', for_loop n i body s = Some (Continue s') ∧ P (i + n)%nat s'.
Proof.
  revert i s. induction n as [|n IH]; intros i s HP Hstep.
  - exists s. rewrite Nat.add_0_r. auto.
  - destruct (Hstep i s) as (t' & Hb & HP'); [lia | exact HP |].
    destruct (IH (Datatypes.S i) t' HP') as (s' & Hl & HPs).
    { intros k t Hk. apply Hstep. lia. }
    exists s'. simpl. rewrite Hb.
    replace (i + Datatypes.S n)%nat with (Datatypes.S i + n)%nat by lia. auto.
Qed.

(** The same when the loop is known to have gone through. *)
Lemma for_loop_continue_inv {S : Type} (P : nat → S → Prop)
    (body : nat → S → option (flow S)) n i s s' :
  for_loop n i body s = Some (Continue s') →
  P i s →
  (∀ k t t', (i ≤ k < i + n)%nat → P k t → body k t = Some (Continue t') →
             P (Datatypes.S k) t') →
  P (i + n)%nat s'.
Proof.
  revert i s. induction n as [|n IH]; intros i s Hl HP Hstep.
  - simpl in Hl. injection Hl as <-. rewrite Nat.add_0_r. exact HP.
  - simpl in Hl. destruct (body i s) as [[t|rc t]|] eqn:E; try discriminate.
    replace (i + Datatypes.S n)%nat with (Datatypes.S i + n)%nat by lia.
    apply (IH (Datatypes.S i) t Hl).
    + apply (Hstep i s t); [lia | exact HP | exact E].
    + intros k u u' Hk. apply Hstep. lia.
Qed.

(** Whatever way the loop ends, a property that every step of the body
    preserves holds of the final state. *)
Lemma for_loop_preserves {S : Type} (P : S → Prop)
    (body : nat → S → option (flow S)) n i s r :
  for_loop n i body s = Some r →
  P s →
  (∀ k t r', body k t = Some r' → P t →
             match r' with Continue t' => P t' | Return _ t' => P t' end) →
  match r with Continue s' => P s' | Return _ s' => P s' end.
Proof.
  revert i s. induction n as [|n IH]; intros i s Hl HP Hstep.
  - simpl in Hl. injection Hl as <-. exact HP.
  - simpl in Hl. destruct (body i s) as [[t|rc t]|] eqn:E; try discriminate.
    + apply (IH _ _ Hl); [|exact Hstep]. exact (Hstep _ _ _ E HP).
    + injection Hl as <-. exact (Hstep _ _ _ E HP).
Qed.

(** A loop returns only where its body does. *)
Lemma for_loop_return {S : Type} (body : nat → S → option (flow S)) n i s rc s' :
  for_loop n i body s = Some (Return rc s') →
  ∃ k t, (i ≤ k < i + n)%nat ∧ body k t = Some (Return rc s').
Proof.
  revert i s. induction n as [|n IH]; intros i s Hl; simpl in Hl; [discriminate|].
  destruct (body i s) as [[t|rc' t]|] eqn:E; try discriminate.
  - destruct (IH _ _ Hl) as (k & u & Hk & Hb). exists k, u. split; [lia | done].
  - injection Hl as -> ->. exists i, s. split; [lia | done].
Qed.

Lemma store_Some {A} (l l' : list A) i v :
  store l i v = Some l' → (i < length l)%nat ∧ l' = <[i := v]> l.
Proof. unfold store. case_decide; [intros [= <-]; done | done]. Qed.

Lemma store_ok {A} (l : list A) i v :
  (i < length l)%nat → store l i v = Some (<[i := v]> l).
Proof. intros. unfold store. case_decide; [done | lia]. Qed.

Lemma load_ok {A} (l : list A) i :
  (i < length l)%nat → ∃ x, load l i = Some x.
Proof. intros Hi. unfold load. destruct (lookup_lt_is_Some_2 l i Hi) as [x Hx]. eauto. Qed.

(** ** The memory record *)

Lemma K_ptr_opts_update f m : K_ptr (opts_update f m) = K_ptr m.
Proof. unfold opts_update. by destruct (opts m). Qed.

Lemma bound_states_opts_update f m :
  bound_states (opts_update f m) = bound_states m.
Proof. unfold opts_update. by destruct (opts m). Qed.

Lemma normconsts_opts_update f m :
  normconsts_or_residues (opts_update f m) = normconsts_or_residues m.
Proof. unfold opts_update. by destruct (opts m). Qed.

Lemma contspec_opts_update f m : contspec (opts_update f m) = contspec m.
Proof. unfold opts_update. by destruct (opts m). Qed.

Lemma opts_update_frame f m :
  contspec (opts_update f m) = contspec m
  ∧ K_ptr (opts_update f m) = K_ptr m
  ∧ bound_states (opts_update f m) = bound_states m
  ∧ normconsts_or_residues (opts_update f m) = normconsts_or_residues m.
Proof. unfold opts_update. destruct (opts m); simpl; auto. Qed.

(** ** Input validation of the primary entry point *)

(** C7.  A call of [fnft_nsev_slow] with [D < 2], or [q] null, or [T] null or
    [T[0] >= T[1]], or [contspec] non-null and ([XI] null or
    [XI[0] >= XI[1]]), or [abs(kappa) != 1], or [bound_states] non-null and
    [K_ptr] null, returns the invalid-argument code, and the memory of the
    caller (the output arrays, [*K_ptr], the options) is what it was before
    the call. *)
Theorem fnft_nsev_slow_invalid_argument D q T M XI kappa m :
  D < 2
  ∨ q = None
  ∨ T = None
  ∨ (∃ T0 T1, T = Some (T0, T1) ∧ Rgeb T0 T1 = true)
  ∨ (contspec m ≠ None
     ∧ (XI = None ∨ ∃ XI0 XI1, XI = Some (XI0, XI1) ∧ Rgeb XI0 XI1 = true))
  ∨ Z.abs kappa ≠ 1
  ∨ (bound_states m ≠ None ∧ K_ptr m = None) →
  fnft_nsev_slow D q T M XI kappa m = Some (E_INVALID_ARGUMENT, m).
Proof.
  intros Hbad. unfold fnft_nsev_slow.
  destruct (decide (D < 2)) as [|HD]; [reflexivity|].
  destruct q as [q|]; [|reflexivity].
  destruct T as [[T0 T1]|]; [|reflexivity]. simpl.
  destruct (Rgeb T0 T1) eqn:HT; [reflexivity|].
  destruct (bool_decide (contspec m ≠ None)
            && match XI with None => true | Some XI => Rgeb (fst XI) (snd XI) end)
    eqn:HXI; [reflexivity|].
  destruct (decide (Z.abs kappa ≠ 1)) as [|Hk]; [reflexivity|].
  destruct (bool_decide (bound_states m ≠ None) && bool_decide (K_ptr m = None))
    eqn:HK; [reflexivity|].
  exfalso.
  destruct Hbad as [?|[?|[?|[(T0' & T1' & HeqT & Hge)|[[Hc HX]|[?|[Hb HKn]]]]]]];
    try done.
  - injection HeqT as -> ->. congruence.
  - rewrite (bool_decide_eq_true_2 _ Hc) in HXI. simpl in HXI.
    destruct HX as [->|(X0 & X1 & -> & Hge)]; simpl in HXI; congruence.
  - rewrite (bool_decide_eq_true_2 _ Hb), (bool_decide_eq_true_2 _ HKn) in HK.
    discriminate.
Qed.

(** ** Runs without a discrete spectrum *)

(** The continuous-spectrum part of [fnft_nsev_slow_base] writes [contspec]
    only; with [kappa != 1] or [bound_states] null the discrete part sets
    [*K_ptr = 0] and writes nothing else. *)
Lemma fnft_nsev_slow_base_no_discspec D q r T M XI kappa m rc m' :
  fnft_nsev_slow_base D q r T M XI kappa m = Some (rc, m') →
  kappa ≠ 1 ∨ bound_states m = None →
  bound_states m' = bound_states m
  ∧ normconsts_or_residues m' = normconsts_or_residues m
  ∧ opts m' = opts m
  ∧ static_default_opts m' = static_default_opts m
  ∧ (contspec m = None → contspec m' = None)
  ∧ (contspec m ≠ None → contspec m' ≠ None)
  ∧ (K_ptr m = None → K_ptr m' = None)
  ∧ (rc = SUCCESS → K_ptr m ≠ None → K_ptr m' = Some 0).
Proof.
  intros Hrun Hno. unfold fnft_nsev_slow_base in Hrun.
  repeat match type of Hrun with
         | (if ?c then _ else _) = _ =>
             destruct c; [injection Hrun as <- <-; by repeat split|]
         | match ?x with _ => _ end = _ =>
             destruct x; [|injection Hrun as <- <-; by repeat split]
         end.
  apply bind_Some in Hrun as (cont & Hcont & Hrun).
  assert (Hframe : match cont with Continue m1 | Return _ m1 =>
            bound_states m1 = bound_states m
            ∧ normconsts_or_residues m1 = normconsts_or_residues m
            ∧ opts m1 = opts m
            ∧ static_default_opts m1 = static_default_opts m
            ∧ K_ptr m1 = K_ptr m
            ∧ (contspec m = None → contspec m1 = None)
            ∧ (contspec m ≠ None → contspec m1 ≠ None) end).
  { destruct (contspec m) as [cs|] eqn:Hcs.
    - destruct (decide (M > 0)).
      + apply bind_Some in Hcont as (filled & _ & Hcont).
        destruct filled; injection Hcont as <-; simpl; by repeat split.
      + injection Hcont as <-. rewrite Hcs. by repeat split.
    - injection Hcont as <-. rewrite Hcs. by repeat split. }
  destruct cont as [m1|rc1 m1].
  - destruct Hframe as (Hb & Hn & Ho & Hs & HK & Hc1 & Hc2).
    assert (Hend : match K_ptr m1 with
                   | Some _ => Some (SUCCESS, set_K 0 m1)
                   | None => Some (SUCCESS, m1)
                   end = Some (rc, m') →
            bound_states m' = bound_states m
            ∧ normconsts_or_residues m' = normconsts_or_residues m
            ∧ opts m' = opts m
            ∧ static_default_opts m' = static_default_opts m
            ∧ (contspec m = None → contspec m' = None)
            ∧ (contspec m ≠ None → contspec m' ≠ None)
            ∧ (K_ptr m = None → K_ptr m' = None)
            ∧ (rc = SUCCESS → K_ptr m ≠ None → K_ptr m' = Some 0)).
    { destruct (K_ptr m1) eqn:HK1; intros [= <- <-]; simpl;
        repeat split; try done; congruence. }
    destruct (bound_states m1) as [bs|] eqn:Hbs.
    + destruct (decide (kappa = 1)) as [->|]; [|by apply Hend].
      destruct Hno as [?|Hnone]; [done|]. congruence.
    + by apply Hend.
  - destruct Hframe as (Hb & Hn & Ho & Hs & HK & Hc1 & Hc2).
    injection Hrun as <- <-. repeat split; try done.
    + congruence.
    + intros -> HKn.
      (* the continuous part never returns SUCCESS early *)
      exfalso. destruct (contspec m) as [cs|] eqn:Hcs; [|discriminate].
      destruct (decide (M > 0)); [|discriminate].
      apply bind_Some in Hcont as (filled & Hfill & Hcont).
      destruct filled as [cs'|rc' cs']; [discriminate|].
      injection Hcont as -> _.
      unfold base_contspec in Hfill.
      destruct (malloc_block _ _ M); [|discriminate].
      destruct (malloc_block _ _ (umul 4 M)); [|discriminate].
      apply bind_Some in Hfill as (XI' & _ & Hfill).
      destruct (nse_scatter_matrix _ _ _ _ _ _ _ _ _) as [rcs sc].
      destruct (decide (rcs ≠ SUCCESS)) as [Hne|];
        [injection Hfill as Hrc _; unfold E_SUBROUTINE in Hrc; congruence|].
      destruct (Reqb _ _); [discriminate|].
      unfold contspec_assemble in Hfill.
      assert (Hrho : ∀ pf xs c0 c1,
                contspec_rho M pf sc xs c0 = Some (Return SUCCESS c1) → False).
      { intros pf xs c0 c1 Hl. unfold contspec_rho in Hl.
        apply for_loop_return in Hl as (k & t & _ & Hbody).
        destruct (Cis0 _); [discriminate|].
        destruct (load xs k); [|discriminate]. cbn [mbind option_bind] in Hbody.
        destruct (store t k _); discriminate. }
      assert (Hab : ∀ off pa pb xs c0 c1,
                contspec_ab M off pa pb sc xs c0 = Some (Return SUCCESS c1) → False).
      { intros off pa pb xs c0 c1 Hl. unfold contspec_ab in Hl.
        apply for_loop_return in Hl as (k & t & _ & Hbody).
        destruct (load xs k); [|discriminate]. cbn [mbind option_bind] in Hbody.
        destruct (store t (off + k) _) as [t'|]; [|discriminate].
        cbn [mbind option_bind] in Hbody.
        destruct (store t' _ _); discriminate. }
      destruct (contspec_type _).
      * eauto.
      * eauto.
      * apply bind_Some in Hfill as (f1 & H1 & Hfill).
        destruct f1 as [c1|rc1 c1]; [eauto|].
        injection Hfill as -> _. eauto.
      * discriminate.
Qed.

(** One step through the code of a run that is known to have returned: a
    case distinction on the next test. *)
Ltac step_run H :=
  match type of H with
  | (if ?c then _ else _) = Some _ => destruct c eqn:?
  | (let '(_, _) := ?x in _) = Some _ => destruct x eqn:?
  | match ?x with _ => _ end = Some _ => destruct x eqn:?
  | mbind _ _ = Some _ => apply bind_Some in H as (? & ? & H)
  end;
  try discriminate H;
  try (exfalso; injection H as H _; unfold E_SUBROUTINE in H; congruence).

(** A return that leaves the three discrete-spectrum cells as they were. *)
Ltac frame_return H :=
  injection H as <- <-; simpl;
  rewrite ?K_ptr_opts_update, ?bound_states_opts_update,
          ?normconsts_opts_update;
  simpl; done.

Lemma fnft_nsev_slow_richardson_no_discspec D q T M XI kappa eps_t D_scale
    ds_type_opt reserve cells m rc m' :
  fnft_nsev_slow_richardson D q T M XI kappa eps_t D_scale ds_type_opt
                            reserve cells m = Some (rc, m') →
  kappa ≠ 1 ∨ bound_states m = None →
  K_ptr m' = K_ptr m
  ∧ bound_states m' = bound_states m
  ∧ normconsts_or_residues m' = normconsts_or_residues m.
Proof.
  intros Hrun Hno. unfold fnft_nsev_slow_richardson in Hrun.
  repeat lazymatch type of Hrun with
         | mbind _ ?a = _ =>
             lazymatch a with
             | context [richardson_contspec] => fail
             | _ => first [frame_return Hrun | step_run Hrun]
             end
         | _ => first [frame_return Hrun | step_run Hrun]
         end.
  all: apply bind_Some in Hrun as (m3 & Hm3 & Hrun).
  all: assert (Hframe : K_ptr m3 = K_ptr m ∧ bound_states m3 = bound_states m
                         ∧ normconsts_or_residues m3 = normconsts_or_residues m)
         by (repeat step_run Hm3; injection Hm3 as <-; simpl;
             rewrite ?K_ptr_opts_update, ?bound_states_opts_update,
                     ?normconsts_opts_update; done).
  all: destruct Hframe as (HK & Hb & Hn).
  all: destruct (bound_states m3) as [bs|] eqn:Hbs;
         [destruct (decide (kappa = 1)) as [->|];
          [destruct Hno as [?|Hnone]; [done | congruence]|]|].
  all: injection Hrun as <- <-; repeat split; congruence.
Qed.

(** C10.  A successful call of [fnft_nsev_slow] with [kappa = -1] or with a
    null [bound_states], and a non-null [K_ptr], ends with [*K_ptr = 0]; the
    arrays [bound_states] and [normconsts_or_residues] are what they were
    before the call. *)
Theorem fnft_nsev_slow_no_discrete_spectrum D q T M XI kappa m m' :
  fnft_nsev_slow D q T M XI kappa m = Some (SUCCESS, m') →
  kappa = -1 ∨ bound_states m = None →
  K_ptr m ≠ None →
  K_ptr m' = Some 0
  ∧ bound_states m' = bound_states m
  ∧ normconsts_or_residues m' = normconsts_or_residues m.
Proof.
  intros Hrun Hno HK. unfold fnft_nsev_slow in Hrun.
  repeat lazymatch type of Hrun with
         | mbind _ _ = _ => fail
         | _ => step_run Hrun
         end.
  apply bind_Some in Hrun as (prepared & Hprep & Hrun).
  assert (Hp : match prepared with
               | Continue (_, m0) =>
                   K_ptr m0 = K_ptr m ∧ bound_states m0 = bound_states m
                   ∧ normconsts_or_residues m0 = normconsts_or_residues m
               | Return rc _ => rc ≠ SUCCESS
               end).
  { repeat step_run Hprep; injection Hprep as <-;
      rewrite ?K_ptr_opts_update, ?bound_states_opts_update,
              ?normconsts_opts_update; done. }
  destruct prepared as [[reserve m0]|rc0 [reserve m0]]; [|congruence].
  destruct Hp as (HK0 & Hb0 & Hn0).
  repeat lazymatch type of Hrun with
         | mbind _ (fnft_nsev_slow_base _ _ _ _ _ _ _ _) = _ => fail
         | _ => step_run Hrun
         end.
  apply bind_Some in Hrun as ([rc1 m1] & Hbase & Hrun).
  destruct (decide (rc1 ≠ SUCCESS)) as [|Hrc1];
    [injection Hrun as Hrun _; unfold E_SUBROUTINE in Hrun; congruence|].
  assert (rc1 = SUCCESS) as -> by (by apply dec_stable).
  assert (Hno0 : kappa ≠ 1 ∨ bound_states m0 = None).
  { destruct Hno as [->|Hnone]; [left; lia | right; congruence]. }
  destruct (fnft_nsev_slow_base_no_discspec _ _ _ _ _ _ _ _ _ _ Hbase Hno0)
    as (Hb1 & Hn1 & _ & _ & _ & _ & _ & HK1).
  specialize (HK1 eq_refl). rewrite HK0 in HK1. specialize (HK1 HK).
  destruct (decide (richardson_extrapolation_flag (opts_deref m1) = 1)).
  - assert (Hno1 : kappa ≠ 1 ∨ bound_states m1 = None).
    { destruct Hno0 as [?|Hnone]; [by left | right; congruence]. }
    destruct (fnft_nsev_slow_richardson_no_discspec _ _ _ _ _ _ _ _ _ _ _ _ _ _
                Hrun Hno1) as (HK2 & Hb2 & Hn2).
    repeat split; congruence.
  - injection Hrun as <-. repeat split; congruence.
Qed.

(** ** The continuous spectrum *)

(** The reflection-coefficient loop over the first [n] grid points: it
    returns the division-by-zero code at the first [i] with
    [scatter_coeffs[4 i] == 0], and fills [contspec[0 .. n-1]] otherwise. *)
Lemma contspec_rho_prefix pf (sc : nat → COMPLEX) (xi cs : list COMPLEX) n :
  (n ≤ length xi)%nat → (n ≤ length cs)%nat →
  let body := λ (i : nat) (contspec : list COMPLEX),
       if Cis0 (sc (i * 4)%nat)
       then Some (Return E_DIV_BY_ZERO contspec)
       else
         x ← load xi i;
         contspec ← store contspec i
           (Cdiv (Cmul (sc (i * 4 + 2)%nat) (phase x pf)) (sc (i * 4)%nat));
         Some (Continue contspec) in
  ((∃ i, (i < n)%nat ∧ Cis0 (sc (i * 4)%nat) = true)
   ∧ ∃ cs', for_loop n 0 body cs = Some (Return E_DIV_BY_ZERO cs'))
  ∨ ((∀ i, (i < n)%nat → Cis0 (sc (i * 4)%nat) = false)
     ∧ ∃ cs', for_loop n 0 body cs = Some (Continue cs')
         ∧ length cs' = length cs
         ∧ (∀ i x, (i < n)%nat → xi !! i = Some x →
              cs' !! i = Some (Cdiv (Cmul (sc (i * 4 + 2)%nat) (phase x pf))
                                    (sc (i * 4)%nat)))
         ∧ (∀ j, (n ≤ j)%nat → cs' !! j = cs !! j)).
Proof.
  intros Hxi Hcs body. induction n as [|n IH].
  - right. split; [lia|]. exists cs. simpl. repeat split; auto; lia.
  - rewrite for_loop_snoc. change (0 + n)%nat with n.
    destruct IH as [[(i & Hi & Hz) (cs' & ->)]|(Hnz & cs' & -> & Hlen & Hval & Hrest)];
      [lia | lia | |].
    + left. split; [exists i; split; [lia | done] | eauto].
    + destruct (Cis0 (sc (n * 4)%nat)) eqn:Hn; subst body; cbv beta; rewrite Hn.
      * left. split; [exists n; split; [lia | done] | eauto].
      * right. split.
        { intros i Hi. destruct (decide (i = n)) as [->|]; [done | apply Hnz; lia]. }
        destruct (load_ok xi n) as [x Hx]; [lia|]. rewrite Hx.
        cbn [mbind option_bind].
        rewrite store_ok by lia. cbn [mbind option_bind].
        eexists. split; [reflexivity|]. split; [by rewrite length_insert|]. split.
        -- intros i y Hi Hy. destruct (decide (i = n)) as [->|].
           ++ rewrite list_lookup_insert_eq by lia.
              unfold load in Hx. congruence.
           ++ rewrite list_lookup_insert_ne by done. apply Hval; [lia | done].
        -- intros j Hj. rewrite list_lookup_insert_ne by lia. apply Hrest. lia.
Qed.

(** The loop of the raw coefficients fills [contspec[offset .. offset+M-1]]
    with [a] and [contspec[offset+M .. offset+2M-1]] with [b], and leaves the
    slots below [offset] as they are. *)
Lemma contspec_ab_spec M offset pa pb (sc : nat → COMPLEX) (xi cs : list COMPLEX) :
  length xi = Z.to_nat M → (offset + 2 * Z.to_nat M ≤ length cs)%nat →
  ∃ cs', contspec_ab M offset pa pb sc xi cs = Some (Continue cs')
    ∧ length cs' = length cs
    ∧ (∀ i x, xi !! i = Some x →
         cs' !! (offset + i)%nat = Some (Cmul (sc (i * 4)%nat) (phase x pa))
         ∧ cs' !! (offset + Z.to_nat M + i)%nat
           = Some (Cmul (sc (i * 4 + 2)%nat) (phase x pb)))
    ∧ (∀ j, (j < offset)%nat → cs' !! j = cs !! j).
Proof.
  intros Hxi Hcs. unfold contspec_ab.
  set (n := Z.to_nat M) in *.
  destruct (for_loop_invariant
    (λ k (c : list COMPLEX),
       length c = length cs
       ∧ (∀ i x, (i < k)%nat → xi !! i = Some x →
            c !! (offset + i)%nat = Some (Cmul (sc (i * 4)%nat) (phase x pa))
            ∧ c !! (offset + n + i)%nat
              = Some (Cmul (sc (i * 4 + 2)%nat) (phase x pb)))
       ∧ (∀ j, (j < offset)%nat → c !! j = cs !! j))
    (λ i contspec,
       x ← load xi i;
       contspec ← store contspec (offset + i)
         (Cmul (sc (i * 4)%nat) (phase x pa));
       contspec ← store contspec (offset + n + i)
         (Cmul (sc (i * 4 + 2)%nat) (phase x pb));
       Some (Continue contspec)) n 0%nat cs) as (cs' & Hl & Hlen & Hval & Hlow).
  - repeat split; auto; lia.
  - intros k c Hk (Hlen & Hval & Hlow).
    destruct (load_ok xi k) as [x Hx]; [lia|]. rewrite Hx.
    cbn [mbind option_bind].
    rewrite store_ok by lia. cbn [mbind option_bind].
    rewrite store_ok by (rewrite length_insert; lia). cbn [mbind option_bind].
    eexists. split; [reflexivity|]. split; [by rewrite !length_insert|]. split.
    + intros i y Hi Hy. destruct (decide (i = k)) as [->|].
      * unfold load in Hx. assert (y = x) as -> by congruence. split.
        -- rewrite list_lookup_insert_ne by lia.
           by rewrite list_lookup_insert_eq by lia.
        -- by rewrite list_lookup_insert_eq by (rewrite length_insert; lia).
      * assert (Hin : (i < n)%nat).
        { apply lookup_lt_Some in Hy. lia. }
        rewrite !list_lookup_insert_ne by lia. apply Hval; [lia | done].
    + intros j Hj. rewrite !list_lookup_insert_ne by lia. by apply Hlow.
  - exists cs'. split; [exact Hl|]. split; [done|]. split; [|done].
    intros i x Hx. apply Hval; [|done]. apply lookup_lt_Some in Hx. lia.
Qed.

(** C3.  [contspec_assemble] on a grid [xi] of [M] points, with
    [S11(xi[i]) = scatter_coeffs[4 i]] and [S21(xi[i]) = scatter_coeffs[4 i + 2]].
    When the reflection coefficient is requested (alone or with the raw
    coefficients), the call returns the division-by-zero code if and only
    if [S11(xi[i]) == 0] at some grid point, and otherwise
    [contspec[i] = S21 * exp(I xi[i] phi_rho) / S11] with
    [phi_rho = -2 (T[1] + eps_t boundary_coeff)].  When the raw coefficients
    are requested, [a = S11 * exp(I xi[i] phi_a)] and
    [b = S21 * exp(I xi[i] phi_b)] are stored in the next two blocks of [M]
    slots, with [phi_a = (T[1] + eps_t boundary_coeff) - (T[0] - eps_t
    boundary_coeff)] and [phi_b = -(T[1] + eps_t boundary_coeff) - (T[0] -
    eps_t boundary_coeff)]; this never divides. *)
Theorem contspec_assemble_spec M T eps_t boundary_coeff contspec_type
    (scatter_coeffs : nat → COMPLEX) (xi cs : list COMPLEX) :
  let edge_1 := Radd (snd T) (Rmul eps_t boundary_coeff) in
  let edge_0 := Rsub (fst T) (Rmul eps_t boundary_coeff) in
  let phi_rho := Rmul (Ropp (RofQ 2.0)) edge_1 in
  let phi_a := Rsub edge_1 edge_0 in
  let phi_b := Rsub (Ropp edge_1) edge_0 in
  let S11 (i : nat) := scatter_coeffs (i * 4)%nat in
  let S21 (i : nat) := scatter_coeffs (i * 4 + 2)%nat in
  let rho_requested := contspec_type = nsev_cstype_REFLECTION_COEFFICIENT
                       ∨ contspec_type = nsev_cstype_BOTH in
  let ab_requested := contspec_type = nsev_cstype_AB
                      ∨ contspec_type = nsev_cstype_BOTH in
  let offset := if decide (contspec_type = nsev_cstype_BOTH)
                then Z.to_nat M else 0%nat in
  let blocks := match contspec_type with
                | nsev_cstype_REFLECTION_COEFFICIENT => 1%nat
                | nsev_cstype_AB => 2%nat
                | _ => 3%nat
                end in
  let run := contspec_assemble M T eps_t boundary_coeff contspec_type
                               scatter_coeffs xi cs in
  rho_requested ∨ ab_requested →
  length xi = Z.to_nat M →
  (blocks * Z.to_nat M ≤ length cs)%nat →
  ((∃ cs', run = Some (Return E_DIV_BY_ZERO cs'))
   ↔ rho_requested ∧ ∃ i, (i < Z.to_nat M)%nat ∧ Cis0 (S11 i) = true)
  ∧ ((rho_requested → ∀ i, (i < Z.to_nat M)%nat → Cis0 (S11 i) = false) →
     ∃ cs', run = Some (Continue cs')
       ∧ (rho_requested → ∀ i lam, xi !! i = Some lam →
            cs' !! i = Some (Cdiv (Cmul (S21 i) (CEXP (Cscale phi_rho (Cmul I lam))))
                                  (S11 i)))
       ∧ (ab_requested → ∀ i lam, xi !! i = Some lam →
            cs' !! (offset + i)%nat
              = Some (Cmul (S11 i) (CEXP (Cscale phi_a (Cmul I lam))))
            ∧ cs' !! (offset + Z.to_nat M + i)%nat
              = Some (Cmul (S21 i) (CEXP (Cscale phi_b (Cmul I lam)))))).
Proof.
  intros edge_1 edge_0 phi_rho phi_a phi_b S11 S21 rho_requested ab_requested
         offset blocks run Hreq Hxi Hcs.
  assert (Hrho : ∀ c : list COMPLEX, (Z.to_nat M ≤ length c)%nat →
    ((∃ i, (i < Z.to_nat M)%nat ∧ Cis0 (S11 i) = true)
     ∧ ∃ cs', contspec_rho M phi_rho scatter_coeffs xi c
              = Some (Return E_DIV_BY_ZERO cs'))
    ∨ ((∀ i, (i < Z.to_nat M)%nat → Cis0 (S11 i) = false)
       ∧ ∃ cs', contspec_rho M phi_rho scatter_coeffs xi c = Some (Continue cs')
           ∧ length cs' = length c
           ∧ (∀ i x, (i < Z.to_nat M)%nat → xi !! i = Some x →
                cs' !! i = Some (Cdiv (Cmul (S21 i) (phase x phi_rho)) (S11 i)))
           ∧ (∀ j, (Z.to_nat M ≤ j)%nat → cs' !! j = c !! j))).
  { intros c Hc. apply contspec_rho_prefix; lia. }
  assert (Hlt : ∀ i (lam : COMPLEX), xi !! i = Some lam → (i < Z.to_nat M)%nat).
  { intros i lam Hl. apply lookup_lt_Some in Hl. lia. }
  subst run. unfold contspec_assemble.
  fold edge_1 edge_0. fold phi_rho phi_a phi_b.
  destruct contspec_type; subst rho_requested ab_requested offset blocks; simpl in *.
  - (* reflection coefficient *)
    destruct (Hrho cs) as [[Hz (cs' & Hrun)]|(Hnz & cs' & Hrun & _ & Hval & _)];
      [lia | |]; rewrite Hrun.
    + split; [split; [intros _; split; [by left | done] | eauto]|].
      intros Hall. destruct Hz as (i & Hi & Hz). rewrite Hall in Hz; [done | by left | done].
    + split.
      * split; [intros [? [=]]|]. intros [_ (i & Hi & Hz)]. rewrite Hnz in Hz; done.
      * intros _. exists cs'. split; [done|]. split.
        -- intros _ i lam Hl. apply Hval; [by eapply Hlt | done].
        -- intros [[=]|[=]].
  - (* raw coefficients *)
    destruct (contspec_ab_spec M 0 phi_a phi_b scatter_coeffs xi cs)
      as (cs' & Hrun & _ & Hval & _); [done | lia |].
    rewrite Hrun. split.
    + split; [intros [? [=]] | intros [[[=]|[=]] _]].
    + intros _. exists cs'. split; [done|]. split; [intros [[=]|[=]]|].
      intros _ i lam Hl. by apply Hval.
  - (* both *)
    destruct (Hrho cs) as [[Hz (cs' & Hrun)]|(Hnz & cs' & Hrun & Hlen & Hval & _)];
      [lia | |]; rewrite Hrun; simpl.
    + split; [split; [intros _; split; [by right | done] | eauto]|].
      intros Hall. destruct Hz as (i & Hi & Hz). rewrite Hall in Hz; [done | by right | done].
    + destruct (contspec_ab_spec M (Z.to_nat M) phi_a phi_b scatter_coeffs xi cs')
        as (cs'' & Hrun' & _ & Hval' & Hlow); [done | lia |].
      rewrite Hrun'. split.
      * split; [intros [? [=]]|]. intros [_ (i & Hi & Hz)]. rewrite Hnz in Hz; done.
      * intros _. exists cs''. split; [done|]. split.
        -- intros _ i lam Hl. rewrite Hlow by (by eapply Hlt).
           apply Hval; [by eapply Hlt | done].
        -- intros _ i lam Hl. by apply Hval'.
  - destruct Hreq as [[[=]|[=]]|[[=]|[=]]].
Qed.

(** ** The Richardson step on the continuous spectrum *)





(** ** Norming constants and residues *)

Lemma write_block_ok (buf : list COMPLEX) n f :
  (n ≤ length buf)%nat →
  ∃ buf', write_block buf n f = Some buf'
    ∧ length buf' = length buf
    ∧ (∀ i, (i < n)%nat → buf' !! i = Some (f i))
    ∧ (∀ j, (n ≤ j)%nat → buf' !! j = buf !! j).
Proof.
  intros Hn. unfold write_block. rewrite decide_True by done.
  eexists. split; [reflexivity|].
  assert (Hlen : length (f <$> seq 0 n) = n)
    by (by rewrite length_fmap, length_seq).
  split; [|split].
  - rewrite length_app, Hlen, length_drop. lia.
  - intros i Hi. rewrite lookup_app_l by lia.
    rewrite list_lookup_fmap, lookup_seq_lt by done. done.
  - intros j Hj. rewrite lookup_app_r by lia. rewrite Hlen, lookup_drop.
    f_equal. lia.
Qed.

(** [memcpy(ncr + K, ncr, K*sizeof(COMPLEX))]. *)
Lemma memcpy_within_second_block (a : list COMPLEX) k :
  (2 * k ≤ length a)%nat →
  ∃ a', memcpy_within a k 0 k = Some a'
    ∧ length a' = length a
    ∧ (∀ i, (i < k)%nat → a' !! i = a !! i)
    ∧ (∀ i, (i < k)%nat → a' !! (k + i)%nat = a !! i).
Proof.
  intros Hk. unfold memcpy_within. rewrite decide_True by lia.
  eexists. split; [reflexivity|]. rewrite drop_0.
  assert (Hlen : length (take k a) = k) by (rewrite length_take; lia).
  split; [|split].
  - rewrite !length_app, Hlen, length_drop. lia.
  - intros i Hi. rewrite lookup_app_l by lia. by rewrite lookup_take_lt.
  - intros i Hi. rewrite lookup_app_r by lia. rewrite Hlen.
    replace (k + i - k)%nat with i by lia.
    rewrite lookup_app_l by lia. by rewrite lookup_take_lt.
Qed.

(** The loop that divides by the derivatives, on the first [n] bound
    states. *)
Lemma residue_loop_prefix (aprime_vals : nat → COMPLEX) offset (c : list COMPLEX) n :
  (offset + n ≤ length c)%nat →
  let body := λ (i : nat) (ncr : list COMPLEX),
       if Cis0 (aprime_vals i) then Some (Return E_DIV_BY_ZERO ncr)
       else
         x ← load ncr (offset + i);
         ncr ← store ncr (offset + i) (Cdiv x (aprime_vals i));
         Some (Continue ncr) in
  ((∃ i, (i < n)%nat ∧ Cis0 (aprime_vals i) = true)
   ∧ ∃ c', for_loop n 0 body c = Some (Return E_DIV_BY_ZERO c'))
  ∨ ((∀ i, (i < n)%nat → Cis0 (aprime_vals i) = false)
     ∧ ∃ c', for_loop n 0 body c = Some (Continue c')
         ∧ length c' = length c
         ∧ (∀ i x, (i < n)%nat → c !! (offset + i)%nat = Some x →
              c' !! (offset + i)%nat = Some (Cdiv x (aprime_vals i)))
         ∧ (∀ j, (j < offset ∨ offset + n ≤ j)%nat → c' !! j = c !! j)).
Proof.
  intros Hc body. induction n as [|n IH].
  - right. split; [lia|]. exists c. simpl. repeat split; auto; lia.
  - rewrite for_loop_snoc. change (0 + n)%nat with n.
    destruct IH as [[(i & Hi & Hz) (c' & ->)]|(Hnz & c' & -> & Hlen & Hval & Hrest)];
      [lia | |].
    + left. split; [exists i; split; [lia | done] | eauto].
    + destruct (Cis0 (aprime_vals n)) eqn:Hn; subst body; cbv beta; rewrite Hn.
      * left. split; [exists n; split; [lia | done] | eauto].
      * right. split.
        { intros i Hi. destruct (decide (i = n)) as [->|]; [done | apply Hnz; lia]. }
        destruct (load_ok c' (offset + n)) as [x Hx]; [lia|]. rewrite Hx.
        cbn [mbind option_bind].
        rewrite store_ok by lia. cbn [mbind option_bind].
        eexists. split; [reflexivity|]. split; [by rewrite length_insert|]. split.
        -- intros i y Hi Hy. destruct (decide (i = n)) as [->|].
           ++ rewrite list_lookup_insert_eq by lia.
              unfold load in Hx. rewrite Hrest in Hx by lia. congruence.
           ++ rewrite list_lookup_insert_ne by lia. apply Hval; [lia | done].
        -- intros j Hj. rewrite list_lookup_insert_ne by lia. apply Hrest. lia.
Qed.

(** C5.  [compute_normconsts_or_residues] on [K] bound states, where the
    engine succeeds and returns the derivatives [aprime_vals] and the
    norming constants [b_vals].  When residues are requested (alone or
    with the norming constants), the call returns the division-by-zero code
    if and only if [aprime_vals[i] == 0] for some [i < K]; otherwise the
    residue of bound state [i] is [b_vals[i] / aprime_vals[i]], stored in
    slot [i], or, for the output kind "both", in slot [K + i] after the [K]
    norming constants of slots [0 .. K-1]. *)
Theorem compute_normconsts_or_residues_spec D q r T K
    (bound_states ncr : list COMPLEX) (o : fnft_nsev_slow_opts_t)
    (a_vals aprime_vals b_vals : nat → COMPLEX) :
  let k := Z.to_nat K in
  let offset := if decide (discspec_type o = nsev_dstype_BOTH) then k else 0%nat in
  let run := compute_normconsts_or_residues D (Some q) r T K bound_states ncr o in
  0 < K → D ≠ 0 → malloc_ok K = true →
  (k ≤ length bound_states)%nat →
  nse_scatter_bound_states D q r T K (take k bound_states) (discretization o) 0
    = (SUCCESS, a_vals, aprime_vals, b_vals) →
  discspec_type o = nsev_dstype_RESIDUES ∨ discspec_type o = nsev_dstype_BOTH →
  (offset + k ≤ length ncr)%nat →
  ((∃ ncr', run = Some (E_DIV_BY_ZERO, ncr'))
   ↔ ∃ i, (i < k)%nat ∧ Cis0 (aprime_vals i) = true)
  ∧ ((∀ i, (i < k)%nat → Cis0 (aprime_vals i) = false) →
     ∃ ncr', run = Some (SUCCESS, ncr')
       ∧ length ncr' = length ncr
       ∧ (∀ i, (i < k)%nat →
            ncr' !! (offset + i)%nat = Some (Cdiv (b_vals i) (aprime_vals i)))
       ∧ (discspec_type o = nsev_dstype_BOTH →
            ∀ i, (i < k)%nat → ncr' !! i = Some (b_vals i))).
Proof.
  intros k offset run HK HD Hm Hbs Heng Hkind Hlen.
  subst run. unfold compute_normconsts_or_residues.
  rewrite decide_False by lia. rewrite decide_False by done.
  unfold malloc_block. rewrite Hm.
  fold k. rewrite Heng.
  rewrite (option_guard_True (k ≤ length bound_states)%nat) by exact Hbs.
  cbn [mbind option_bind].
  destruct (write_block_ok ncr k b_vals) as (ncr1 & -> & Hlen1 & Hb1 & _);
    [subst offset; case_decide; lia|]. cbn [mbind option_bind].
  rewrite decide_False by (intros Hne; by apply Hne).
  assert (Hprep : ∃ ncr2,
    (match discspec_type o with
     | nsev_dstype_RESIDUES => Some (inr (0%nat, ncr1))
     | nsev_dstype_BOTH =>
         ncr ← memcpy_within ncr1 k 0 k; Some (inr (k, ncr))
     | _ => Some (inl (E_INVALID_ARGUMENT, ncr1))
     end : option (INT * list COMPLEX + nat * list COMPLEX))
    = Some (inr (offset, ncr2))
    ∧ length ncr2 = length ncr
    ∧ (∀ i, (i < k)%nat → ncr2 !! (offset + i)%nat = Some (b_vals i))
    ∧ (discspec_type o = nsev_dstype_BOTH →
         ∀ i, (i < k)%nat → ncr2 !! i = Some (b_vals i))).
  { subst offset. destruct Hkind as [Hr|Hb]; rewrite ?Hr, ?Hb in *; simpl in *.
    - exists ncr1. repeat split; [done | by apply Hb1 | done].
    - destruct (memcpy_within_second_block ncr1 k) as (ncr2 & -> & Hl2 & Hlo & Hhi);
        [lia|]. simpl.
      exists ncr2. split; [done|]. split; [congruence|]. split.
      + intros i Hi. rewrite Hhi by done. by apply Hb1.
      + intros _ i Hi. rewrite Hlo by done. by apply Hb1. }
  destruct Hprep as (ncr2 & Hprep & Hlen2 & Hres & Hnorm).
  rewrite decide_True by (destruct Hkind; congruence).
  rewrite Hprep. simpl.
  destruct (residue_loop_prefix aprime_vals offset ncr2 k)
    as [[Hz (c' & Hrun)]|(Hnz & c' & Hrun & Hlen' & Hval & Hrest)];
    [lia | |]; rewrite Hrun; simpl.
  - split; [split; [done | eauto]|].
    intros Hall. destruct Hz as (i & Hi & Hz). rewrite Hall in Hz; done.
  - split.
    + split; [intros [? [=]]|]. intros (i & Hi & Hz). rewrite Hnz in Hz; done.
    + intros _. exists c'. split; [done|]. split; [congruence|]. split.
      * intros i Hi. apply Hval; [done | by apply Hres].
      * intros Hboth i Hi. rewrite Hrest.
        -- by apply Hnorm.
        -- left. subst offset. rewrite decide_True by done. lia.
Qed.

(** ** The resampler *)

Lemma malloc_block_ok n :
  malloc_ok n = true →
  ∃ blk, malloc n = Some blk ∧ length blk = Z.to_nat n.
Proof.
  intros Hm. unfold malloc_block. rewrite Hm. eexists. split; [reflexivity|].
  by rewrite length_fmap, length_seq.
Qed.

(** The loop of [case nse_discretization_BO]. *)
Lemma resample_BO_spec (q : list COMPLEX) kappa D_effective nskip_per_step
    (q_effective r_effective : list COMPLEX) :
  let n := Z.to_nat D_effective in
  let nskip := Z.to_nat nskip_per_step in
  length q_effective = n → length r_effective = n →
  (∀ i, (i < n)%nat → (i * nskip < length q)%nat) →
  ∃ qe re,
    resample_BO q kappa D_effective nskip_per_step q_effective r_effective
      = Some (Continue (qe, re))
    ∧ length qe = n ∧ length re = n
    ∧ ∀ i, (i < n)%nat →
        ∃ x, q !! (i * nskip)%nat = Some x
             ∧ qe !! i = Some x
             ∧ re !! i = Some (Cscale (RofZ (- kappa)) (CONJ x)).
Proof.
  intros n nskip Hqe Hre Hin. unfold resample_BO. fold n nskip.
  destruct (for_loop_invariant
    (λ k (s : list COMPLEX * list COMPLEX),
       length s.1 = n ∧ length s.2 = n
       ∧ ∀ i, (i < k)%nat →
           ∃ x, q !! (i * nskip)%nat = Some x
                ∧ s.1 !! i = Some x
                ∧ s.2 !! i = Some (Cscale (RofZ (- kappa)) (CONJ x)))
    (λ isub '(qe, re),
       x ← load q (isub * nskip);
       qe ← store qe isub x;
       re ← store re isub (cofield kappa x);
       Some (Continue (qe, re))) n 0%nat (q_effective, r_effective))
    as ([qe re] & Hl & Hlq & Hlr & Hval).
  - simpl. repeat split; auto. intros; lia.
  - intros k [qe re] Hk (Hlq & Hlr & Hval). simpl in Hlq, Hlr.
    destruct (load_ok q (k * nskip)) as [x Hx]; [apply Hin; lia|].
    rewrite Hx. cbn [mbind option_bind].
    rewrite store_ok by lia. cbn [mbind option_bind].
    rewrite store_ok by lia. cbn [mbind option_bind].
    eexists. split; [reflexivity|]. simpl.
    split; [by rewrite length_insert|]. split; [by rewrite length_insert|].
    intros i Hi. destruct (decide (i = k)) as [->|].
    + exists x. rewrite !list_lookup_insert_eq by lia. done.
    + rewrite !list_lookup_insert_ne by lia. apply Hval. lia.
  - exists qe, re. split; [exact Hl|]. simpl in *. repeat split; auto.
Qed.

(** C6.  The resampler on a signal of [D >= 2] samples with the direct (BO)
    scheme.  The requested count is clamped to [[2, D]], the stride is
    [nskip = ROUND(D / Dsub)], the achieved count is [Dsub' = ROUND(D /
    nskip)]; the call succeeds and the effective signal has [Dsub'] samples,
    [q_eff[i] = q[i nskip]] and [r_eff[i] = -kappa conj(q_eff[i])]. *)
Theorem signal_effective_from_signal_BO D (q : list COMPLEX) eps_t kappa Dsub
    q_effective0 r_effective0 first_last_index0 :
  let Dsub_clamped :=
    let d := if decide (Dsub < 2) then 2 else Dsub in
    if decide (d > D) then D else d in
  let nskip := UINTofR (ROUND (Rdiv (RofZ D) (RofZ Dsub_clamped))) in
  let Dsub' := UINTofR (ROUND (Rdiv (RofZ D) (RofZ nskip))) in
  let run :=
    signal_effective_from_signal D (Some q) eps_t kappa
      (mk_cells (Some Dsub) (Some q_effective0) (Some r_effective0)
                (Some first_last_index0))
      nse_discretization_BO in
  2 ≤ D →
  nse_discretization_D_scale nse_discretization_BO = 1 →
  Rleb eps_t (RofQ 0.0) = false →
  Z.abs kappa = 1 →
  0 ≤ Dsub' < UINT_MODULUS →
  malloc_ok Dsub' = true →
  (∀ i, (i < Z.to_nat Dsub')%nat → (i * Z.to_nat nskip < length q)%nat) →
  2 ≤ Dsub_clamped ≤ D
  ∧ ∃ q_eff r_eff,
      run = Some (SUCCESS,
                  mk_cells (Some Dsub') (Some (Some q_eff)) (Some (Some r_eff))
                           (Some (0, umul (usub Dsub' 1) nskip)))
      ∧ length q_eff = Z.to_nat Dsub'
      ∧ length r_eff = Z.to_nat Dsub'
      ∧ ∀ i, (i < Z.to_nat Dsub')%nat →
          ∃ x, q !! (i * Z.to_nat nskip)%nat = Some x
               ∧ q_eff !! i = Some x
               ∧ r_eff !! i = Some (Cscale (RofZ (- kappa)) (CONJ x)).
Proof.
  intros Dsub_clamped nskip Dsub' run HD Hscale Heps Hk Hrange Hm Hin.
  split.
  { subst Dsub_clamped. cbv zeta. repeat case_decide; lia. }
  subst run. unfold signal_effective_from_signal. simpl.
  rewrite decide_False by lia. rewrite Heps.
  rewrite decide_False by (intros Hne; by apply Hne).
  fold Dsub_clamped. fold nskip. fold Dsub'.
  rewrite Hscale. rewrite decide_False by done.
  assert (Heff : umul Dsub' 1 = Dsub').
  { unfold umul. rewrite Z.mul_1_r. apply Z.mod_small. exact Hrange. }
  rewrite Heff.
  destruct (malloc_block_ok Dsub' Hm) as (blk & Hblk & Hlen).
  rewrite Hblk.
  destruct (resample_BO_spec q kappa Dsub' nskip blk blk Hlen Hlen Hin)
    as (qe & re & Hrun & Hlq & Hlr & Hval).
  rewrite Hrun. simpl. exists qe, re. repeat split; auto.
Qed.

(** ** Which discretizations are accepted *)

(** A body made of loads and stores does not return. *)
Ltac body_goes_on H :=
  repeat (apply bind_Some in H as (? & ? & H));
  discriminate H.

Lemma for_loop_goes_on {S : Type} (body : nat → S → option (flow S)) n i s r :
  (∀ k t rc t', body k t ≠ Some (Return rc t')) →
  for_loop n i body s = Some r → ∃ s', r = Continue s'.
Proof.
  intros Hbody Hl. destruct r as [s'|rc s']; [eauto|].
  apply for_loop_return in Hl as (k & t & _ & Hb). by apply Hbody in Hb.
Qed.

Lemma resample_shifted_accepts D q eps_t kappa d1 d3 r :
  (∀ n, malloc_ok n = true) →
  (∀ D' e q' delta, (misc_resample D' e q' delta).1 = SUCCESS) →
  resample_shifted D q eps_t kappa d1 d3 = Some r → ∃ v, r = inr v.
Proof.
  intros Hm Hr Hrun. unfold resample_shifted, malloc_block in Hrun.
  rewrite Hm in Hrun.
  pose proof (Hr D eps_t q d1) as H1. pose proof (Hr D eps_t q d3) as H3.
  destruct (misc_resample D eps_t q d1) as [rc1 v1].
  destruct (misc_resample D eps_t q d3) as [rc3 v3].
  simpl in H1, H3. subst.
  rewrite decide_False in Hrun by (intros Hne; by apply Hne).
  apply bind_Some in Hrun as (? & _ & Hrun).
  rewrite decide_False in Hrun by (intros Hne; by apply Hne).
  repeat (apply bind_Some in Hrun as (? & _ & Hrun)).
  injection Hrun as <-. eauto.
Qed.

(** With every allocation granted and [misc_resample] succeeding, the
    resampler never returns an error code for one of the six schemes below:
    a run that is defined is a success. *)
Lemma resampler_accepts D q eps_t kappa cells d rc cells' :
  d ∈ [nse_discretization_CF4_2; nse_discretization_CF4_3;
       nse_discretization_CF5_3; nse_discretization_CF6_4;
       nse_discretization_ES4; nse_discretization_TES4] →
  nse_discretization_D_scale d ≠ 0 →
  (∀ n, malloc_ok n = true) →
  (∀ D' e q' delta, (misc_resample D' e q' delta).1 = SUCCESS) →
  2 ≤ D → q ≠ None →
  Dsub_ptr cells ≠ None → q_effective_ptr cells ≠ None →
  r_effective_ptr cells ≠ None → first_last_index cells ≠ None →
  Rleb eps_t (RofQ 0.0) = false → Z.abs kappa = 1 →
  signal_effective_from_signal D q eps_t kappa cells d = Some (rc, cells') →
  rc = SUCCESS.
Proof.
  intros Hd Hscale Hm Hr HD Hq H1 H2 H3 H4 Heps Hk Hrun.
  unfold signal_effective_from_signal in Hrun.
  rewrite decide_False in Hrun by lia.
  destruct q as [q|]; [|done].
  destruct (Dsub_ptr cells) as [Dsub|]; [|done].
  destruct (q_effective_ptr cells); [|done].
  destruct (r_effective_ptr cells); [|done].
  rewrite Heps in Hrun.
  rewrite decide_False in Hrun by (intros Hne; by apply Hne).
  destruct (first_last_index cells); [|done].
  rewrite decide_False in Hrun by done.
  unfold malloc_block in Hrun. rewrite Hm in Hrun.
  apply bind_Some in Hrun as (filled & Hfill & Hrun).
  assert (∃ s, filled = Continue s) as [[qe re] ->].
  { rewrite !elem_of_cons, elem_of_nil in Hd.
    destruct Hd as [->|[->|[->|[->|[->|[->|[]]]]]]].
    - (* CF4_2 *)
      unfold resample_CF4_2, malloc_block in Hfill. rewrite Hm in Hfill.
      repeat match type of Hfill with
             | context [misc_resample ?a ?b ?c ?e] =>
                 let E := fresh in
                 pose proof (Hr a b c e) as E;
                 destruct (misc_resample a b c e); simpl in E; subst
             end.
      rewrite decide_False in Hfill by (intros Hne; by apply Hne).
      apply bind_Some in Hfill as (? & _ & Hfill).
      rewrite decide_False in Hfill by (intros Hne; by apply Hne).
      apply bind_Some in Hfill as (? & _ & Hfill).
      eapply for_loop_goes_on; [|exact Hfill].
      intros k [a b] rc0 t' Hb. body_goes_on Hb.
    - (* CF4_3 *)
      unfold resample_CF4_3, malloc_block in Hfill. rewrite Hm in Hfill.
      repeat match type of Hfill with
             | context [misc_resample ?a ?b ?c ?e] =>
                 let E := fresh in
                 pose proof (Hr a b c e) as E;
                 destruct (misc_resample a b c e); simpl in E; subst
             end.
      rewrite decide_False in Hfill by (intros Hne; by apply Hne).
      apply bind_Some in Hfill as (? & _ & Hfill).
      rewrite decide_False in Hfill by (intros Hne; by apply Hne).
      apply bind_Some in Hfill as (? & _ & Hfill).
      eapply for_loop_goes_on; [|exact Hfill].
      intros k [a b] rc0 t' Hb. body_goes_on Hb.
    - (* CF5_3 *)
      unfold resample_CF5_3 in Hfill.
      apply bind_Some in Hfill as (s & Hs & Hfill).
      apply resample_shifted_accepts in Hs as [[[[[q1 q3] r1] r2] r3] ->];
        [|done|done].
      eapply for_loop_goes_on; [|exact Hfill].
      intros k [a b] rc0 t' Hb. body_goes_on Hb.
    - (* CF6_4 *)
      unfold resample_CF6_4 in Hfill.
      apply bind_Some in Hfill as (s & Hs & Hfill).
      apply resample_shifted_accepts in Hs as [[[[[q1 q3] r1] r2] r3] ->];
        [|done|done].
      eapply for_loop_goes_on; [|exact Hfill].
      intros k [a b] rc0 t' Hb. body_goes_on Hb.
    - (* ES4 *)
      unfold resample_ES4 in Hfill.
      repeat (apply bind_Some in Hfill as (? & _ & Hfill)).
      injection Hfill as <-. eauto.
    - (* TES4 *)
      unfold resample_ES4 in Hfill.
      repeat (apply bind_Some in Hfill as (? & _ & Hfill)).
      injection Hfill as <-. eauto. }
  by injection Hrun as <- _.
Qed.

(** C8.  The entry point [nse_scatter_matrix] of
    private/fnft__nse_scatter_matrix.c returns the invalid-argument code for
    every discretization other than BO, whatever the other arguments are,
    and leaves [result] as it is; the resampler accepts CF4_2, CF4_3,
    CF5_3, CF6_4, ES4 and TES4: with a non-zero scale in the descriptor,
    every allocation granted and [misc_resample] succeeding, a run of the
    resampler on valid arguments that is defined returns the success code. *)
Theorem nse_scatter_matrix_accepts_BO_only
    (akns_scatter_matrix :
       Z → list COMPLEX → list COMPLEX → REAL → Z → list COMPLEX →
       list COMPLEX → akns_discretization_t → INT * list COMPLEX) :
  (∀ d D q eps_t kappa K lambda result,
     d ≠ nse_discretization_BO →
     NseScatterMatrix.nse_scatter_matrix malloc_ok uninit akns_scatter_matrix
       D q eps_t kappa K lambda result d
     = Some (E_INVALID_ARGUMENT, result))
  ∧ (∀ d D q eps_t kappa cells rc cells',
       d ∈ [nse_discretization_CF4_2; nse_discretization_CF4_3;
            nse_discretization_CF5_3; nse_discretization_CF6_4;
            nse_discretization_ES4; nse_discretization_TES4] →
       nse_discretization_D_scale d ≠ 0 →
       (∀ n, malloc_ok n = true) →
       (∀ D' e q' delta, (misc_resample D' e q' delta).1 = SUCCESS) →
       2 ≤ D → q ≠ None →
       Dsub_ptr cells ≠ None → q_effective_ptr cells ≠ None →
       r_effective_ptr cells ≠ None → first_last_index cells ≠ None →
       Rleb eps_t (RofQ 0.0) = false → Z.abs kappa = 1 →
       signal_effective_from_signal D q eps_t kappa cells d = Some (rc, cells') →
       rc = SUCCESS).
Proof.
  split.
  - intros d D q eps_t kappa K lambda result Hd.
    unfold NseScatterMatrix.nse_scatter_matrix.
    destruct (decide (D = 0)); [done|].
    destruct q; [|done].
    destruct (negb _); [done|].
    destruct (decide (Z.abs kappa ≠ 1)); [done|].
    destruct (Rleb _ _); [done|].
    destruct lambda, result; try done.
    by destruct d.
  - intros. by eapply resampler_accepts.
Qed.

(** ** The Richardson step on the bound states *)



(** ** Newton refinement of the bound states *)

Section Newton.
Variables (D : Z) (q : list COMPLEX) (r : option (list COMPLEX)) (T : REAL * REAL).
Variables (discretization : nse_discretization_t) (niter : Z).
Variables (im_bound_val re_bound_val : REAL).

Local Abbreviation update := (newton_update D q r T discretization).
Local Abbreviation error := (newton_error D q r T discretization).
Local Abbreviation outside := (out_of_region im_bound_val re_bound_val).
Local Abbreviation do_while :=
  (newton_do_while D q r T discretization niter im_bound_val re_bound_val).

(** The loop of one root never returns the success code from inside. *)
Lemma newton_do_while_return fuel iter lam rc lam' :
  do_while fuel iter lam = Return rc lam' → rc ≠ SUCCESS.
Proof.
  revert iter lam. induction fuel as [|fuel IH]; intros iter lam; simpl; [done|].
  destruct (scatter_at D q r T discretization lam) as [[ret a] a'].
  destruct (decide (ret ≠ SUCCESS)) as [Hne|]; [by intros [= <- _]|].
  destruct (Cis0 a'); [by intros [= <- _]|].
  destruct (outside _); [done|].
  destruct (_ && _); [apply IH | done].
Qed.

(** When the loop of one root is left, [bound_states[i]] holds the [n]-th
    Newton iterate of the value it held at the entry, for some [n >= 1];
    the iterates before the [n]-th were inside the region and not yet
    converged, and the [n]-th is outside the region, or converged, or the
    last one allowed by [niter]. *)
Lemma newton_do_while_continue fuel iter lam lam' :
  do_while fuel iter lam = Continue lam' →
  iter < niter → niter - iter ≤ Z.of_nat fuel →
  ∃ n : nat,
    (1 ≤ n)%nat ∧ iter + Z.of_nat n ≤ niter
    ∧ lam' = Nat.iter n update lam
    ∧ (∀ k, (1 ≤ k < n)%nat → outside (Nat.iter k update lam) = false)
    ∧ (outside lam' = true
       ∨ Rgtb (CABS (error (Nat.iter (n - 1) update lam)))
              (Rmul EPSILON (RofZ 100)) = false
       ∨ iter + Z.of_nat n = niter).
Proof.
  revert iter lam. induction fuel as [|fuel IH]; intros iter lam; [lia|].
  simpl. destruct (scatter_at D q r T discretization lam) as [[ret a] a'].
  destruct (decide (ret ≠ SUCCESS)) as [|Hret]; [done|].
  destruct (Cis0 a'); [done|].
  destruct (outside (update lam)) eqn:Hout.
  - intros [= <-] Hit Hfuel. exists 1%nat. simpl.
    repeat split; auto; try lia; try (intros; lia).
  - destruct (Rgtb (CABS (error lam)) (Rmul EPSILON (RofZ 100))) eqn:Herr;
      [destruct (bool_decide (iter + 1 < niter)) eqn:Hnext|]; simpl.
    + apply bool_decide_eq_true_1 in Hnext.
      intros Hrun Hit Hfuel.
      destruct (IH _ _ Hrun) as (n & Hn & Hle & -> & Hin & Hend); [lia | lia |].
      exists (Datatypes.S n). rewrite Nat.iter_succ_r.
      split; [lia|]. split; [lia|]. split; [done|]. split.
      * intros k Hk. destruct k as [|k]; [lia|]. rewrite Nat.iter_succ_r.
        destruct k as [|k]; [exact Hout|]. apply Hin. lia.
      * destruct Hend as [?|[Hconv|?]]; [by left| |right; right; lia].
        right; left. destruct n as [|n]; [lia|].
        replace (Datatypes.S (Datatypes.S n) - 1)%nat with (Datatypes.S n) by lia.
        rewrite Nat.iter_succ_r.
        replace (Datatypes.S n - 1)%nat with n in Hconv by lia. exact Hconv.
    + apply bool_decide_eq_false_1 in Hnext.
      intros [= <-] Hit Hfuel. exists 1%nat. simpl.
      repeat split; auto; try lia; try (intros; lia).
    + intros [= <-] Hit Hfuel. exists 1%nat. simpl.
      repeat split; auto; try lia; try (intros; lia).
Qed.

End Newton.

(** C1 (as amended).  After a successful refinement with [niter > 0], the
    value kept for every candidate is its [n]-th Newton iterate
    [lam <- lam - a(lam)/a'(lam)] for some [1 <= n <= niter]: every
    candidate is updated at least once, whether or not the guess is
    admissible, because the region is tested after the update.  The
    iterates before the [n]-th were inside the region; so the iteration
    stops at the first iterate that leaves the region, and the value kept is
    that iterate, the one outside the region.  The iteration ends because
    the kept iterate is outside the region, or the last update was not
    above the tolerance, or [n = niter]. *)
Theorem refine_roots_newton_keeps_updated_value D (q : list COMPLEX) r T K
    (bs bs' : list COMPLEX) discretization niter :
  let D_scale := nse_discretization_D_scale discretization in
  let eps_t := Rdiv (Rsub (snd T) (fst T)) (RofZ (usub (D / D_scale) 1)) in
  let im_bound_val := Rmul (RofZ (umul D_scale D_scale)) (im_bound D q T) in
  let re_bound_val := re_bound eps_t in
  let update := newton_update D q r T discretization in
  let error := newton_error D q r T discretization in
  let outside := out_of_region im_bound_val re_bound_val in
  0 < niter →
  refine_roots_newton D (Some q) r (Some T) K (Some bs) discretization niter
    = Some (SUCCESS, Some bs') →
  ∀ i lam, (i < Z.to_nat K)%nat → bs !! i = Some lam →
    ∃ n : nat,
      (1 ≤ n)%nat ∧ Z.of_nat n ≤ niter
      ∧ bs' !! i = Some (Nat.iter n update lam)
      ∧ (∀ k, (1 ≤ k < n)%nat → outside (Nat.iter k update lam) = false)
      ∧ (outside (Nat.iter n update lam) = true
         ∨ Rgtb (CABS (error (Nat.iter (n - 1) update lam)))
                (Rmul EPSILON (RofZ 100)) = false
         ∨ Z.of_nat n = niter).
Proof.
  intros D_scale eps_t im_bound_val re_bound_val update error outside Hniter Hrun.
  unfold refine_roots_newton in Hrun.
  destruct (decide (K = 0)) as [->|HK]; [intros i lam Hi; simpl in Hi; lia|].
  rewrite decide_False in Hrun by lia.
  fold D_scale in Hrun.
  destruct (decide (D_scale = 0)) as [|Hscale]; [done|].
  fold eps_t im_bound_val re_bound_val in Hrun.
  destruct (Reqb im_bound_val NAN); [done|].
  apply bind_Some in Hrun as (res & Hloop & Hrun).
  destruct res as [t|rc t].
  2:{ exfalso. injection Hrun as -> _.
      apply for_loop_return in Hloop as (k & u & _ & Hb).
      apply bind_Some in Hb as (lam0 & _ & Hb).
      destruct (newton_do_while _ _ _ _ _ _ _ _ _ _ _) as [l|rc l] eqn:Hdw;
        apply bind_Some in Hb as (? & _ & Hb); [done|].
      injection Hb as -> _. by apply newton_do_while_return in Hdw. }
  injection Hrun as ->.
  pose (P := λ (k : nat) (t : list COMPLEX),
    length t = length bs
    ∧ (∀ j, (k ≤ j)%nat → t !! j = bs !! j)
    ∧ ∀ i lam, (i < k)%nat → bs !! i = Some lam →
        ∃ n : nat,
          (1 ≤ n)%nat ∧ Z.of_nat n ≤ niter
          ∧ t !! i = Some (Nat.iter n update lam)
          ∧ (∀ k, (1 ≤ k < n)%nat → outside (Nat.iter k update lam) = false)
          ∧ (outside (Nat.iter n update lam) = true
             ∨ Rgtb (CABS (error (Nat.iter (n - 1) update lam)))
                    (Rmul EPSILON (RofZ 100)) = false
             ∨ Z.of_nat n = niter)).
  assert (HP : P (0 + Z.to_nat K)%nat bs').
  { eapply (for_loop_continue_inv P); [exact Hloop | |].
    - repeat split; auto. intros; lia.
    - intros k u u' Hk (Hlen & Hrest & Hdone) Hb.
      apply bind_Some in Hb as (lam0 & Hl0 & Hb).
      destruct (newton_do_while _ _ _ _ _ _ _ _ _ _ _) as [l|rc l] eqn:Hdw;
        apply bind_Some in Hb as (u1 & Hst & Hb); [|done].
      injection Hb as <-. apply store_Some in Hst as [Hin ->].
      split; [by rewrite length_insert|]. split.
      + intros j Hj. rewrite list_lookup_insert_ne by lia. apply Hrest. lia.
      + intros i lam Hi Hlam. destruct (decide (i = k)) as [->|].
        * rewrite list_lookup_insert_eq by lia.
          unfold load in Hl0. rewrite Hrest in Hl0 by lia.
          assert (lam0 = lam) as -> by congruence.
          apply newton_do_while_continue in Hdw
            as (n & Hn & Hle & -> & Hins & Hend); [|lia|lia].
          exists n. repeat split; auto; lia.
        * rewrite list_lookup_insert_ne by lia. apply Hdone; [lia | done]. }
  destruct HP as (_ & _ & HP). intros i lam Hi Hlam. apply HP; [lia | done].
Qed.

(** ** More on the resampler *)

(** X1.  [signal_effective_from_signal] assigns [*Dsub_ptr],
    [*q_effective_ptr], [*r_effective_ptr] and [first_last_index] in its
    last lines only: whenever it returns an error code, whichever it is and
    wherever it comes from, the four are what they were before the call. *)
Theorem signal_effective_from_signal_error_frame D q eps_t kappa cells d rc cells' :
  signal_effective_from_signal D q eps_t kappa cells d = Some (rc, cells') →
  rc ≠ SUCCESS →
  cells' = cells.
Proof.
  intros Hrun Hrc. unfold signal_effective_from_signal in Hrun.
  destruct (decide (D < 2)); [by injection Hrun as _ <-|].
  destruct q as [q|]; [|by injection Hrun as _ <-].
  destruct (Dsub_ptr cells) as [Dsub|]; [|by injection Hrun as _ <-].
  destruct (q_effective_ptr cells); [|by injection Hrun as _ <-].
  destruct (r_effective_ptr cells); [|by injection Hrun as _ <-].
  destruct (Rleb eps_t (RofQ 0.0)); [by injection Hrun as _ <-|].
  destruct (decide (Z.abs kappa ≠ 1)); [by injection Hrun as _ <-|].
  destruct (first_last_index cells); [|by injection Hrun as _ <-].
  cbv zeta in Hrun.
  destruct (decide (nse_discretization_D_scale d = 0)); [by injection Hrun as _ <-|].
  destruct (malloc _) as [blk|]; [|by injection Hrun as _ <-].
  apply bind_Some in Hrun as ([[qe re]|rc' s] & _ & Hrun).
  - injection Hrun as <- _. done.
  - by injection Hrun as _ <-.
Qed.

(** X2.  The argument checks of [signal_effective_from_signal]: [D < 2], a
    null [q], a null output pointer, [eps_t <= 0], [abs(kappa) != 1], and a
    discretization for which the descriptor gives the scale 0, are answered
    with the invalid-argument code, and nothing is written. *)
Theorem signal_effective_from_signal_invalid_argument D q eps_t kappa cells d :
  D < 2 ∨ q = None ∨ Dsub_ptr cells = None ∨ q_effective_ptr cells = None
  ∨ r_effective_ptr cells = None ∨ Rleb eps_t (RofQ 0.0) = true
  ∨ Z.abs kappa ≠ 1 ∨ first_last_index cells = None
  ∨ nse_discretization_D_scale d = 0 →
  signal_effective_from_signal D q eps_t kappa cells d
    = Some (E_INVALID_ARGUMENT, cells).
Proof.
  intros Hbad. unfold signal_effective_from_signal.
  destruct (decide (D < 2)); [done|].
  destruct q as [q|]; [|done].
  destruct (Dsub_ptr cells) as [Dsub|]; [|done].
  destruct (q_effective_ptr cells); [|done].
  destruct (r_effective_ptr cells); [|done].
  destruct (Rleb eps_t (RofQ 0.0)); [done|].
  destruct (decide (Z.abs kappa ≠ 1)); [done|].
  destruct (first_last_index cells); [|done].
  cbv zeta.
  destruct (decide (nse_discretization_D_scale d = 0)); [done|].
  exfalso. destruct Hbad as [?|[?|[?|[?|[?|[?|[?|[?|?]]]]]]]]; done.
Qed.

(** X3.  A discretization that is not one of BO, CF4_2, CF4_3, CF5_3, CF6_4,
    ES4 and TES4 is never resampled: whatever the descriptor says about it,
    the call does not succeed, and nothing is written. *)
Theorem signal_effective_from_signal_unknown_discretization
    D q eps_t kappa cells d rc cells' :
  d ∉ [nse_discretization_BO; nse_discretization_CF4_2; nse_discretization_CF4_3;
       nse_discretization_CF5_3; nse_discretization_CF6_4;
       nse_discretization_ES4; nse_discretization_TES4] →
  signal_effective_from_signal D q eps_t kappa cells d = Some (rc, cells') →
  (rc = E_INVALID_ARGUMENT ∨ rc = E_NOMEM) ∧ cells' = cells.
Proof.
  intros Hd Hrun. unfold signal_effective_from_signal in Hrun.
  destruct (decide (D < 2)); [injection Hrun as <- <-; auto|].
  destruct q as [q|]; [|injection Hrun as <- <-; auto].
  destruct (Dsub_ptr cells) as [Dsub|]; [|injection Hrun as <- <-; auto].
  destruct (q_effective_ptr cells); [|injection Hrun as <- <-; auto].
  destruct (r_effective_ptr cells); [|injection Hrun as <- <-; auto].
  destruct (Rleb eps_t (RofQ 0.0)); [injection Hrun as <- <-; auto|].
  destruct (decide (Z.abs kappa ≠ 1)); [injection Hrun as <- <-; auto|].
  destruct (first_last_index cells); [|injection Hrun as <- <-; auto].
  cbv zeta in Hrun.
  destruct (decide (nse_discretization_D_scale d = 0));
    [injection Hrun as <- <-; auto|].
  destruct (malloc _) as [blk|]; [|injection Hrun as <- <-; auto].
  destruct d;
    try (exfalso; apply Hd;
         solve [repeat first [apply list_elem_of_here
                             | apply list_elem_of_further]]).
  all: cbn [mbind option_bind] in Hrun; injection Hrun as <- <-; auto.
Qed.

(** ** The effective signal and its co-field *)

Lemma store_length {A} (l l' : list A) i v :
  store l i v = Some l' → length l' = length l.
Proof. intros [_ ->]%store_Some. by rewrite length_insert. Qed.

(** The stores of a loop body that has gone on, as insertions. *)
Ltac open_stores H :=
  repeat (apply bind_Some in H as (? & ? & H));
  simplify_eq;
  repeat match goal with
         | Hs : store _ _ _ = Some _ |- _ => apply store_Some in Hs as [? ->]
         end.

(** A slot of an array after some stores: either one of the stored values,
    or what the invariant [Hinv] says about the slot before. *)
Ltac insert_lookup Hy Hinv :=
  repeat (apply list_lookup_insert_Some in Hy as [(? & ? & ?)|[? Hy]]);
  subst; rewrite ?length_insert in *;
  repeat first [rewrite list_lookup_insert_eq by (rewrite ?length_insert; lia)
               | rewrite list_lookup_insert_ne by lia];
  first [done | apply Hinv; [lia | done]].

Lemma strided_count_covers (n stride : Z) :
  0 < stride →
  (Z.to_nat n ≤ Z.to_nat stride * strided_count n stride)%nat.
Proof.
  intros Hs. unfold strided_count.
  destruct (decide (n ≤ 0)) as [|Hn]; [lia|].
  pose proof (Z.div_mod (n + stride - 1) stride ltac:(lia)) as Hdm.
  pose proof (Z.mod_pos_bound (n + stride - 1) stride Hs) as Hb.
  assert (0 ≤ (n + stride - 1) / stride) by (apply Z.div_pos; lia).
  nia.
Qed.

Lemma resample_BO_cofield q kappa D_effective nskip qe0 re0 qe re :
  resample_BO q kappa D_effective nskip qe0 re0 = Some (Continue (qe, re)) →
  cofield_upto kappa (length qe0) (length re0) (Z.to_nat D_effective) (qe, re).
Proof.
  unfold resample_BO. intros Hl.
  apply (for_loop_continue_inv
           (λ k s, cofield_upto kappa (length qe0) (length re0) k s)) in Hl.
  - exact Hl.
  - repeat split. intros ? ? ?. lia.
  - intros k [a b] [a' b'] Hk (Hq & Hr & Hinv) Hb. simpl in *.
    open_stores Hb. red. simpl. rewrite !length_insert.
    split; [done|]. split; [done|].
    intros j y Hj Hy. insert_lookup Hy Hinv.
Qed.

Lemma resample_CF4_2_cofield D q eps_t kappa D_effective nskip qe0 re0 qe re :
  resample_CF4_2 D q eps_t kappa D_effective nskip qe0 re0
    = Some (Continue (qe, re)) →
  cofield_upto kappa (length qe0) (length re0)
               (2 * strided_count D_effective 2) (qe, re).
Proof.
  unfold resample_CF4_2. intros Hl. repeat step_run Hl.
  apply (for_loop_continue_inv
           (λ k s, cofield_upto kappa (length qe0) (length re0) (2 * k) s)) in Hl.
  - exact Hl.
  - repeat split. intros ? ? ?. lia.
  - intros k [a b] [a' b'] Hk (Hq & Hr & Hinv) Hb. simpl in Hq, Hr, Hinv, Hb.
    open_stores Hb. red. cbn [fst snd]. rewrite !length_insert.
    split; [done|]. split; [done|].
    intros j y Hj Hy. insert_lookup Hy Hinv.
Qed.

Lemma resample_CF4_3_cofield D q eps_t kappa D_effective nskip qe0 re0 qe re :
  resample_CF4_3 D q eps_t kappa D_effective nskip qe0 re0
    = Some (Continue (qe, re)) →
  cofield_upto kappa (length qe0) (length re0)
               (3 * strided_count D_effective 3) (qe, re).
Proof.
  unfold resample_CF4_3. intros Hl. repeat step_run Hl.
  apply (for_loop_continue_inv
           (λ k s, cofield_upto kappa (length qe0) (length re0) (3 * k) s)) in Hl.
  - exact Hl.
  - repeat split. intros ? ? ?. lia.
  - intros k [a b] [a' b'] Hk (Hq & Hr & Hinv) Hb. simpl in Hq, Hr, Hinv, Hb.
    open_stores Hb. red. cbn [fst snd]. rewrite !length_insert.
    split; [done|]. split; [done|].
    intros j y Hj Hy. insert_lookup Hy Hinv.
Qed.

Lemma malloc_block_length n blk :
  malloc n = Some blk → length blk = Z.to_nat n.
Proof.
  unfold malloc_block. destruct (malloc_ok n); [|done].
  intros [= <-]. by rewrite length_fmap, length_seq.
Qed.

Lemma cofield_array_spec kappa D (src dst dst' : list COMPLEX) :
  cofield_array kappa D src dst = Some dst' →
  length dst' = length dst
  ∧ ∀ i, (i < Z.to_nat D)%nat →
      ∃ x, src !! i = Some x ∧ dst' !! i = Some (cofield kappa x).
Proof.
  unfold cofield_array. intros Hrun.
  apply bind_Some in Hrun as (r & Hl & Hrun).
  destruct r as [t|rc t]; injection Hrun as ->.
  - apply (for_loop_continue_inv
             (λ k (t : list COMPLEX),
                length t = length dst
                ∧ ∀ i, (i < k)%nat →
                    ∃ x, src !! i = Some x ∧ t !! i = Some (cofield kappa x)))
      in Hl; [exact Hl | split; [done | intros; lia] |].
    intros k t t' Hk (Hlen & Hinv) Hb. open_stores Hb.
    rewrite length_insert. split; [done|].
    intros i Hi. destruct (decide (i = k)) as [->|].
    + eexists. split; [eassumption|]. by rewrite list_lookup_insert_eq.
    + rewrite list_lookup_insert_ne by done. apply Hinv. lia.
  - apply for_loop_return in Hl as (k & u & _ & Hb). body_goes_on Hb.
Qed.

(** The two loops of the CF5_3 and CF6_4 cases and the loops of the ES4
    case store into the two arrays and do nothing else to them. *)
Lemma resample_CF5_3_lengths D q eps_t kappa D_effective nskip qe0 re0 qe re :
  resample_CF5_3 D q eps_t kappa D_effective nskip qe0 re0
    = Some (Continue (qe, re)) →
  length qe = length qe0 ∧ length re = length re0.
Proof.
  unfold resample_CF5_3. intros Hl. repeat step_run Hl. cbv zeta in Hl.
  apply (for_loop_continue_inv
           (λ _ (s : list COMPLEX * list COMPLEX),
              length s.1 = length qe0 ∧ length s.2 = length re0)) in Hl;
    [exact Hl | done |].
  intros k [a b] [a' b'] Hk (Hq & Hr) Hb. simpl in Hq, Hr, Hb.
  open_stores Hb. cbn [fst snd]. by rewrite !length_insert.
Qed.

Lemma resample_CF6_4_lengths D q eps_t kappa D_effective nskip qe0 re0 qe re :
  resample_CF6_4 D q eps_t kappa D_effective nskip qe0 re0
    = Some (Continue (qe, re)) →
  length qe = length qe0 ∧ length re = length re0.
Proof.
  unfold resample_CF6_4. intros Hl. repeat step_run Hl. cbv zeta in Hl.
  apply (for_loop_continue_inv
           (λ _ (s : list COMPLEX * list COMPLEX),
              length s.1 = length qe0 ∧ length s.2 = length re0)) in Hl;
    [exact Hl | done |].
  intros k [a b] [a' b'] Hk (Hq & Hr) Hb. simpl in Hq, Hr, Hb.
  open_stores Hb. cbn [fst snd]. by rewrite !length_insert.
Qed.

Lemma for_loop_stores_length (body : nat → list COMPLEX → option (flow (list COMPLEX)))
    n i s r :
  (∀ k t r', body k t = Some r' →
     length match r' with Continue t' => t' | Return _ t' => t' end = length t) →
  for_loop n i body s = Some r →
  length match r with Continue t' => t' | Return _ t' => t' end = length s.
Proof.
  intros Hbody Hl.
  pose proof (for_loop_preserves (λ t, length t = length s) body n i s r Hl eq_refl)
    as Hp.
  destruct r; apply Hp; intros k t r' Hb Ht; specialize (Hbody k t r' Hb);
    destruct r'; congruence.
Qed.

Lemma resample_ES4_cofield q eps_t kappa D_effective nskip qe0 re0 qe re :
  resample_ES4 q eps_t kappa D_effective nskip qe0 re0
    = Some (Continue (qe, re)) →
  cofield_upto kappa (length qe0) (length re0) (Z.to_nat D_effective) (qe, re).
Proof.
  unfold resample_ES4. intros Hl. cbv zeta in Hl.
  apply bind_Some in Hl as (qe1 & Hl1 & Hl).
  apply fmap_Some in Hl1 as (r1 & Hl1 & ->).
  apply for_loop_stores_length in Hl1;
    [|intros k t r' Hb; open_stores Hb; by rewrite length_insert].
  repeat (apply bind_Some in Hl as (? & ? & Hl)).
  injection Hl as <- <-.
  repeat match goal with
         | Hs : store _ _ _ = Some _ |- _ => apply store_length in Hs
         | Hs : _ <$> for_loop _ _ _ _ = Some _ |- _ =>
             apply fmap_Some in Hs as (? & Hs & ->);
             apply for_loop_stores_length in Hs;
               [|intros k t r' Hb; open_stores Hb; by rewrite !length_insert]
         end.
  match goal with
  | Hc : cofield_array _ _ _ _ = Some _ |- _ =>
      apply cofield_array_spec in Hc as (Hlen & Hcof)
  end.
  split; [cbn [fst]; congruence|]. split; [done|].
  intros j y Hj Hy. destruct (Hcof j Hj) as (y' & Hy' & Hre).
  cbn [fst snd] in Hy |- *. congruence.
Qed.

Lemma resample_shifted_error D q eps_t kappa d1 d3 rc :
  resample_shifted D q eps_t kappa d1 d3 = Some (inl rc) → rc ≠ SUCCESS.
Proof.
  unfold resample_shifted. intros Hl.
  repeat step_run Hl; by (injection Hl as <-; unfold E_SUBROUTINE).
Qed.

(** A case of the resampler leaves with a status code only when an
    allocation or [misc_resample] has failed: the code is not [SUCCESS]. *)
Ltac failed_return Hl :=
  repeat step_run Hl;
  first [ by (injection Hl as <- _; unfold E_SUBROUTINE)
        | by (injection Hl as <- _; eapply resample_shifted_error)
        | apply for_loop_return in Hl as (? & [? ?] & _ & Hl);
          cbn beta iota in Hl; body_goes_on Hl
        | body_goes_on Hl ].

Lemma resample_return_code D q eps_t kappa D_effective nskip qe0 re0 rc s :
  resample_BO q kappa D_effective nskip qe0 re0 = Some (Return rc s)
  ∨ resample_CF4_2 D q eps_t kappa D_effective nskip qe0 re0 = Some (Return rc s)
  ∨ resample_CF4_3 D q eps_t kappa D_effective nskip qe0 re0 = Some (Return rc s)
  ∨ resample_CF5_3 D q eps_t kappa D_effective nskip qe0 re0 = Some (Return rc s)
  ∨ resample_CF6_4 D q eps_t kappa D_effective nskip qe0 re0 = Some (Return rc s)
  ∨ resample_ES4 q eps_t kappa D_effective nskip qe0 re0 = Some (Return rc s) →
  rc ≠ SUCCESS.
Proof.
  unfold resample_BO, resample_CF4_2, resample_CF4_3, resample_CF5_3,
    resample_CF6_4, resample_ES4.
  intros [Hl|[Hl|[Hl|[Hl|[Hl|Hl]]]]]; cbv zeta in Hl; failed_return Hl.
Qed.

Lemma signal_effective_from_signal_success D q eps_t kappa cells d cells' Dsub0 :
  let Dsub1 := if decide (Dsub0 < 2) then 2 else Dsub0 in
  let Dsub2 := if decide (Dsub1 > D) then D else Dsub1 in
  let nskip_per_step := UINTofR (ROUND (Rdiv (RofZ D) (RofZ Dsub2))) in
  let Dsub := UINTofR (ROUND (Rdiv (RofZ D) (RofZ nskip_per_step))) in
  let D_effective := umul Dsub (nse_discretization_D_scale d) in
  Dsub_ptr cells = Some Dsub0 →
  signal_effective_from_signal D q eps_t kappa cells d = Some (SUCCESS, cells') →
  ∃ qe re,
    cells' = mk_cells (Some Dsub) (Some (Some qe)) (Some (Some re))
                      (Some (0, umul (usub Dsub 1) nskip_per_step))
    ∧ length qe = Z.to_nat D_effective ∧ length re = Z.to_nat D_effective
    ∧ (d ∈ [nse_discretization_BO; nse_discretization_CF4_2;
            nse_discretization_CF4_3; nse_discretization_ES4;
            nse_discretization_TES4] →
       ∀ j x, qe !! j = Some x → re !! j = Some (cofield kappa x)).
Proof.
  intros Dsub1 Dsub2 nskip_per_step Dsub D_effective HDsub Hrun.
  unfold signal_effective_from_signal in Hrun. rewrite HDsub in Hrun.
  destruct (decide (D < 2)); [done|].
  destruct q as [q|]; [|done].
  destruct (q_effective_ptr cells); [|done].
  destruct (r_effective_ptr cells); [|done].
  destruct (Rleb eps_t (RofQ 0.0)); [done|].
  destruct (decide (Z.abs kappa ≠ 1)); [done|].
  destruct (first_last_index cells); [|done].
  cbv zeta in Hrun. fold Dsub1 Dsub2 nskip_per_step Dsub D_effective in Hrun.
  destruct (decide (nse_discretization_D_scale d = 0)); [done|].
  destruct (malloc D_effective) as [blk|] eqn:Hblk; [|done].
  apply malloc_block_length in Hblk.
  apply bind_Some in Hrun as ([[qe re]|rc' s] & Hfill & Hrun).
  2:{ injection Hrun as -> _. exfalso.
      destruct d; try discriminate Hfill;
        eapply (resample_return_code D q eps_t kappa D_effective nskip_per_step
                  blk blk SUCCESS s); eauto 10. }
  injection Hrun as <-. exists qe, re. split; [done|].
  assert (Hcover : ∀ stride (P : nat → COMPLEX → Prop),
            0 < stride →
            (∀ j x, (j < Z.to_nat stride * strided_count D_effective stride)%nat →
                    qe !! j = Some x → P j x) →
            length qe = length blk →
            ∀ j x, qe !! j = Some x → P j x).
  { intros stride P Hs HP Hlen j x Hx. apply HP; [|done].
    apply lookup_lt_Some in Hx.
    pose proof (strided_count_covers D_effective stride Hs). lia. }
  destruct d.
  - apply resample_BO_cofield in Hfill as (Hq & Hr & Hco). cbn [fst snd] in *.
    repeat split; [congruence | congruence |].
    intros _ j x Hx. apply Hco; [|done]. apply lookup_lt_Some in Hx. lia.
  - apply resample_CF4_2_cofield in Hfill as (Hq & Hr & Hco). cbn [fst snd] in *.
    repeat split; [congruence | congruence |].
    intros _. apply (Hcover 2 (λ j x, re !! j = Some (cofield kappa x)));
      [lia | exact Hco | done].
  - apply resample_CF4_3_cofield in Hfill as (Hq & Hr & Hco). cbn [fst snd] in *.
    repeat split; [congruence | congruence |].
    intros _. apply (Hcover 3 (λ j x, re !! j = Some (cofield kappa x)));
      [lia | exact Hco | done].
  - apply resample_CF5_3_lengths in Hfill as (Hq & Hr).
    repeat split; [congruence | congruence |].
    intros Hd. exfalso. rewrite !elem_of_cons, elem_of_nil in Hd.
    destruct Hd as [?|[?|[?|[?|[?|[]]]]]]; discriminate.
  - apply resample_CF6_4_lengths in Hfill as (Hq & Hr).
    repeat split; [congruence | congruence |].
    intros Hd. exfalso. rewrite !elem_of_cons, elem_of_nil in Hd.
    destruct Hd as [?|[?|[?|[?|[?|[]]]]]]; discriminate.
  - apply resample_ES4_cofield in Hfill as (Hq & Hr & Hco). cbn [fst snd] in *.
    repeat split; [congruence | congruence |].
    intros _ j x Hx. apply Hco; [|done]. apply lookup_lt_Some in Hx. lia.
  - apply resample_ES4_cofield in Hfill as (Hq & Hr & Hco). cbn [fst snd] in *.
    repeat split; [congruence | congruence |].
    intros _ j x Hx. apply Hco; [|done]. apply lookup_lt_Some in Hx. lia.
  - discriminate Hfill.
  - discriminate Hfill.
Qed.

(** X4.  What a successful call of [signal_effective_from_signal] stores,
    for every discretization: [*Dsub_ptr] is the achieved count
    [Dsub' = ROUND(D / nskip)], [first_last_index] is
    [{0, (Dsub' - 1) * nskip}], and the two arrays handed back have
    [Dsub' * D_scale] elements each. *)
Theorem signal_effective_from_signal_success_shape
    D q eps_t kappa cells d cells' Dsub0 :
  let Dsub1 := if decide (Dsub0 < 2) then 2 else Dsub0 in
  let Dsub2 := if decide (Dsub1 > D) then D else Dsub1 in
  let nskip_per_step := UINTofR (ROUND (Rdiv (RofZ D) (RofZ Dsub2))) in
  let Dsub := UINTofR (ROUND (Rdiv (RofZ D) (RofZ nskip_per_step))) in
  let D_effective := umul Dsub (nse_discretization_D_scale d) in
  Dsub_ptr cells = Some Dsub0 →
  signal_effective_from_signal D q eps_t kappa cells d = Some (SUCCESS, cells') →
  ∃ qe re,
    cells' = mk_cells (Some Dsub) (Some (Some qe)) (Some (Some re))
                      (Some (0, umul (usub Dsub 1) nskip_per_step))
    ∧ length qe = Z.to_nat D_effective ∧ length re = Z.to_nat D_effective.
Proof.
  intros Dsub1 Dsub2 nskip_per_step Dsub D_effective HDsub Hrun.
  destruct (signal_effective_from_signal_success _ _ _ _ _ _ _ _ HDsub Hrun)
    as (qe & re & Hcells & Hq & Hr & _).
  exists qe, re. auto.
Qed.

(** X5.  For the schemes BO, CF4_2, CF4_3, ES4 and TES4 the effective
    co-field is the co-field of the effective signal, slot by slot:
    after a successful call, [r_effective[j] = -kappa*CONJ(q_effective[j])]
    for every [j] of the array.  (The CF5_3 and CF6_4 cases combine the
    co-fields of the shifted signals instead.) *)
Theorem signal_effective_from_signal_cofield D q eps_t kappa cells d cells' :
  d ∈ [nse_discretization_BO; nse_discretization_CF4_2;
       nse_discretization_CF4_3; nse_discretization_ES4;
       nse_discretization_TES4] →
  signal_effective_from_signal D q eps_t kappa cells d = Some (SUCCESS, cells') →
  ∃ qe re,
    q_effective_ptr cells' = Some (Some qe)
    ∧ r_effective_ptr cells' = Some (Some re)
    ∧ length re = length qe
    ∧ ∀ j x, qe !! j = Some x → re !! j = Some (cofield kappa x).
Proof.
  intros Hd Hrun.
  destruct (Dsub_ptr cells) as [Dsub0|] eqn:HDsub.
  - destruct (signal_effective_from_signal_success _ _ _ _ _ _ _ _ HDsub Hrun)
      as (qe & re & -> & Hq & Hr & Hco).
    exists qe, re. repeat split; [congruence | by apply Hco].
  - unfold signal_effective_from_signal in Hrun. rewrite HDsub in Hrun.
    destruct (decide (D < 2)); [done|]. by destruct q.
Qed.

(** ** More on the norming constants and residues *)

Lemma for_loop_preserves_in {S : Type} (P : S → Prop)
    (body : nat → S → option (flow S)) n i s r :
  for_loop n i body s = Some r →
  P s →
  (∀ k t r', (i ≤ k < i + n)%nat → body k t = Some r' → P t →
             match r' with Continue t' => P t' | Return _ t' => P t' end) →
  match r with Continue s' => P s' | Return _ s' => P s' end.
Proof.
  revert i s. induction n as [|n IH]; intros i s Hl HP Hstep.
  - simpl in Hl. injection Hl as <-. exact HP.
  - simpl in Hl. destruct (body i s) as [[t|rc t]|] eqn:E; try discriminate.
    + apply (IH _ _ Hl).
      * exact (Hstep i s _ ltac:(lia) E HP).
      * intros k u r' Hk. apply Hstep. lia.
    + injection Hl as <-. exact (Hstep i s _ ltac:(lia) E HP).
Qed.

Lemma for_loop_app {S : Type} (body : nat → S → option (flow S)) n m i s :
  for_loop (n + m) i body s =
  match for_loop n i body s with
  | Some (Continue s') => for_loop m (i + n) body s'
  | other => other
  end.
Proof.
  revert i s. induction n as [|n IH]; intros i s.
  - simpl. by rewrite Nat.add_0_r.
  - simpl. destruct (body i s) as [[t|rc t]|]; [|done..].
    rewrite IH. by rewrite Nat.add_succ_r.
Qed.

Lemma write_block_Some (buf buf' : list COMPLEX) n f :
  write_block buf n f = Some buf' →
  (n ≤ length buf)%nat
  ∧ length buf' = length buf
  ∧ (∀ i, (i < n)%nat → buf' !! i = Some (f i))
  ∧ (∀ j, (n ≤ j)%nat → buf' !! j = buf !! j).
Proof.
  intros Hw.
  assert (Hn : (n ≤ length buf)%nat)
    by (unfold write_block in Hw; by case_decide).
  destruct (write_block_ok buf n f Hn) as (b & Hb & ?). 
  rewrite Hw in Hb. injection Hb as <-. auto.
Qed.

Lemma memcpy_within_Some (a a' : list COMPLEX) k :
  memcpy_within a k 0 k = Some a' →
  (2 * k ≤ length a)%nat
  ∧ length a' = length a
  ∧ (∀ i, (i < k)%nat → a' !! i = a !! i)
  ∧ (∀ i, (i < k)%nat → a' !! (k + i)%nat = a !! i)
  ∧ (∀ j, (2 * k ≤ j)%nat → a' !! j = a !! j).
Proof.
  intros Hw.
  assert (Hk : (2 * k ≤ length a)%nat)
    by (unfold memcpy_within in Hw; case_decide; [lia | done]).
  destruct (memcpy_within_second_block a k Hk) as (b & Hb & Hlen & Hlo & Hhi).
  assert (b = a') by congruence. subst b.
  repeat split; [lia | done | done | done |].
  intros j Hj. unfold memcpy_within in Hw. rewrite decide_True in Hw by lia.
  injection Hw as <-. rewrite drop_0.
  assert (length (take k a) = k) by (rewrite length_take; lia).
  rewrite lookup_app_r by lia. rewrite lookup_app_r by lia.
  rewrite lookup_drop. f_equal. lia.
Qed.

(** X6.  When only the norming constants are requested,
    [compute_normconsts_or_residues] hands back what the engine computed:
    the first [K] slots hold the norming constants [b], the rest of the
    array is untouched, and the derivatives are not looked at (there is no
    division, so no division-by-zero code, whatever they are). *)
Theorem compute_normconsts_only D q r T K (bound_states ncr : list COMPLEX)
    (o : fnft_nsev_slow_opts_t) (a_vals aprime_vals b_vals : nat → COMPLEX) :
  let k := Z.to_nat K in
  0 < K → D ≠ 0 → malloc_ok K = true →
  (k ≤ length bound_states)%nat →
  nse_scatter_bound_states D q r T K (take k bound_states) (discretization o) 0
    = (SUCCESS, a_vals, aprime_vals, b_vals) →
  discspec_type o = nsev_dstype_NORMING_CONSTANTS →
  (k ≤ length ncr)%nat →
  ∃ ncr',
    compute_normconsts_or_residues D (Some q) r T K bound_states ncr o
      = Some (SUCCESS, ncr')
    ∧ length ncr' = length ncr
    ∧ (∀ i, (i < k)%nat → ncr' !! i = Some (b_vals i))
    ∧ (∀ j, (k ≤ j)%nat → ncr' !! j = ncr !! j).
Proof.
  intros k HK HD Hm Hbs Heng Hkind Hlen.
  unfold compute_normconsts_or_residues.
  rewrite decide_False by lia. rewrite decide_False by done.
  unfold malloc_block. rewrite Hm.
  fold k. rewrite Heng.
  rewrite (option_guard_True (k ≤ length bound_states)%nat) by exact Hbs.
  cbn [mbind option_bind].
  destruct (write_block_ok ncr k b_vals Hlen) as (ncr1 & -> & Hlen1 & Hb1 & Hrest).
  cbn [mbind option_bind].
  rewrite decide_False by (intros Hne; by apply Hne).
  rewrite decide_False by (intros Hne; by apply Hne).
  exists ncr1. auto.
Qed.

(** X7.  The calculator called with an output kind that is none of the
    three known ones returns the invalid-argument code, but only after the
    engine has run: the first [K] slots of the array then hold the norming
    constants. *)
Theorem compute_normconsts_or_residues_unknown_type D q r T K
    (bound_states ncr : list COMPLEX) (o : fnft_nsev_slow_opts_t) code
    (a_vals aprime_vals b_vals : nat → COMPLEX) :
  let k := Z.to_nat K in
  0 < K → D ≠ 0 → malloc_ok K = true →
  (k ≤ length bound_states)%nat →
  nse_scatter_bound_states D q r T K (take k bound_states) (discretization o) 0
    = (SUCCESS, a_vals, aprime_vals, b_vals) →
  discspec_type o = nsev_dstype_other code →
  (k ≤ length ncr)%nat →
  ∃ ncr',
    compute_normconsts_or_residues D (Some q) r T K bound_states ncr o
      = Some (E_INVALID_ARGUMENT, ncr')
    ∧ length ncr' = length ncr
    ∧ (∀ i, (i < k)%nat → ncr' !! i = Some (b_vals i))
    ∧ (∀ j, (k ≤ j)%nat → ncr' !! j = ncr !! j).
Proof.
  intros k HK HD Hm Hbs Heng Hkind Hlen.
  unfold compute_normconsts_or_residues.
  rewrite decide_False by lia. rewrite decide_False by done.
  unfold malloc_block. rewrite Hm.
  fold k. rewrite Heng.
  rewrite (option_guard_True (k ≤ length bound_states)%nat) by exact Hbs.
  cbn [mbind option_bind].
  destruct (write_block_ok ncr k b_vals Hlen) as (ncr1 & -> & Hlen1 & Hb1 & Hrest).
  cbn [mbind option_bind].
  rewrite decide_False by (intros Hne; by apply Hne).
  rewrite decide_True by (by rewrite Hkind).
  rewrite Hkind. cbn [mbind option_bind].
  exists ncr1. auto.
Qed.

(** X8.  Whatever [compute_normconsts_or_residues] returns, it has written
    at most the first [K] slots of the output array, or the first [2 K]
    when both kinds are requested: the array keeps its length, and every
    slot from there on is what it was. *)
Theorem compute_normconsts_or_residues_footprint D q r T K
    (bound_states ncr : list COMPLEX) (o : fnft_nsev_slow_opts_t) rc ncr' :
  let k := Z.to_nat K in
  let written :=
    if decide (discspec_type o = nsev_dstype_BOTH) then (2 * k)%nat else k in
  compute_normconsts_or_residues D q r T K bound_states ncr o = Some (rc, ncr') →
  length ncr' = length ncr
  ∧ ∀ j, (written ≤ j)%nat → ncr' !! j = ncr !! j.
Proof.
  intros k written Hrun. unfold compute_normconsts_or_residues in Hrun.
  fold k in Hrun.
  destruct (decide (K = 0)); [by injection Hrun as _ <-|].
  destruct (decide (D = 0)); [by injection Hrun as _ <-|].
  destruct q as [q|]; [|by injection Hrun as _ <-].
  destruct (malloc K); [|by injection Hrun as _ <-].
  apply bind_Some in Hrun as (_ & _ & Hrun).
  destruct (nse_scatter_bound_states _ _ _ _ _ _ _ _)
    as [[[ret_code a_vals] aprime_vals] b_vals].
  apply bind_Some in Hrun as (ncr1 & Hw & Hrun).
  apply write_block_Some in Hw as (Hk & Hlen1 & _ & Hrest1).
  assert (Hfirst : length ncr1 = length ncr
                   ∧ ∀ j, (written ≤ j)%nat → ncr1 !! j = ncr !! j).
  { split; [done|]. intros j Hj. apply Hrest1.
    subst written. case_decide; lia. }
  destruct (decide (ret_code ≠ SUCCESS)); [by injection Hrun as _ <-|].
  destruct (decide (discspec_type o ≠ nsev_dstype_NORMING_CONSTANTS));
    [|by injection Hrun as _ <-].
  apply bind_Some in Hrun as (prepared & Hprep & Hrun).
  assert (Hloop : ∀ offset (c : list COMPLEX) res,
    (offset + k ≤ written)%nat →
    for_loop k 0
      (λ i ncr,
         if Cis0 (aprime_vals i) then Some (Return E_DIV_BY_ZERO ncr)
         else x ← load ncr (offset + i);
              ncr ← store ncr (offset + i) (Cdiv x (aprime_vals i));
              Some (Continue ncr)) c = Some res →
    let c' := match res with Continue t => t | Return _ t => t end in
    length c' = length c ∧ ∀ j, (written ≤ j)%nat → c' !! j = c !! j).
  { intros offset c res Hoff Hl.
    pose proof (for_loop_preserves_in
      (λ t, length t = length c ∧ ∀ j, (written ≤ j)%nat → t !! j = c !! j)
      _ _ _ _ _ Hl (conj eq_refl (λ _ _, eq_refl))) as Hp.
    destruct res; apply Hp; intros i t r' Hi Hb (Hlen & Hsame);
      (destruct (Cis0 (aprime_vals i));
       [injection Hb as <-; done
       |open_stores Hb; rewrite length_insert; split; [done|];
        intros j Hj; rewrite list_lookup_insert_ne by lia; by apply Hsame]). }
  destruct (discspec_type o) eqn:Hkind; try done.
  - injection Hprep as <-.
    apply bind_Some in Hrun as (res & Hl & Hrun).
    apply (Hloop 0%nat) in Hl as (Hlen & Hsame);
      [|subst written; simpl; lia].
    destruct Hfirst as (Hlen0 & Hsame0).
    destruct res; injection Hrun as _ <-;
      (split; [congruence | intros j Hj; rewrite Hsame by done; by apply Hsame0]).
  - apply bind_Some in Hprep as (ncr2 & Hcp & Hprep). injection Hprep as <-.
    apply memcpy_within_Some in Hcp as (_ & Hlen2 & _ & _ & Hrest2).
    apply bind_Some in Hrun as (res & Hl & Hrun).
    apply (Hloop k) in Hl as (Hlen & Hsame);
      [|subst written; simpl; lia].
    destruct res; injection Hrun as _ <-;
      (split; [congruence|];
       intros j Hj; rewrite Hsame by done;
       rewrite Hrest2 by (subst written; simpl in Hj; lia);
       apply Hrest1; subst written; simpl in Hj; lia).
  - injection Hprep as <-. by injection Hrun as _ <-.
Qed.

Lemma residue_loop_first_zero (aprime_vals : nat → COMPLEX) offset
    (c : list COMPLEX) n z :
  (offset + n ≤ length c)%nat →
  (z < n)%nat →
  (∀ i, (i < z)%nat → Cis0 (aprime_vals i) = false) →
  Cis0 (aprime_vals z) = true →
  ∃ c',
    for_loop n 0
      (λ (i : nat) (ncr : list COMPLEX),
         if Cis0 (aprime_vals i) then Some (Return E_DIV_BY_ZERO ncr)
         else
           x ← load ncr (offset + i);
           ncr ← store ncr (offset + i) (Cdiv x (aprime_vals i));
           Some (Continue ncr)) c = Some (Return E_DIV_BY_ZERO c')
    ∧ (∀ i x, (i < z)%nat → c !! (offset + i)%nat = Some x →
         c' !! (offset + i)%nat = Some (Cdiv x (aprime_vals i)))
    ∧ (∀ j, (j < offset ∨ offset + z ≤ j)%nat → c' !! j = c !! j).
Proof.
  intros Hc Hz Hbefore Hzero.
  destruct (residue_loop_prefix aprime_vals offset c z)
    as [[(i & Hi & Hiz) _]|(_ & c' & Hl & Hlen' & Hval & Hrest)]; [lia | |].
  { rewrite Hbefore in Hiz by done. discriminate. }
  exists c'. split; [|done].
  assert (Hn : n = (z + S (n - z - 1))%nat) by lia. rewrite Hn.
  rewrite for_loop_app, Hl. simpl. by rewrite Hzero.
Qed.

(** X9.  A division by zero leaves the output array half converted.  When
    residues are requested and [aprime_vals[z] == 0] is the first zero
    derivative, the call returns the division-by-zero code, the slots of the
    bound states before [z] hold residues already, and the slots from [z]
    on still hold norming constants. *)
Theorem compute_residues_first_zero_derivative D q r T K
    (bound_states ncr : list COMPLEX) (o : fnft_nsev_slow_opts_t)
    (a_vals aprime_vals b_vals : nat → COMPLEX) (z : nat) :
  let k := Z.to_nat K in
  let offset := if decide (discspec_type o = nsev_dstype_BOTH) then k else 0%nat in
  0 < K → D ≠ 0 → malloc_ok K = true →
  (k ≤ length bound_states)%nat →
  nse_scatter_bound_states D q r T K (take k bound_states) (discretization o) 0
    = (SUCCESS, a_vals, aprime_vals, b_vals) →
  discspec_type o = nsev_dstype_RESIDUES ∨ discspec_type o = nsev_dstype_BOTH →
  (offset + k ≤ length ncr)%nat →
  (z < k)%nat →
  (∀ i, (i < z)%nat → Cis0 (aprime_vals i) = false) →
  Cis0 (aprime_vals z) = true →
  ∃ ncr',
    compute_normconsts_or_residues D (Some q) r T K bound_states ncr o
      = Some (E_DIV_BY_ZERO, ncr')
    ∧ (∀ i, (i < z)%nat →
         ncr' !! (offset + i)%nat = Some (Cdiv (b_vals i) (aprime_vals i)))
    ∧ (∀ i, (z ≤ i < k)%nat → ncr' !! (offset + i)%nat = Some (b_vals i)).
Proof.
  intros k offset HK HD Hm Hbs Heng Hkind Hlen Hz Hbefore Hzero.
  unfold compute_normconsts_or_residues.
  rewrite decide_False by lia. rewrite decide_False by done.
  unfold malloc_block. rewrite Hm.
  fold k. rewrite Heng.
  rewrite (option_guard_True (k ≤ length bound_states)%nat) by exact Hbs.
  cbn [mbind option_bind].
  destruct (write_block_ok ncr k b_vals) as (ncr1 & -> & Hlen1 & Hb1 & _);
    [subst offset; case_decide; lia|]. cbn [mbind option_bind].
  rewrite decide_False by (intros Hne; by apply Hne).
  rewrite decide_True by (destruct Hkind; congruence).
  assert (Hprep : ∃ ncr2,
    (match discspec_type o with
     | nsev_dstype_RESIDUES => Some (inr (0%nat, ncr1))
     | nsev_dstype_BOTH =>
         ncr ← memcpy_within ncr1 k 0 k; Some (inr (k, ncr))
     | _ => Some (inl (E_INVALID_ARGUMENT, ncr1))
     end : option (INT * list COMPLEX + nat * list COMPLEX))
    = Some (inr (offset, ncr2))
    ∧ length ncr2 = length ncr
    ∧ (∀ i, (i < k)%nat → ncr2 !! (offset + i)%nat = Some (b_vals i))).
  { subst offset. destruct Hkind as [Hr|Hb]; rewrite ?Hr, ?Hb in *; simpl in *.
    - exists ncr1. repeat split; [done | by apply Hb1].
    - destruct (memcpy_within_second_block ncr1 k) as (ncr2 & -> & Hl2 & Hlo & Hhi);
        [lia|]. simpl.
      exists ncr2. split; [done|]. split; [congruence|].
      intros i Hi. rewrite Hhi by done. by apply Hb1. }
  destruct Hprep as (ncr2 & -> & Hlen2 & Hres). cbn [mbind option_bind].
  destruct (residue_loop_first_zero aprime_vals offset ncr2 k z)
    as (c' & -> & Hval & Hrest); [lia | done | done | done |].
  cbn [mbind option_bind].
  exists c'. split; [done|]. split.
  - intros i Hi. apply Hval; [done|]. apply Hres. lia.
  - intros i Hi. rewrite Hrest by lia. apply Hres. lia.
Qed.

(** ** More on the Newton refinement *)

(** X10.  [refine_roots_newton] works on the first [K] slots of
    [bound_states] only: whatever it returns, the array keeps its length and
    the slots from [K] on are what they were. *)
Theorem refine_roots_newton_footprint D q r T K (bs : list COMPLEX)
    discretization niter rc out :
  refine_roots_newton D q r T K (Some bs) discretization niter = Some (rc, out) →
  ∃ bs', out = Some bs'
    ∧ length bs' = length bs
    ∧ ∀ j, (Z.to_nat K ≤ j)%nat → bs' !! j = bs !! j.
Proof.
  intros Hrun. unfold refine_roots_newton in Hrun.
  destruct (decide (K = 0)); [injection Hrun as _ <-; eauto|].
  destruct (decide (niter = 0)); [injection Hrun as _ <-; eauto|].
  destruct q as [q|]; [|injection Hrun as _ <-; eauto].
  destruct T as [T|]; [|injection Hrun as _ <-; eauto].
  cbv zeta in Hrun.
  destruct (decide (_ = 0)); [injection Hrun as _ <-; eauto|].
  destruct (Reqb _ NAN); [injection Hrun as _ <-; eauto|].
  apply bind_Some in Hrun as (res & Hl & Hrun).
  pose proof (for_loop_preserves_in
    (λ t : list COMPLEX,
       length t = length bs ∧ ∀ j, (Z.to_nat K ≤ j)%nat → t !! j = bs !! j)
    _ _ _ _ _ Hl (conj eq_refl (λ _ _, eq_refl))) as Hp.
  assert (Hres : let t := match res with Continue t => t | Return _ t => t end in
                 length t = length bs
                 ∧ ∀ j, (Z.to_nat K ≤ j)%nat → t !! j = bs !! j).
  { destruct res; apply Hp; intros i t r' Hi Hb (Hlen & Hsame);
      apply bind_Some in Hb as (lam & _ & Hb);
      (destruct (newton_do_while _ _ _ _ _ _ _ _ _ _ _);
       open_stores Hb; rewrite length_insert; (split; [done|]);
       intros j Hj; rewrite list_lookup_insert_ne by lia; by apply Hsame). }
  destruct res; injection Hrun as _ <-; eauto.
Qed.

Section NewtonTotal.
Variables (D : Z) (q : list COMPLEX) (r : option (list COMPLEX)) (T : REAL * REAL).
Variables (discretization : nse_discretization_t) (niter : Z).
Variables (im_bound_val re_bound_val : REAL).

(** The loop of one root goes through when the engine succeeds and the
    derivative it returns is not zero. *)
Lemma newton_do_while_goes_on fuel iter lam :
  (∀ lam, ∃ a a', scatter_at D q r T discretization lam = (SUCCESS, a, a')
                  ∧ Cis0 a' = false) →
  ∃ lam', newton_do_while D q r T discretization niter
            im_bound_val re_bound_val fuel iter lam = Continue lam'.
Proof.
  intros Heng. revert iter lam.
  induction fuel as [|fuel IH]; intros iter lam; simpl; [eauto|].
  destruct (Heng lam) as (a & a' & -> & ->).
  rewrite decide_False by (intros Hne; by apply Hne).
  destruct (out_of_region _ _ _); [eauto|].
  destruct (_ && _); [apply IH | eauto].
Qed.

(** The loop of one root returns with the division-by-zero code or with the
    code of the engine. *)
Lemma newton_do_while_return_code fuel iter lam rc lam' :
  newton_do_while D q r T discretization niter
    im_bound_val re_bound_val fuel iter lam = Return rc lam' →
  rc = E_DIV_BY_ZERO
  ∨ ∃ lam0, (scatter_at D q r T discretization lam0).1.1 = rc.
Proof.
  revert iter lam. induction fuel as [|fuel IH]; intros iter lam; simpl; [done|].
  destruct (scatter_at D q r T discretization lam) as [[ret a] a'] eqn:Hs.
  destruct (decide (ret ≠ SUCCESS)).
  { intros [= <- _]. right. exists lam. by rewrite Hs. }
  destruct (Cis0 a'); [intros [= <- _]; by left|].
  destruct (out_of_region _ _ _); [done|].
  destruct (_ && _); [apply IH | done].
Qed.

End NewtonTotal.

(** X11.  The refinement returns the success code, and a refined array of
    the same length, whenever the engine succeeds at every point and never
    returns a zero derivative: with [K] candidates in the array, a scheme
    the descriptor knows and a bound on the imaginary parts that does not
    compare equal to [NAN], nothing else can stop it. *)
Theorem refine_roots_newton_succeeds D q r T K (bs : list COMPLEX)
    discretization niter :
  let D_scale := nse_discretization_D_scale discretization in
  0 < K → 0 < niter →
  (Z.to_nat K ≤ length bs)%nat →
  D_scale ≠ 0 →
  Reqb (Rmul (RofZ (umul D_scale D_scale)) (im_bound D q T)) NAN = false →
  (∀ lam, ∃ a a', scatter_at D q r T discretization lam = (SUCCESS, a, a')
                  ∧ Cis0 a' = false) →
  ∃ bs',
    refine_roots_newton D (Some q) r (Some T) K (Some bs) discretization niter
      = Some (SUCCESS, Some bs')
    ∧ length bs' = length bs.
Proof.
  intros D_scale HK Hniter Hlen Hscale Hnan Heng.
  unfold refine_roots_newton.
  rewrite decide_False by lia. rewrite decide_False by lia.
  cbv zeta. fold D_scale. rewrite decide_False by done. rewrite Hnan.
  match goal with
  | |- context [for_loop ?n 0 ?body bs] =>
      destruct (for_loop_invariant
                  (λ _ (t : list COMPLEX), length t = length bs) body n 0%nat bs)
        as (bs' & -> & Hlen'); [done | |]
  end.
  - intros k t Hk Ht.
    destruct (load_ok t k) as [lam ->]; [lia|]. cbn [mbind option_bind].
    match goal with
    | |- context [newton_do_while ?a ?b ?c ?d ?e ?f ?g ?h ?i ?j lam] =>
        destruct (newton_do_while_goes_on a b c d e f g h i j lam Heng)
          as (lam' & ->)
    end.
    rewrite store_ok by lia. cbn [mbind option_bind].
    eexists. split; [reflexivity|]. by rewrite length_insert.
  - cbn [mbind option_bind]. eauto.
Qed.

(** X12.  The test [im_bound_val == NAN] of [refine_roots_newton] cannot
    fire where [==] is the comparison of IEEE 754, for which nothing
    compares equal to [NAN]: the code [E_OTHER] is then returned only when
    the engine itself returns it. *)
Theorem refine_roots_newton_nan_check_is_dead D (q : list COMPLEX) r
    (T : REAL * REAL) K bound_states discretization niter rc out :
  (∀ x, Reqb x NAN = false) →
  (∀ lam, (scatter_at D q r T discretization lam).1.1 ≠ E_OTHER) →
  refine_roots_newton D (Some q) r (Some T) K bound_states discretization niter
    = Some (rc, out) →
  rc ≠ E_OTHER.
Proof.
  intros Hieee Heng Hrun. unfold refine_roots_newton in Hrun.
  destruct (decide (K = 0)); [by injection Hrun as <- _|].
  destruct (decide (niter = 0)); [by injection Hrun as <- _|].
  destruct bound_states as [bs|]; [|by injection Hrun as <- _].
  cbv zeta in Hrun.
  destruct (decide (_ = 0)); [by injection Hrun as <- _|].
  rewrite Hieee in Hrun.
  apply bind_Some in Hrun as (res & Hl & Hrun).
  destruct res as [t|rc' t]; [by injection Hrun as <- _|].
  injection Hrun as <- _.
  apply for_loop_return in Hl as (k & u & _ & Hb).
  apply bind_Some in Hb as (lam & _ & Hb).
  destruct (newton_do_while _ _ _ _ _ _ _ _ _ _ _) as [lam'|rc'' lam'] eqn:Hdw;
    [body_goes_on Hb|].
  apply bind_Some in Hb as (? & _ & Hb). injection Hb as <- _.
  apply newton_do_while_return_code in Hdw as [->|(lam0 & <-)]; [done|].
  apply Heng.
Qed.

(** ** More on nse_scatter_matrix *)

Lemma fill_r_spec (f : COMPLEX → COMPLEX) D (q r : list COMPLEX) :
  (Z.to_nat D ≤ length q)%nat →
  length r = Z.to_nat D →
  NseScatterMatrix.fill_r f D q r = Some (f <$> take (Z.to_nat D) q).
Proof.
  intros Hq Hr. unfold NseScatterMatrix.fill_r.
  destruct (for_loop_invariant
    (λ k (t : list COMPLEX),
       length t = Z.to_nat D ∧ ∀ i, (i < k)%nat → t !! i = f <$> q !! i)
    (λ i r, x ← load q i; r ← store r i (f x); Some (Continue r))
    (Z.to_nat D) 0%nat r) as (r' & -> & Hlen & Hval).
  - split; [done|]. intros; lia.
  - intros k t Hk (Hlen & Hval).
    destruct (load_ok q k) as [x Hx]; [lia|]. rewrite Hx.
    cbn [mbind option_bind]. rewrite store_ok by lia. cbn [mbind option_bind].
    eexists. split; [reflexivity|]. split; [by rewrite length_insert|].
    intros i Hi. destruct (decide (i = k)) as [->|].
    + rewrite list_lookup_insert_eq by lia. unfold load in Hx. by rewrite Hx.
    + rewrite list_lookup_insert_ne by done. apply Hval. lia.
  - cbn [mbind option_bind]. f_equal. apply list_eq. intros i.
    rewrite list_lookup_fmap.
    destruct (decide (i < Z.to_nat D)%nat) as [Hi|Hi].
    + rewrite lookup_take_lt by done. apply Hval. lia.
    + rewrite lookup_take_ge by lia. simpl.
      apply lookup_ge_None. lia.
Qed.

(** X13.  The argument checks of [nse_scatter_matrix]: [D == 0], a null
    [q], an [eps_t] that is not greater than 0 (a NaN among them),
    [abs(kappa) != 1], [K <= 0], a null [lambda] and a null [result] are
    answered with the invalid-argument code, whatever the discretization,
    and [result] is not written. *)
Theorem nse_scatter_matrix_invalid_argument
    (akns_scatter_matrix :
       Z → list COMPLEX → list COMPLEX → REAL → Z → list COMPLEX →
       list COMPLEX → akns_discretization_t → INT * list COMPLEX)
    D q eps_t kappa K lambda result d :
  D = 0 ∨ q = None ∨ Rgtb eps_t (RofZ 0) = false ∨ Z.abs kappa ≠ 1
  ∨ Rleb (RofZ K) (RofQ 0.0) = true ∨ lambda = None ∨ result = None →
  NseScatterMatrix.nse_scatter_matrix malloc_ok uninit akns_scatter_matrix
    D q eps_t kappa K lambda result d
  = Some (E_INVALID_ARGUMENT, result).
Proof.
  intros Hbad. unfold NseScatterMatrix.nse_scatter_matrix.
  destruct (decide (D = 0)); [done|].
  destruct q; [|done].
  destruct (Rgtb eps_t (RofZ 0)) eqn:Heps; simpl; [|done].
  destruct (decide (Z.abs kappa ≠ 1)); [done|].
  destruct (Rleb _ _) eqn:HK; [done|].
  destruct lambda, result; try done.
  exfalso. destruct Hbad as [?|[?|[?|[?|[?|[?|?]]]]]]; done.
Qed.

(** X14.  On valid arguments and with the BO discretization,
    [nse_scatter_matrix] is the AKNS engine run on [q] and on the co-field
    it builds from the first [D] samples: [r[i] = -CONJ(q[i])] for
    [kappa == 1] and [r[i] = CONJ(q[i])] for [kappa == -1].  The status and
    the contents of [result] are those of the engine. *)
Theorem nse_scatter_matrix_BO
    (akns_scatter_matrix :
       Z → list COMPLEX → list COMPLEX → REAL → Z → list COMPLEX →
       list COMPLEX → akns_discretization_t → INT * list COMPLEX)
    D (q : list COMPLEX) eps_t kappa K (lambda result : list COMPLEX) :
  let r := (if decide (kappa = 1) then λ z, Cneg (CONJ z) else CONJ)
             <$> take (Z.to_nat D) q in
  let engine :=
    akns_scatter_matrix D q r eps_t K lambda result akns_discretization_BO in
  0 < D → (Z.to_nat D ≤ length q)%nat →
  Rgtb eps_t (RofZ 0) = true → Z.abs kappa = 1 →
  Rleb (RofZ K) (RofQ 0.0) = false →
  malloc_ok D = true →
  NseScatterMatrix.nse_scatter_matrix malloc_ok uninit akns_scatter_matrix
    D (Some q) eps_t kappa K (Some lambda) (Some result) nse_discretization_BO
  = Some (engine.1, Some engine.2).
Proof.
  intros r engine HD Hq Heps Hk HK Hm.
  unfold NseScatterMatrix.nse_scatter_matrix.
  rewrite decide_False by lia. rewrite Heps. simpl negb. cbv iota.
  rewrite decide_False by (intros Hne; by apply Hne). rewrite HK.
  destruct (malloc_block_ok D Hm) as (blk & -> & Hblk).
  cbn [mbind option_bind].
  subst engine r.
  destruct (decide (kappa = 1)).
  - rewrite fill_r_spec by done. cbn [mbind option_bind].
    by destruct (akns_scatter_matrix _ _ _ _ _ _ _ _).
  - rewrite fill_r_spec by done. cbn [mbind option_bind].
    by destruct (akns_scatter_matrix _ _ _ _ _ _ _ _).
Qed.

(** X15.  [nse_scatter_matrix] does not return the out-of-memory code: when
    the allocation of the co-field fails on otherwise valid arguments, the
    assignment [ret_code = E_NOMEM] is followed by the loop that writes
    [r[i]] through the null pointer, and the call has no defined result. *)
Theorem nse_scatter_matrix_failed_allocation
    (akns_scatter_matrix :
       Z → list COMPLEX → list COMPLEX → REAL → Z → list COMPLEX →
       list COMPLEX → akns_discretization_t → INT * list COMPLEX)
    D (q : list COMPLEX) eps_t kappa K (lambda result : list COMPLEX) :
  0 < D → Rgtb eps_t (RofZ 0) = true → Z.abs kappa = 1 →
  Rleb (RofZ K) (RofQ 0.0) = false →
  malloc_ok D = false →
  NseScatterMatrix.nse_scatter_matrix malloc_ok uninit akns_scatter_matrix
    D (Some q) eps_t kappa K (Some lambda) (Some result) nse_discretization_BO
  = None.
Proof.
  intros HD Heps Hk HK Hm.
  unfold NseScatterMatrix.nse_scatter_matrix.
  rewrite decide_False by lia. rewrite Heps. simpl negb. cbv iota.
  rewrite decide_False by (intros Hne; by apply Hne). rewrite HK.
  unfold malloc_block. by rewrite Hm.
Qed.

(** ** The options and the continuous spectrum across a call *)

Lemma opts_opts_update f m : opts (opts_update f m) = f <$> opts m.
Proof. unfold opts_update. by destruct (opts m). Qed.

Lemma static_opts_update f m :
  static_default_opts (opts_update f m)
  = match opts m with Some _ => static_default_opts m | None => f (static_default_opts m) end.
Proof. unfold opts_update. by destruct (opts m). Qed.

Lemma opts_deref_opts_update f m : opts_deref (opts_update f m) = f (opts_deref m).
Proof. unfold opts_deref, opts_update. by destruct (opts m). Qed.

(** The discrete-spectrum part of [fnft_nsev_slow_base] writes
    [bound_states], [normconsts_or_residues] and [*K_ptr] only. *)
Lemma base_discspec_frame D q r T D_scale D_given eps_t bs K0 m rc m' :
  base_discspec D q r T D_scale D_given eps_t bs K0 m = Some (rc, m') →
  opts m' = opts m
  ∧ static_default_opts m' = static_default_opts m
  ∧ contspec m' = contspec m.
Proof.
  intros Hrun. unfold base_discspec in Hrun.
  repeat lazymatch type of Hrun with
         | Some _ = Some _ => fail
         | _ => step_run Hrun
         end.
  all: by injection Hrun as <- <-.
Qed.

(** [fnft_nsev_slow_base] reads the options and does not write them, and
    writes [contspec] only when it is non-null and [M > 0]. *)
Lemma fnft_nsev_slow_base_frame D q r T M XI kappa m rc m' :
  fnft_nsev_slow_base D q r T M XI kappa m = Some (rc, m') →
  opts m' = opts m
  ∧ static_default_opts m' = static_default_opts m
  ∧ (contspec m = None ∨ M ≤ 0 → contspec m' = contspec m).
Proof.
  intros Hrun. unfold fnft_nsev_slow_base in Hrun.
  repeat match type of Hrun with
         | (if ?c then _ else _) = _ =>
             destruct c; [injection Hrun as <- <-; by repeat split|]
         | match ?x with _ => _ end = _ =>
             destruct x; [|injection Hrun as <- <-; by repeat split]
         end.
  apply bind_Some in Hrun as (cont & Hcont & Hrun).
  assert (Hframe : match cont with Continue m1 | Return _ m1 =>
            opts m1 = opts m
            ∧ static_default_opts m1 = static_default_opts m
            ∧ (contspec m = None ∨ M ≤ 0 → contspec m1 = contspec m) end).
  { destruct (contspec m) as [cs|] eqn:Hcs.
    - destruct (decide (M > 0)).
      + apply bind_Some in Hcont as (filled & _ & Hcont).
        destruct filled; injection Hcont as <-; simpl;
          (split; [done|]; split; [done|]; intros [?|?]; [done | lia]).
      + injection Hcont as <-. by repeat split.
    - injection Hcont as <-. by repeat split. }
  destruct cont as [m1|rc1 m1]; [|by injection Hrun as <- <-].
  destruct Hframe as (Ho & Hs & Hc).
  assert (Hend : match K_ptr m1 with
                 | Some _ => Some (SUCCESS, set_K 0 m1)
                 | None => Some (SUCCESS, m1)
                 end = Some (rc, m') →
          opts m' = opts m ∧ static_default_opts m' = static_default_opts m
          ∧ (contspec m = None ∨ M ≤ 0 → contspec m' = contspec m)).
  { destruct (K_ptr m1); intros [= <- <-]; simpl; by repeat split. }
  destruct (bound_states m1) as [bs|]; [|by apply Hend].
  destruct (decide (kappa = 1)); [|by apply Hend].
  apply bind_Some in Hrun as (K0 & _ & Hrun).
  apply base_discspec_frame in Hrun as (Ho' & Hs' & Hc').
  repeat split; [congruence | congruence |].
  intros Hno. rewrite Hc'. by apply Hc.
Qed.

Lemma set_bsloc_restore o :
  set_bound_state_localization (bound_state_localization o)
    (set_bound_state_localization nsev_bsloc_NEWTON o) = o.
Proof. by destruct o. Qed.

(** A return of the Richardson part before the options are restored. *)
Ltac richardson_leaf Hrun :=
  injection Hrun as <- <-;
  rewrite ?contspec_opts_update, ?opts_deref_opts_update;
  split; [done|]; split;
  [ intros Hrc; first [discriminate Hrc | unfold E_SUBROUTINE in *; congruence]
  | intros _; by destruct (opts_deref _) ].

Lemma fnft_nsev_slow_richardson_frame D q T M XI kappa eps_t D_scale
    ds_type_opt reserve cells m rc m' :
  fnft_nsev_slow_richardson D q T M XI kappa eps_t D_scale ds_type_opt
                            reserve cells m = Some (rc, m') →
  (contspec m = None ∨ M ≤ 0 → contspec m' = contspec m)
  ∧ (rc = SUCCESS →
       opts m' = opts (opts_update (set_discspec_type ds_type_opt) m)
       ∧ static_default_opts m'
         = static_default_opts (opts_update (set_discspec_type ds_type_opt) m))
  ∧ (rc ≠ SUCCESS →
       discspec_type (opts_deref m') = discspec_type (opts_deref m)).
Proof.
  intros Hrun. unfold fnft_nsev_slow_richardson in Hrun.
  repeat lazymatch type of Hrun with
         | mbind _ ?a = _ =>
             lazymatch a with
             | context [richardson_contspec] => fail
             | _ => first [richardson_leaf Hrun | step_run Hrun]
             end
         | _ => first [richardson_leaf Hrun | step_run Hrun]
         end.
  1,2: match goal with
       | H0 : _ = Some (inl _) |- _ =>
           repeat step_run H0; injection H0 as <-; richardson_leaf Hrun
       end.
  apply bind_Some in Hrun as (m3 & Hm3 & Hrun).
  assert (Hframe :
    opts m3 = opts (opts_update (set_discspec_type ds_type_opt) m)
    ∧ static_default_opts m3
      = static_default_opts (opts_update (set_discspec_type ds_type_opt) m)
    ∧ (contspec m = None ∨ M ≤ 0 → contspec m3 = contspec m)).
  { assert (Hcells : ∀ mm,
      opts mm = opts (opts_update (set_discspec_type ds_type_opt)
                  (opts_update (set_bound_state_localization
                                  (bound_state_localization (opts_deref m)))
                     (opts_update (set_bound_state_localization nsev_bsloc_NEWTON) m))) →
      static_default_opts mm
      = static_default_opts (opts_update (set_discspec_type ds_type_opt)
          (opts_update (set_bound_state_localization
                          (bound_state_localization (opts_deref m)))
             (opts_update (set_bound_state_localization nsev_bsloc_NEWTON) m))) →
      opts mm = opts (opts_update (set_discspec_type ds_type_opt) m)
      ∧ static_default_opts mm
        = static_default_opts (opts_update (set_discspec_type ds_type_opt) m)).
    { intros mm -> ->. unfold opts_update, opts_deref.
      destruct (opts m) as [o'|]; simpl; by rewrite set_bsloc_restore. }
    rewrite !contspec_opts_update in Hm3.
    destruct (contspec m) as [cs|] eqn:Hcs.
    - destruct (decide (M > 0)).
      + repeat (apply bind_Some in Hm3 as (? & ? & Hm3)).
        injection Hm3 as <-. simpl.
        destruct (Hcells _ eq_refl eq_refl) as [? ?].
        split; [done|]. split; [done|]. intros [?|?]; [done | lia].
      + injection Hm3 as <-. destruct (Hcells _ eq_refl eq_refl) as [? ?].
        rewrite !contspec_opts_update. by repeat split.
    - injection Hm3 as <-. destruct (Hcells _ eq_refl eq_refl) as [? ?].
      rewrite !contspec_opts_update. by repeat split. }
  destruct Hframe as (Ho & Hs & Hc).
  assert (Hend : rc = SUCCESS ∧ opts m' = opts m3
                 ∧ static_default_opts m' = static_default_opts m3
                 ∧ contspec m' = contspec m3).
  { repeat step_run Hrun; injection Hrun as <- <-;
      try destruct reserve; by repeat split. }
  destruct Hend as (-> & Ho' & Hs' & Hc').
  split; [intros Hno; rewrite Hc'; by apply Hc|].
  split; [intros _; split; congruence | done].
Qed.

Lemma opts_deref_cells m1 m2 :
  opts m1 = opts m2 → static_default_opts m1 = static_default_opts m2 →
  opts_deref m1 = opts_deref m2.
Proof. unfold opts_deref. by intros -> ->. Qed.

Lemma set_discspec_type_restore o v :
  set_discspec_type (discspec_type o) (set_discspec_type v o) = o.
Proof. by destruct o. Qed.

Lemma fnft_nsev_slow_frame D q T M XI kappa m rc m' :
  fnft_nsev_slow D q T M XI kappa m = Some (rc, m') →
  (contspec m = None ∨ M ≤ 0 → contspec m' = contspec m)
  ∧ (rc = SUCCESS →
       opts m' = opts m ∧ static_default_opts m' = static_default_opts m)
  ∧ (rc ≠ SUCCESS →
       richardson_extrapolation_flag (opts_deref m) = 1 →
       discspec_type (opts_deref m) = nsev_dstype_RESIDUES →
       2 ≤ D → q ≠ None →
       (∃ T0, T = Some T0 ∧ Rgeb (fst T0) (snd T0) = false) →
       (contspec m ≠ None →
        ∃ XI0, XI = Some XI0 ∧ Rgeb (fst XI0) (snd XI0) = false) →
       Z.abs kappa = 1 →
       (bound_states m ≠ None → K_ptr m ≠ None) →
       discspec_type (opts_deref m') = nsev_dstype_BOTH).
Proof.
  intros Hrun. unfold fnft_nsev_slow in Hrun.
  repeat lazymatch type of Hrun with
         | mbind _ _ = _ => fail
         | Some _ = Some _ => fail
         | _ => step_run Hrun
         end.
  all: try (injection Hrun as <- <-; split; [done|]; split; [done|];
            intros _ _ _ HD Hq (T0 & HT & HTge) HXI Hk HKp; exfalso;
            first [ lia | done | by simplify_eq | by (simplify_eq; congruence)
                  | match goal with
                    | Hb : _ && _ = true |- _ =>
                        apply andb_true_iff in Hb as [Hb1%bool_decide_eq_true_1 Hb2];
                        first [ destruct (HXI Hb1) as (XI0 & -> & HXge); congruence
                              | apply bool_decide_eq_true_1 in Hb2;
                                by apply HKp in Hb1 ]
                    end ]).
  apply bind_Some in Hrun as (prepared & Hprep & Hrun).
  assert (Hp :
    (bool_decide (richardson_extrapolation_flag (opts_deref m) = 1)
     && bool_decide (discspec_type (opts_deref m) = nsev_dstype_RESIDUES) = true
     ∧ ∃ reserve,
         prepared = Continue (reserve, opts_update (set_discspec_type nsev_dstype_BOTH) m)
         ∨ prepared = Return E_NOMEM (reserve, opts_update (set_discspec_type nsev_dstype_BOTH) m))
    ∨ (bool_decide (richardson_extrapolation_flag (opts_deref m) = 1)
       && bool_decide (discspec_type (opts_deref m) = nsev_dstype_RESIDUES) = false
       ∧ prepared = Continue (reserve_is_output, m))).
  { step_run Hprep.
    - left. split; [done|]. repeat step_run Hprep; injection Hprep as <-; eauto.
    - right. split; [done|]. by injection Hprep as <-. }
  assert (Hfail : ∀ mm,
            discspec_type (opts_deref mm)
            = discspec_type (opts_deref
                (match prepared with Continue (_, m0) | Return _ (_, m0) => m0 end)) →
            richardson_extrapolation_flag (opts_deref m) = 1 →
            discspec_type (opts_deref m) = nsev_dstype_RESIDUES →
            discspec_type (opts_deref mm) = nsev_dstype_BOTH).
  { intros mm Hmm Hflag Hres. rewrite Hmm.
    destruct Hp as [(_ & reserve & [->| ->])|(Hsp & _)].
    - cbv beta iota. by rewrite opts_deref_opts_update.
    - cbv beta iota. by rewrite opts_deref_opts_update.
    - rewrite !bool_decide_eq_true_2 in Hsp by done. done. }
  assert (Hc0 : contspec (match prepared with
                          | Continue (_, m0) | Return _ (_, m0) => m0 end)
                = contspec m).
  { destruct Hp as [(_ & reserve & [->| ->])|(_ & ->)]; cbv beta iota;
      by rewrite ?contspec_opts_update. }
  destruct prepared as [[reserve m0]|rc0 [reserve m0]].
  2:{ injection Hrun as <- <-. split; [by intros _|]. split.
      - intros ->. destruct Hp as [(_ & ? & [?|?])|(_ & ?)]; congruence.
      - intros _ Hflag Hres _ _ _ _ _ _. by apply Hfail. }
  assert (Hflag0 : richardson_extrapolation_flag (opts_deref m0)
                   = richardson_extrapolation_flag (opts_deref m)).
  { destruct Hp as [(_ & ? & [Hp|Hp])|(_ & Hp)]; try discriminate Hp;
      injection Hp as _ ->;
      rewrite ?opts_deref_opts_update; by destruct (opts_deref m). }
  destruct (decide (_ = 0)).
  { injection Hrun as <- <-. split; [by intros _|]. split; [done|].
    intros _ Hflag Hres _ _ _ _ _ _. by apply Hfail. }
  apply bind_Some in Hrun as ([rcs cells] & _ & Hrun).
  destruct (decide (rcs ≠ SUCCESS)).
  { injection Hrun as <- <-. split; [by intros _|].
    split; [unfold E_SUBROUTINE; done|].
    intros _ Hflag Hres _ _ _ _ _ _. by apply Hfail. }
  apply bind_Some in Hrun as (q_eff & _ & Hrun).
  apply bind_Some in Hrun as (r_eff & _ & Hrun).
  apply bind_Some in Hrun as ([rc1 m1] & Hbase & Hrun).
  apply fnft_nsev_slow_base_frame in Hbase as (Ho1 & Hs1 & Hc1).
  pose proof (opts_deref_cells _ _ Ho1 Hs1) as Hd1.
  destruct (decide (rc1 ≠ SUCCESS)).
  { injection Hrun as <- <-.
    split; [intros Hno; rewrite Hc1 by (by rewrite Hc0); done|].
    split; [unfold E_SUBROUTINE; done|].
    intros _ Hflag Hres _ _ _ _ _ _. apply Hfail; [|done..]. by rewrite Hd1. }
  rewrite Hd1, Hflag0 in Hrun.
  destruct (decide (richardson_extrapolation_flag (opts_deref m) = 1)) as [Hflag|Hflag].
  - apply fnft_nsev_slow_richardson_frame in Hrun as (Hc2 & Hok & Hko).
    split; [|split].
    + intros Hno. rewrite Hc2, Hc1; rewrite ?Hc1, ?Hc0; try done.
      all: by rewrite Hc0.
    + intros Hrc. destruct (Hok Hrc) as [-> ->].
      rewrite opts_opts_update, static_opts_update, Ho1, Hs1.
      destruct Hp as [(Hsp & ? & [Hp|Hp])|(_ & Hp)]; try discriminate Hp;
        injection Hp as _ ->.
      * unfold opts_update, opts_deref.
        destruct (opts m) as [o|]; simpl;
          by rewrite set_discspec_type_restore.
      * unfold opts_deref. destruct (opts m) as [o|]; simpl;
          [by destruct o | by destruct (static_default_opts m)].
    + intros Hrc _ Hres _ _ _ _ _ _. apply Hfail; [|done..].
      rewrite Hko by done. by rewrite Hd1.
  - injection Hrun as <- <-.
    split; [intros Hno; by rewrite Hc1, Hc0 by (by rewrite Hc0)|].
    split; [|done]. intros _.
    destruct Hp as [(Hsp & _)|(_ & Hp)].
    + apply andb_true_iff in Hsp as [Hf%bool_decide_eq_true_1 _]. done.
    + injection Hp as _ ->. done.
Qed.

(** X16.  A successful call of [fnft_nsev_slow] hands the options back as
    it got them: the record [opts] points to, and the static defaults that
    stand in for a null [opts], are what they were before the call.  (With
    Richardson extrapolation the call overwrites [bound_state_localization]
    and [discspec_type] on the way and restores both before it returns.) *)
Theorem fnft_nsev_slow_restores_options D q T M XI kappa m m' :
  fnft_nsev_slow D q T M XI kappa m = Some (SUCCESS, m') →
  opts m' = opts m ∧ static_default_opts m' = static_default_opts m.
Proof.
  intros Hrun. apply fnft_nsev_slow_frame in Hrun as (_ & Hok & _). by apply Hok.
Qed.

(** X17.  A failing call does not restore them.  With Richardson
    extrapolation switched on and residues requested, the call first sets
    [opts->discspec_type = nsev_dstype_BOTH]; every error return past the
    argument checks leaves it that way. *)
Theorem fnft_nsev_slow_failure_keeps_discspec_type_both
    D q T0 M XI kappa m rc m' :
  richardson_extrapolation_flag (opts_deref m) = 1 →
  discspec_type (opts_deref m) = nsev_dstype_RESIDUES →
  2 ≤ D → q ≠ None → Rgeb (fst T0) (snd T0) = false →
  (contspec m ≠ None →
   ∃ XI0, XI = Some XI0 ∧ Rgeb (fst XI0) (snd XI0) = false) →
  Z.abs kappa = 1 →
  (bound_states m ≠ None → K_ptr m ≠ None) →
  fnft_nsev_slow D q (Some T0) M XI kappa m = Some (rc, m') →
  rc ≠ SUCCESS →
  discspec_type (opts_deref m') = nsev_dstype_BOTH.
Proof.
  intros Hflag Hres HD Hq HT HXI Hk HK Hrun Hrc.
  apply fnft_nsev_slow_frame in Hrun as (_ & _ & Hko).
  apply Hko; eauto.
Qed.

(** X18.  With a null [contspec] or with [M == 0] no continuous spectrum is
    computed: whatever [fnft_nsev_slow] returns, with or without Richardson
    extrapolation, [contspec] is what it was before the call. *)
Theorem fnft_nsev_slow_no_continuous_spectrum D q T M XI kappa m rc m' :
  fnft_nsev_slow D q T M XI kappa m = Some (rc, m') →
  contspec m = None ∨ M ≤ 0 →
  contspec m' = contspec m.
Proof.
  intros Hrun Hno. apply fnft_nsev_slow_frame in Hrun as (Hc & _ & _).
  by apply Hc.
Qed.

(** ** The Richardson step on all bound states *)

(** One iteration writes slot [i] of [bound_states] and nothing else of that
    array; what it writes is decided by the search among the eigenvalues of
    the subsampled run. *)
Lemma richardson_bound_state_step eps_t scl_num scl_den ds_type_opt K K_sub
    (bound_states_sub : list COMPLEX) i a a' :
  richardson_bound_state eps_t scl_num scl_den ds_type_opt K K_sub
                         bound_states_sub i a = Some a' →
  ∃ lam loc thr,
    ra_bound_states a !! i = Some lam
    ∧ nearest_sub eps_t lam bound_states_sub K_sub = Some (loc, thr)
    ∧ length (ra_bound_states a') = length (ra_bound_states a)
    ∧ (∀ j, j ≠ i → ra_bound_states a' !! j = ra_bound_states a !! j)
    ∧ ra_bound_states a' !! i
      = (if decide (loc < Z.to_nat K_sub)%nat
         then (λ y, Cdivr (Csub (Cscale scl_num lam) y) scl_den)
                <$> bound_states_sub !! loc
         else Some lam)
    ∧ (ds_type_opt ≠ nsev_dstype_RESIDUES → ds_type_opt ≠ nsev_dstype_BOTH →
       ra_reserve a' = ra_reserve a ∧ ra_sub a' = ra_sub a).
Proof.
  unfold richardson_bound_state. intros Hrun.
  apply bind_Some in Hrun as (lam & Hlam & Hrun).
  apply bind_Some in Hrun as ([loc thr] & Hnear & Hrun).
  exists lam, loc, thr. split; [exact Hlam|]. split; [exact Hnear|].
  destruct (decide (loc < Z.to_nat K_sub)%nat).
  - apply bind_Some in Hrun as (y & Hy & Hrun).
    apply bind_Some in Hrun as (bs & Hbs & Hrun).
    apply store_Some in Hbs as [Hi ->].
    assert (Hlen : length (<[i:=Cdivr (Csub (Cscale scl_num lam) y) scl_den]>
                             (ra_bound_states a)) = length (ra_bound_states a))
      by (by rewrite length_insert).
    assert (Hother : ∀ j, j ≠ i →
              <[i:=Cdivr (Csub (Cscale scl_num lam) y) scl_den]>
                (ra_bound_states a) !! j = ra_bound_states a !! j)
      by (intros j Hj; by rewrite list_lookup_insert_ne).
    assert (Hthis : <[i:=Cdivr (Csub (Cscale scl_num lam) y) scl_den]>
                      (ra_bound_states a) !! i
                    = (λ y, Cdivr (Csub (Cscale scl_num lam) y) scl_den)
                        <$> bound_states_sub !! loc).
    { rewrite list_lookup_insert_eq by done. unfold load in Hy. by rewrite Hy. }
    destruct (_ || _) eqn:Hds.
    + repeat (apply bind_Some in Hrun as (? & ? & Hrun)). injection Hrun as <-.
      cbn [ra_bound_states ra_reserve ra_sub].
      split; [done|]. split; [done|]. split; [done|].
      intros Hr Hb. apply orb_true_iff in Hds as [Hd|Hd];
        apply bool_decide_eq_true_1 in Hd; done.
    + injection Hrun as <-. cbn [ra_bound_states ra_reserve ra_sub].
      by repeat split.
  - injection Hrun as <-. repeat split; try done.
Qed.

(** X19.  The Richardson step on the bound states treats every eigenvalue
    of the full run on its own.  After the loop over [i < K], slot [i] holds
    the extrapolation of the eigenvalue [lam] it held before with the
    eigenvalue [bound_states_sub[loc]] the search returns for [lam], or [lam]
    itself when the search finds none ([loc == K_sub]); the search is always
    made among the eigenvalues of the subsampled run as that run left them.
    Slots from [K] on are not touched, and when no residues are requested
    the two arrays of norming constants are not touched either. *)
Theorem richardson_bound_states_spec eps_t scl_num scl_den ds_type_opt K K_sub
    (bound_states_sub : list COMPLEX) a a' :
  richardson_bound_states eps_t scl_num scl_den ds_type_opt K K_sub
                          bound_states_sub a = Some a' →
  length (ra_bound_states a') = length (ra_bound_states a)
  ∧ (∀ j, (Z.to_nat K ≤ j)%nat →
       ra_bound_states a' !! j = ra_bound_states a !! j)
  ∧ (∀ i lam, (i < Z.to_nat K)%nat → ra_bound_states a !! i = Some lam →
       ∃ loc thr,
         nearest_sub eps_t lam bound_states_sub K_sub = Some (loc, thr)
         ∧ ra_bound_states a' !! i
           = (if decide (loc < Z.to_nat K_sub)%nat
              then (λ y, Cdivr (Csub (Cscale scl_num lam) y) scl_den)
                     <$> bound_states_sub !! loc
              else Some lam))
  ∧ (ds_type_opt ≠ nsev_dstype_RESIDUES → ds_type_opt ≠ nsev_dstype_BOTH →
     ra_reserve a' = ra_reserve a ∧ ra_sub a' = ra_sub a).
Proof.
  unfold richardson_bound_states. intros Hrun.
  apply bind_Some in Hrun as (res & Hl & Hrun).
  destruct res as [t|rc t]; injection Hrun as ->.
  2:{ apply for_loop_return in Hl as (k & u & _ & Hb). body_goes_on Hb. }
  apply (for_loop_continue_inv
    (λ k t,
       length (ra_bound_states t) = length (ra_bound_states a)
       ∧ (∀ j, (k ≤ j)%nat → ra_bound_states t !! j = ra_bound_states a !! j)
       ∧ (∀ i lam, (i < k)%nat → ra_bound_states a !! i = Some lam →
            ∃ loc thr,
              nearest_sub eps_t lam bound_states_sub K_sub = Some (loc, thr)
              ∧ ra_bound_states t !! i
                = (if decide (loc < Z.to_nat K_sub)%nat
                   then (λ y, Cdivr (Csub (Cscale scl_num lam) y) scl_den)
                          <$> bound_states_sub !! loc
                   else Some lam))
       ∧ (ds_type_opt ≠ nsev_dstype_RESIDUES → ds_type_opt ≠ nsev_dstype_BOTH →
          ra_reserve t = ra_reserve a ∧ ra_sub t = ra_sub a))) in Hl.
  - exact Hl.
  - repeat split; try done. intros; lia.
  - intros k t t' Hk (Hlen & Hrest & Hdone & Hncr) Hb.
    apply bind_Some in Hb as (t1 & Hstep & Hb). injection Hb as <-.
    apply richardson_bound_state_step in Hstep
      as (lam & loc & thr & Hlam & Hnear & Hlen1 & Hother & Hthis & Hncr1).
    split; [congruence|]. split; [|split].
    + intros j Hj. rewrite Hother by lia. apply Hrest. lia.
    + intros i lam' Hi Hlam'. destruct (decide (i = k)) as [->|].
      * rewrite Hrest in Hlam by lia.
        assert (lam' = lam) as -> by congruence. eauto.
      * rewrite Hother by done. apply Hdone; [lia | done].
    + intros Hr Hb. destruct (Hncr Hr Hb) as [<- <-]. by apply Hncr1.
Qed.

(** ** An unsupported discretization *)

(** X20.  A discretization for which the descriptor gives the scale 0 is
    turned down before anything is computed: [fnft_nsev_slow] returns the
    invalid-argument code (or the out-of-memory code, when the block for
    the Richardson step on the residues is refused first), and [contspec],
    [*K_ptr], [bound_states] and [normconsts_or_residues] are what they
    were. *)
Theorem fnft_nsev_slow_unsupported_discretization D q T M XI kappa m rc m' :
  nse_discretization_D_scale (discretization (opts_deref m)) = 0 →
  fnft_nsev_slow D q T M XI kappa m = Some (rc, m') →
  (rc = E_INVALID_ARGUMENT ∨ rc = E_NOMEM)
  ∧ contspec m' = contspec m
  ∧ K_ptr m' = K_ptr m
  ∧ bound_states m' = bound_states m
  ∧ normconsts_or_residues m' = normconsts_or_residues m.
Proof.
  intros Hscale Hrun. unfold fnft_nsev_slow in Hrun.
  repeat lazymatch type of Hrun with
         | mbind _ _ = _ => fail
         | Some _ = Some _ => fail
         | _ => step_run Hrun
         end.
  all: try (injection Hrun as <- <-; by auto).
  apply bind_Some in Hrun as (prepared & Hprep & Hrun).
  assert (Hscale' : ∀ v,
            nse_discretization_D_scale
              (discretization (opts_deref (opts_update (set_discspec_type v) m))) = 0).
  { intros v. rewrite opts_deref_opts_update. by destruct (opts_deref m). }
  repeat step_run Hprep; injection Hprep as <-; cbv beta iota in Hrun;
    rewrite ?Hscale', ?Hscale in Hrun;
    rewrite ?decide_True in Hrun by done;
    injection Hrun as <- <-;
    rewrite ?contspec_opts_update, ?K_ptr_opts_update,
            ?bound_states_opts_update, ?normconsts_opts_update; auto.
Qed.

(** ** More on the continuous spectrum *)

(** X21.  Whatever [contspec_assemble] returns, it has written at most the
    first [M] slots of [contspec] for the reflection coefficient, the first
    [2 M] for the raw coefficients and the first [3 M] for both: the array
    keeps its length and every slot from there on is what it was. *)
Theorem contspec_assemble_footprint M T eps_t boundary_coeff contspec_type
    (scatter_coeffs : nat → COMPLEX) (xi cs : list COMPLEX) res :
  let blocks := match contspec_type with
                | nsev_cstype_REFLECTION_COEFFICIENT => 1%nat
                | nsev_cstype_AB => 2%nat
                | _ => 3%nat
                end in
  let cs' := match res with Continue c => c | Return _ c => c end in
  contspec_assemble M T eps_t boundary_coeff contspec_type scatter_coeffs xi cs
    = Some res →
  length cs' = length cs
  ∧ ∀ j, (blocks * Z.to_nat M ≤ j)%nat → cs' !! j = cs !! j.
Proof.
  intros blocks cs' Hrun.
  assert (Hrho : ∀ pf c r n,
    contspec_rho M pf scatter_coeffs xi c = Some r →
    (Z.to_nat M ≤ n)%nat →
    let c' := match r with Continue c => c | Return _ c => c end in
    length c' = length c ∧ ∀ j, (n ≤ j)%nat → c' !! j = c !! j).
  { intros pf c r n Hl Hn. unfold contspec_rho in Hl.
    pose proof (for_loop_preserves_in
      (λ t : list COMPLEX, length t = length c ∧ ∀ j, (n ≤ j)%nat → t !! j = c !! j)
      _ _ _ _ _ Hl (conj eq_refl (λ _ _, eq_refl))) as Hp.
    destruct r; apply Hp; intros i t r' Hi Hb (Hlen & Hsame);
      (destruct (Cis0 _);
       [injection Hb as <-; done
       |open_stores Hb; rewrite length_insert; split; [done|];
        intros j Hj; rewrite list_lookup_insert_ne by lia; by apply Hsame]). }
  assert (Hab : ∀ off pa pb c r n,
    contspec_ab M off pa pb scatter_coeffs xi c = Some r →
    (off + 2 * Z.to_nat M ≤ n)%nat →
    let c' := match r with Continue c => c | Return _ c => c end in
    length c' = length c ∧ ∀ j, (n ≤ j)%nat → c' !! j = c !! j).
  { intros off pa pb c r n Hl Hn. unfold contspec_ab in Hl.
    pose proof (for_loop_preserves_in
      (λ t : list COMPLEX, length t = length c ∧ ∀ j, (n ≤ j)%nat → t !! j = c !! j)
      _ _ _ _ _ Hl (conj eq_refl (λ _ _, eq_refl))) as Hp.
    destruct r; apply Hp; intros i t r' Hi Hb (Hlen & Hsame);
      (open_stores Hb; rewrite !length_insert; split; [done|];
       intros j Hj; rewrite !list_lookup_insert_ne by lia; by apply Hsame). }
  unfold contspec_assemble in Hrun. cbv zeta in Hrun.
  subst blocks cs'. destruct contspec_type.
  - eapply Hrho; [exact Hrun | lia].
  - eapply Hab; [exact Hrun | lia].
  - apply bind_Some in Hrun as (filled & Hfill & Hrun).
    eapply (Hrho _ _ _ (3 * Z.to_nat M)%nat) in Hfill as (Hlen & Hsame); [|lia].
    destruct filled as [c1|rc c1].
    + eapply (Hab _ _ _ _ _ (3 * Z.to_nat M)%nat) in Hrun as (Hlen' & Hsame'); [|lia].
      split; [congruence|]. intros j Hj. rewrite Hsame' by done. by apply Hsame.
    + injection Hrun as <-. split; [done|]. exact Hsame.
  - injection Hrun as <-. by split.
Qed.

(** X22.  Where [==] is the comparison of IEEE 754 the test
    [boundary_coeff == NAN] of [fnft_nsev_slow_base] rejects nothing.  With
    the two blocks allocated and the engine succeeding, the continuous
    spectrum is what [contspec_assemble] makes of the coefficients of the
    engine on the grid [xi[i] = XI[0] + i (XI[1] - XI[0])/(M - 1)], whatever
    the boundary coefficient of the descriptor is. *)
Theorem base_contspec_nan_check_is_dead D q r T M XI kappa eps_t o
    (cs : list COMPLEX) (scatter_coeffs : nat → COMPLEX) :
  let eps_xi := Rdiv (Rsub (snd XI) (fst XI)) (RofZ (usub M 1)) in
  let xi := xi_grid XI eps_xi M in
  (∀ x, Reqb x NAN = false) →
  malloc_ok M = true → malloc_ok (umul 4 M) = true →
  nse_scatter_matrix D q r eps_t kappa M xi (discretization o) 0
    = (SUCCESS, scatter_coeffs) →
  base_contspec D q r T M (Some XI) kappa eps_t o cs
  = contspec_assemble M T eps_t
      (nse_discretization_boundary_coeff (discretization o))
      (contspec_type o) scatter_coeffs xi cs.
Proof.
  intros eps_xi xi Hieee HM H4M Heng. unfold base_contspec, malloc_block.
  rewrite HM, H4M. cbn [mbind option_bind]. fold eps_xi. fold xi.
  rewrite Heng. rewrite decide_False by (intros Hne; by apply Hne).
  by rewrite Hieee.
Qed.
End NsevSlow.

(** * The properties on binary64 numbers and on sample inputs *)

(** ** Order of binary64 numbers *)





(** The comparison with [NAN] in [refine_roots_newton] and in
    [fnft_nsev_slow_base] is false for every operand. *)
Lemma binary64_eqb_nan (x : float) : PrimFloat.eqb x nan = false.
Proof.
  rewrite FloatAxioms.eqb_spec. unfold SFeqb.
  change (Prim2SF nan) with S754_nan.
  destruct (Prim2SF x); reflexivity.
Qed.

(** ** Sample runs *)

(** A call with [D = 1] is rejected and writes nothing. *)
Lemma fnft_nsev_slow_invalid_argument_witness :
  let m := mk_mem (Some [(9, 9)%float]) (Some 1) (Some [(0, 1)%float])
                  (Some [(9, 9)%float]) None default_opts in
  1 < 2
  ∧ fnft_nsev_slow Reference.D_scale Reference.method_order
      Reference.boundary_coeff Reference.malloc_ok Reference.uninit
      Reference.misc_resample Reference.misc_l2norm2 Reference.misc_filter
      Reference.misc_merge Reference.nse_scatter_matrix
      Reference.nse_scatter_bound_states
      1 (Some [(1, 0)%float]) (Some (0, 1)%float) 1 (Some (-1, 1)%float) 1 m
    = Some (E_INVALID_ARGUMENT, m).
Proof.
  intros m. split; [lia|].
  apply fnft_nsev_slow_invalid_argument. left. lia.
Defined.

(** A defocusing run ([kappa = -1]) on four samples: the continuous spectrum
    is computed, [*K_ptr] becomes 0, the two arrays of the discrete spectrum
    are not written. *)
Lemma fnft_nsev_slow_no_discrete_spectrum_witness :
  let q := [(0.5, 0); (1, 0); (1, 0); (0.5, 0)]%float in
  let m := mk_mem (Some [(9, 9); (9, 9)]%float) (Some 2)
                  (Some [(0, 1); (0.5, 1)]%float)
                  (Some [(7, 7); (7, 7)]%float) None default_opts in
  match fnft_nsev_slow Reference.D_scale Reference.method_order
          Reference.boundary_coeff Reference.malloc_ok Reference.uninit
          Reference.misc_resample Reference.misc_l2norm2 Reference.misc_filter
          Reference.misc_merge Reference.nse_scatter_matrix
          Reference.nse_scatter_bound_states
          4 (Some q) (Some (-1.5, 1.5)%float) 2 (Some (-1, 1)%float) (-1) m
  with
  | Some (SUCCESS, m') =>
      K_ptr m' = Some 0
      ∧ bound_states m' = Some [(0, 1); (0.5, 1)]%float
      ∧ normconsts_or_residues m' = Some [(7, 7); (7, 7)]%float
  | _ => False
  end.
Proof.
  intros q m.
  pose proof (fnft_nsev_slow_no_discrete_spectrum
                Reference.D_scale Reference.method_order
                Reference.boundary_coeff Reference.malloc_ok Reference.uninit
                Reference.misc_resample Reference.misc_l2norm2
                Reference.misc_filter Reference.misc_merge
                Reference.nse_scatter_matrix Reference.nse_scatter_bound_states
                4 (Some q) (Some (-1.5, 1.5)%float) 2 (Some (-1, 1)%float) (-1) m)
    as Hspec.
  remember (fnft_nsev_slow _ _ _ _ _ _ _ _ _ _ _ _ _ _ _ _ _ _) as run eqn:Hrun
    in Hspec |- *.
  vm_compute in Hrun. subst run.
  apply Hspec; [reflexivity | left; reflexivity | discriminate].
Defined.

(** The reflection coefficient on a grid of two points, with [S11] equal to
    1 and 5 and [S21] equal to 3 and 7. *)
Lemma contspec_assemble_spec_witness :
  let scatter_coeffs := λ k : nat, (Binary64.of_Z (1 + Z.of_nat k), 0%float) in
  let xi := [(-1, 0); (1, 0)]%float in
  let T := (-1, 1)%float in
  let phi_rho := Rmul (Ropp (RofQ 2.0)) (Radd (snd T) (Rmul 0.5%float 0.5%float)) in
  length xi = Z.to_nat 2
  ∧ ∃ cs',
      contspec_assemble 2 T 0.5%float 0.5%float
        nsev_cstype_REFLECTION_COEFFICIENT scatter_coeffs xi
        [(9, 9); (9, 9)]%float
      = Some (Continue cs')
      ∧ cs' !! 1%nat
        = Some (Cdiv (Cmul (scatter_coeffs 6%nat)
                           (CEXP (Cscale phi_rho (Cmul I (1, 0)%float))))
                     (scatter_coeffs 4%nat)).
Proof.
  intros scatter_coeffs xi T phi_rho. split; [reflexivity|].
  destruct (contspec_assemble_spec 2 T 0.5%float 0.5%float
              nsev_cstype_REFLECTION_COEFFICIENT scatter_coeffs xi
              [(9, 9); (9, 9)]%float)
    as [_ Hvalues]; [left; left; reflexivity | reflexivity | simpl; lia |].
  destruct Hvalues as (cs' & Hrun & Hrho & _).
  { intros _ i Hi. destruct i as [|[|i]]; [reflexivity | reflexivity | simpl in Hi; lia]. }
  exists cs'. split; [exact Hrun|].
  apply (Hrho (or_introl eq_refl) 1%nat (1, 0)%float). reflexivity.
Defined.


(** Two bound states, output kind "both", an engine with [a' = 1] and
    [b = 2]: norming constants in slots 0 and 1, residues in slots 2 and 3. *)
Lemma compute_normconsts_or_residues_spec_witness :
  let engine := Reference.single_zero (0, 0.5)%float (2, 0)%float in
  let o := set_discspec_type nsev_dstype_BOTH default_opts in
  let q := [(1, 0); (1, 0)]%float in
  let bound_states := [(0, 1); (1, 1)]%float in
  0 < 2
  ∧ ∃ ncr',
      compute_normconsts_or_residues Reference.malloc_ok Reference.uninit engine
        2 (Some q) None (0, 1)%float 2 bound_states
        [(9, 9); (9, 9); (9, 9); (9, 9)]%float o
      = Some (SUCCESS, ncr')
      ∧ ncr' !! 1%nat = Some (2, 0)%float
      ∧ ncr' !! 3%nat = Some (Cdiv (2, 0)%float (1, 0)%float).
Proof.
  intros engine o q bound_states. split; [lia|].
  edestruct (compute_normconsts_or_residues_spec
               Reference.malloc_ok Reference.uninit engine
               2 q None (0, 1)%float 2 bound_states
               [(9, 9); (9, 9); (9, 9); (9, 9)]%float o)
    as [_ Hvalues];
    [lia | lia | reflexivity | simpl; lia | reflexivity | right; reflexivity
     | simpl; lia |].
  destruct Hvalues as (ncr' & Hrun & _ & Hres & Hnorm).
  { intros i _. reflexivity. }
  exists ncr'. split; [exact Hrun|]. split.
  - apply (Hnorm eq_refl 1%nat). simpl. lia.
  - apply (Hres 1%nat). simpl. lia.
Defined.

(** Five samples, two requested: the stride is [ROUND(5/2) = 3] and two
    samples are kept, [q[0]] and [q[3]]. *)
Lemma signal_effective_from_signal_BO_witness :
  let q := [(1, 0); (2, 0); (3, 0); (4, 0); (5, 1)]%float in
  2 ≤ 5
  ∧ ∃ q_eff r_eff,
      signal_effective_from_signal Reference.D_scale Reference.malloc_ok
        Reference.uninit Reference.misc_resample
        5 (Some q) 1%float 1
        (mk_cells (Some 2) (Some None) (Some None) (Some (0, 0)))
        nse_discretization_BO
      = Some (SUCCESS,
              mk_cells (Some 2) (Some (Some q_eff)) (Some (Some r_eff))
                       (Some (0, 3)))
      ∧ q_eff !! 1%nat = Some (4, 0)%float
      ∧ r_eff !! 1%nat = Some (Cscale (RofZ (- 1)) (CONJ (4, 0)%float)).
Proof.
  intros q. split; [lia|].
  destruct (signal_effective_from_signal_BO
              Reference.D_scale Reference.malloc_ok Reference.uninit
              Reference.misc_resample 5 q 1%float 1 2 None None (0, 0))
    as (_ & q_eff & r_eff & Hrun & _ & _ & Hvalues);
    [lia | reflexivity | reflexivity | reflexivity
     | split; [by vm_compute | reflexivity] | reflexivity | |].
  { intros i Hi.
    change (i < 2)%nat in Hi. change (i * 3 < 5)%nat. lia. }
  exists q_eff, r_eff. split; [exact Hrun|].
  destruct (Hvalues 1%nat) as (x & Hx & Hq & Hr); [by vm_compute|].
  change (q !! 3%nat = Some x) in Hx. injection Hx as <-. auto.
Defined.

(** The scheme CF4_2 on five samples: the resampler returns the effective
    signal, [nse_scatter_matrix] rejects the scheme. *)
Lemma nse_scatter_matrix_accepts_BO_only_witness :
  let q := [(1, 0); (2, 0); (3, 0); (4, 0); (5, 1)]%float in
  let akns :=
    λ (D : Z) (q r : list Binary64.complex) (eps_t : float) (K : Z)
      (lambda result : list Binary64.complex) (d : akns_discretization_t),
      (SUCCESS, result) in
  match signal_effective_from_signal Reference.D_scale Reference.malloc_ok
          Reference.uninit Reference.misc_resample
          5 (Some q) 1%float 1
          (mk_cells (Some 3) (Some None) (Some None) (Some (0, 0)))
          nse_discretization_CF4_2
  with
  | Some (rc, cells') =>
      rc = SUCCESS ∧ Dsub_ptr cells' = Some 3 ∧ first_last_index cells' = Some (0, 4)
  | None => False
  end
  ∧ NseScatterMatrix.nse_scatter_matrix Reference.malloc_ok Reference.uninit akns
      5 (Some q) 1%float 1 1 (Some [(0, 1)%float])
      (Some (replicate 4 (9, 9)%float)) nse_discretization_CF4_2
    = Some (E_INVALID_ARGUMENT, Some (replicate 4 (9, 9)%float)).
Proof.
  intros q akns.
  destruct (nse_scatter_matrix_accepts_BO_only
              Reference.D_scale Reference.malloc_ok Reference.uninit
              Reference.misc_resample akns) as [Hrejects Haccepts].
  split; [|by apply Hrejects].
  specialize (Haccepts nse_discretization_CF4_2 5 (Some q) 1%float 1
                (mk_cells (Some 3) (Some None) (Some None) (Some (0, 0)))).
  remember (signal_effective_from_signal _ _ _ _ _ _ _ _ _ _) as run eqn:Hrun
    in Haccepts |- *.
  vm_compute in Hrun. subst run.
  split; [|split; reflexivity].
  eapply Haccepts; [apply list_elem_of_here | ..];
    first [reflexivity | discriminate | lia].
Defined.


(** A signal of two samples on [[0, 1]], for which the region is
    [|re| <= 1.41..], [0 <= im <= 1.5], and an engine whose only zero
    [-0.5 i] lies below the real axis: from the admissible guess [i] the
    first update gives [-0.5 i], and this value is kept. *)
Lemma refine_roots_newton_keeps_updated_value_witness :
  let engine := Reference.single_zero (0, -0.5)%float (1, 0)%float in
  let q := [(2, 0); (2, 0)]%float in
  let update := newton_update engine 2 q None (0, 1)%float nse_discretization_BO in
  0 < 10
  ∧ refine_roots_newton Reference.D_scale Reference.misc_l2norm2 engine
      2 (Some q) None (Some (0, 1)%float) 1 (Some [(0, 1)%float])
      nse_discretization_BO 10
    = Some (SUCCESS, Some [(0, -0.5)%float])
  ∧ ∃ n : nat, (1 ≤ n)%nat
      ∧ [(0, -0.5)%float] !! 0%nat = Some (Nat.iter n update (0, 1)%float).
Proof.
  intros engine q update. split; [lia|].
  assert (Hrun : refine_roots_newton Reference.D_scale Reference.misc_l2norm2 engine
                   2 (Some q) None (Some (0, 1)%float) 1 (Some [(0, 1)%float])
                   nse_discretization_BO 10
                 = Some (SUCCESS, Some [(0, -0.5)%float])) by (by vm_compute).
  split; [exact Hrun|].
  destruct (refine_roots_newton_keeps_updated_value
              Reference.D_scale Reference.misc_l2norm2 engine
              2 q None (0, 1)%float 1 [(0, 1)%float] [(0, -0.5)%float]
              nse_discretization_BO 10 ltac:(lia) Hrun 0%nat (0, 1)%float)
    as (n & Hn & _ & Hkept & _); [simpl; lia | reflexivity |].
  exists n. split; [exact Hn | exact Hkept].
Defined.

(** C1 as it is stated fails on the same signal.
    - With the zero of the engine at [-0.5 i], the guess [i] is admissible
      and its update is not: the value kept is the update [-0.5 i], not the
      last admissible value [i].
    - With the zero of the engine at [0.5 i], the guess [-i] lies outside
      the region before the iteration begins: it is not returned
      unmodified, the value kept is [0.5 i]. *)
Lemma refine_roots_newton_keeps_last_admissible_counterexample :
  let q := [(2, 0); (2, 0)]%float in
  let T := (0, 1)%float in
  let im_bound_val :=
    Rmul (RofZ (umul 1 1)) (im_bound Reference.misc_l2norm2 2 q T) in
  let re_bound_val := re_bound (Rdiv (Rsub (snd T) (fst T)) (RofZ (usub 2 1))) in
  let refine engine guess :=
    refine_roots_newton Reference.D_scale Reference.misc_l2norm2 engine
      2 (Some q) None (Some T) 1 (Some [guess]) nse_discretization_BO 10 in
  let below := Reference.single_zero (0, -0.5)%float (1, 0)%float in
  let above := Reference.single_zero (0, 0.5)%float (1, 0)%float in
  ¬ (∀ guess kept : Binary64.complex,
       out_of_region im_bound_val re_bound_val guess = false →
       out_of_region im_bound_val re_bound_val
         (newton_update below 2 q None T nse_discretization_BO guess) = true →
       refine below guess = Some (SUCCESS, Some [kept]) →
       kept = guess)
  ∧ ¬ (∀ guess kept : Binary64.complex,
         out_of_region im_bound_val re_bound_val guess = true →
         refine above guess = Some (SUCCESS, Some [kept]) →
         kept = guess).
Proof.
  intros q T im_bound_val re_bound_val refine below above. split.
  - intros Hclaim.
    specialize (Hclaim (0, 1)%float (0, -0.5)%float).
    assert (Heq : (0, -0.5)%float = (0, 1)%float)
      by (apply Hclaim; by vm_compute).
    apply (f_equal (λ z : Binary64.complex, PrimFloat.eqb (snd z) 1)) in Heq.
    vm_compute in Heq. discriminate.
  - intros Hclaim.
    specialize (Hclaim (0, -1)%float (0, 0.5)%float).
    assert (Heq : (0, 0.5)%float = (0, -1)%float)
      by (apply Hclaim; by vm_compute).
    apply (f_equal (λ z : Binary64.complex, PrimFloat.eqb (snd z) 0.5)) in Heq.
    vm_compute in Heq. discriminate.
Qed.

(** C2 fails on the code: the calculator is invoked with the count that
    [*K_ptr] holds on entry, before [*K_ptr = K] stores the count that is
    left after the filter and merge passes.

    On four samples, with both guesses in the basin of the same zero and
    the BOTH layout requested: the run succeeds and reports one bound
    state, and the output buffer is what the calculator returns for two
    bound states, not for one.  Slot 1, where the residue of the one
    retained bound state belongs, holds the norming constant of the
    discarded duplicate, and slots 2 and 3 are overwritten as well. *)
Theorem fnft_nsev_slow_calculator_count_failing_input :
  let q := [(0.5, 0); (1, 0); (1, 0); (0.5, 0)]%float in
  let r := [(-0.5, 0); (-1, 0); (-1, 0); (-0.5, 0)]%float in
  let T := (-1.5, 1.5)%float in
  let o := set_discspec_type nsev_dstype_BOTH default_opts in
  let ncr0 := replicate 4 (7, 7)%float in
  let m := mk_mem (Some (replicate 4 (9, 9)%float)) (Some 2)
                  (Some [(0, 1); (0.5, 1)]%float) (Some ncr0)
                  (Some o) default_opts in
  let calculator K bs :=
    compute_normconsts_or_residues Reference.malloc_ok Reference.uninit
      Reference.nse_scatter_bound_states 4 (Some q) (Some r) T K bs ncr0 o in
  ∃ m' bs ncr ncr1,
    fnft_nsev_slow Reference.D_scale Reference.method_order
      Reference.boundary_coeff Reference.malloc_ok Reference.uninit
      Reference.misc_resample Reference.misc_l2norm2 Reference.misc_filter
      Reference.misc_merge Reference.nse_scatter_matrix
      Reference.nse_scatter_bound_states
      4 (Some q) (Some T) 4 (Some (-1, 1)%float) 1 m = Some (SUCCESS, m')
    ∧ K_ptr m = Some 2
    ∧ K_ptr m' = Some 1
    ∧ bound_states m' = Some bs
    ∧ normconsts_or_residues m' = Some ncr
    ∧ calculator 2 bs = Some (SUCCESS, ncr)
    ∧ calculator 1 bs = Some (SUCCESS, ncr1)
    ∧ ncr !! 1%nat = ncr !! 0%nat
    ∧ ncr1 !! 1%nat ≠ ncr !! 1%nat
    ∧ ncr1 !! 2%nat = Some (7, 7)%float
    ∧ ncr !! 2%nat ≠ Some (7, 7)%float.
Proof.
  intros q r T o ncr0 m calculator.
  eexists _, _, _, _.
  split; [by vm_compute|].
  split; [reflexivity|].
  split; [reflexivity|].
  split; [reflexivity|].
  split; [reflexivity|].
  split; [by vm_compute|].
  split; [by vm_compute|].
  split; [reflexivity|].
  split.
  { intros Heq.
    apply (f_equal (λ s : option Binary64.complex,
                      match s with
                      | Some z => PrimFloat.eqb (fst z) (-1.75)
                      | None => false
                      end)) in Heq.
    vm_compute in Heq. discriminate. }
  split; [reflexivity|].
  intros Heq.
  apply (f_equal (λ s : option Binary64.complex,
                    match s with
                    | Some z => PrimFloat.eqb (fst z) 7
                    | None => false
                    end)) in Heq.
  vm_compute in Heq. discriminate.
Qed.

(** ** Sample runs of the resampler *)

(** The scheme CF4_2 with a [misc_resample] that fails: the error code
    comes back and the four output cells are untouched. *)
Lemma signal_effective_from_signal_error_frame_witness :
  let q := [(1, 0); (2, 0); (3, 0); (4, 0); (5, 1)]%float in
  let failing_resample :=
    λ (D : Z) (eps_t : float) (q : list Binary64.complex) (delta : float),
      (E_OTHER, λ _ : nat, (0, 0)%float) in
  let cells := mk_cells (Some 3) (Some None) (Some None) (Some (0, 0)) in
  match signal_effective_from_signal Reference.D_scale Reference.malloc_ok
          Reference.uninit failing_resample
          5 (Some q) 1%float 1 cells nse_discretization_CF4_2
  with
  | Some (rc, cells') => rc = E_OTHER ∧ cells' = cells
  | None => False
  end.
Proof.
  intros q failing_resample cells.
  pose proof (signal_effective_from_signal_error_frame
                Reference.D_scale Reference.malloc_ok Reference.uninit
                failing_resample 5 (Some q) 1%float 1 cells
                nse_discretization_CF4_2) as Hspec.
  remember (signal_effective_from_signal _ _ _ _ _ _ _ _ _ _) as run eqn:Hrun
    in Hspec |- *.
  vm_compute in Hrun. subst run.
  split; [reflexivity|]. apply (Hspec _ _ eq_refl). discriminate.
Defined.

(** A step size of zero is rejected. *)
Lemma signal_effective_from_signal_invalid_argument_witness :
  let q := [(1, 0); (2, 0); (3, 0); (4, 0); (5, 1)]%float in
  let cells := mk_cells (Some 3) (Some None) (Some None) (Some (0, 0)) in
  Rleb 0%float (RofQ 0.0) = true
  ∧ signal_effective_from_signal Reference.D_scale Reference.malloc_ok
      Reference.uninit Reference.misc_resample
      5 (Some q) 0%float 1 cells nse_discretization_BO
    = Some (E_INVALID_ARGUMENT, cells).
Proof.
  intros q cells.
  assert (Heps : Rleb 0%float (RofQ 0.0) = true) by (by vm_compute).
  split; [exact Heps|].
  apply signal_effective_from_signal_invalid_argument.
  do 5 right. left. exact Heps.
Defined.

(** The scheme 2SPLIT1A, with a descriptor that gives it the scale 1, is
    not resampled. *)
Lemma signal_effective_from_signal_unknown_discretization_witness :
  let q := [(1, 0); (2, 0); (3, 0); (4, 0); (5, 1)]%float in
  let cells := mk_cells (Some 3) (Some None) (Some None) (Some (0, 0)) in
  match signal_effective_from_signal (λ _, 1) Reference.malloc_ok
          Reference.uninit Reference.misc_resample
          5 (Some q) 1%float 1 cells nse_discretization_2SPLIT1A
  with
  | Some (rc, cells') => rc = E_INVALID_ARGUMENT ∧ cells' = cells
  | None => False
  end.
Proof.
  intros q cells.
  pose proof (signal_effective_from_signal_unknown_discretization
                (λ _, 1) Reference.malloc_ok Reference.uninit
                Reference.misc_resample 5 (Some q) 1%float 1 cells
                nse_discretization_2SPLIT1A) as Hspec.
  remember (signal_effective_from_signal _ _ _ _ _ _ _ _ _ _) as run eqn:Hrun
    in Hspec |- *.
  vm_compute in Hrun. subst run.
  split; [reflexivity|]. eapply Hspec; [|reflexivity].
  rewrite !not_elem_of_cons. repeat split; try discriminate.
  apply not_elem_of_nil.
Defined.

(** The scheme CF4_2 on five samples, three requested: the stride is 2,
    three samples are kept, and the effective arrays have six elements. *)
Lemma signal_effective_from_signal_success_shape_witness :
  let q := [(1, 0); (2, 0); (3, 0); (4, 0); (5, 1)]%float in
  let cells := mk_cells (Some 3) (Some None) (Some None) (Some (0, 0)) in
  ∃ qe re,
    signal_effective_from_signal Reference.D_scale Reference.malloc_ok
      Reference.uninit Reference.misc_resample
      5 (Some q) 1%float 1 cells nse_discretization_CF4_2
    = Some (SUCCESS,
            mk_cells (Some 3) (Some (Some qe)) (Some (Some re)) (Some (0, 4)))
    ∧ length qe = 6%nat ∧ length re = 6%nat.
Proof.
  intros q cells.
  pose proof (signal_effective_from_signal_success_shape
                Reference.D_scale Reference.malloc_ok Reference.uninit
                Reference.misc_resample 5 (Some q) 1%float 1 cells
                nse_discretization_CF4_2) as Hspec.
  remember (signal_effective_from_signal _ _ _ _ _ _ _ _ _ _) as run eqn:Hrun
    in Hspec |- *.
  vm_compute in Hrun. subst run.
  destruct (Hspec _ 3 eq_refl eq_refl) as (qe & re & Hcells & Hq & Hr).
  exists qe, re. split; [|split; [exact Hq | exact Hr]].
  rewrite Hcells. reflexivity.
Defined.

(** The scheme ES4 on five samples, three requested: every slot of the
    effective co-field is the co-field of the slot of the effective
    signal. *)
Lemma signal_effective_from_signal_cofield_witness :
  let q := [(1, 0); (2, 0); (3, 0); (4, 0); (5, 1)]%float in
  let cells := mk_cells (Some 3) (Some None) (Some None) (Some (0, 0)) in
  match signal_effective_from_signal Reference.D_scale Reference.malloc_ok
          Reference.uninit Reference.misc_resample
          5 (Some q) 1%float 1 cells nse_discretization_ES4
  with
  | Some (rc, cells') =>
      rc = SUCCESS
      ∧ ∃ qe re,
          q_effective_ptr cells' = Some (Some qe)
          ∧ r_effective_ptr cells' = Some (Some re)
          ∧ length re = length qe
          ∧ ∀ j x, qe !! j = Some x → re !! j = Some (cofield 1 x)
  | None => False
  end.
Proof.
  intros q cells.
  pose proof (signal_effective_from_signal_cofield
                Reference.D_scale Reference.malloc_ok Reference.uninit
                Reference.misc_resample 5 (Some q) 1%float 1 cells
                nse_discretization_ES4) as Hspec.
  remember (signal_effective_from_signal _ _ _ _ _ _ _ _ _ _) as run eqn:Hrun
    in Hspec |- *.
  vm_compute in Hrun. subst run.
  split; [reflexivity|]. eapply Hspec; [|reflexivity].
  do 3 apply list_elem_of_further. apply list_elem_of_here.
Defined.

(** ** Sample runs of the calculator and of the Newton refinement *)

(** Two bound states, norming constants only, an engine with [b = 2]: the
    third slot of the array is not touched. *)
Lemma compute_normconsts_only_witness :
  let engine := Reference.single_zero (0, 0.5)%float (2, 0)%float in
  let q := [(1, 0); (1, 0)]%float in
  let bound_states := [(0, 1); (1, 1)]%float in
  0 < 2
  ∧ ∃ ncr',
      compute_normconsts_or_residues Reference.malloc_ok Reference.uninit engine
        2 (Some q) None (0, 1)%float 2 bound_states
        [(9, 9); (9, 9); (9, 9)]%float default_opts
      = Some (SUCCESS, ncr')
      ∧ ncr' !! 1%nat = Some (2, 0)%float
      ∧ ncr' !! 2%nat = Some (9, 9)%float.
Proof.
  intros engine q bound_states. split; [lia|].
  edestruct (compute_normconsts_only
              Reference.malloc_ok Reference.uninit engine
              2 q None (0, 1)%float 2 bound_states
              [(9, 9); (9, 9); (9, 9)]%float default_opts)
    as (ncr' & Hrun & _ & Hb & Hrest);
    [lia | lia | reflexivity | simpl; lia | reflexivity | reflexivity
     | simpl; lia |].
  exists ncr'. split; [exact Hrun|]. split.
  - apply (Hb 1%nat). simpl. lia.
  - apply (Hrest 2%nat). simpl. lia.
Defined.

(** The same call with an output kind that does not exist: the call is
    rejected, the norming constants are in the array all the same. *)
Lemma compute_normconsts_or_residues_unknown_type_witness :
  let engine := Reference.single_zero (0, 0.5)%float (2, 0)%float in
  let o := set_discspec_type (nsev_dstype_other 7) default_opts in
  let q := [(1, 0); (1, 0)]%float in
  let bound_states := [(0, 1); (1, 1)]%float in
  0 < 2
  ∧ ∃ ncr',
      compute_normconsts_or_residues Reference.malloc_ok Reference.uninit engine
        2 (Some q) None (0, 1)%float 2 bound_states
        [(9, 9); (9, 9); (9, 9)]%float o
      = Some (E_INVALID_ARGUMENT, ncr')
      ∧ ncr' !! 1%nat = Some (2, 0)%float.
Proof.
  intros engine o q bound_states. split; [lia|].
  edestruct (compute_normconsts_or_residues_unknown_type
              Reference.malloc_ok Reference.uninit engine
              2 q None (0, 1)%float 2 bound_states
              [(9, 9); (9, 9); (9, 9)]%float o 7)
    as (ncr' & Hrun & _ & Hb & _);
    [lia | lia | reflexivity | simpl; lia | reflexivity | reflexivity
     | simpl; lia |].
  exists ncr'. split; [exact Hrun|]. apply (Hb 1%nat). simpl. lia.
Defined.

(** One bound state, both kinds requested, an array of three slots: the
    third slot is not touched. *)
Lemma compute_normconsts_or_residues_footprint_witness :
  let engine := Reference.single_zero (0, 0.5)%float (2, 0)%float in
  let o := set_discspec_type nsev_dstype_BOTH default_opts in
  let ncr := [(9, 9); (9, 9); (7, 7)]%float in
  match compute_normconsts_or_residues Reference.malloc_ok Reference.uninit engine
          2 (Some [(1, 0); (1, 0)]%float) None (0, 1)%float 1 [(0, 1)%float] ncr o
  with
  | Some (rc, ncr') =>
      rc = SUCCESS ∧ length ncr' = 3%nat ∧ ncr' !! 2%nat = Some (7, 7)%float
  | None => False
  end.
Proof.
  intros engine o ncr.
  pose proof (compute_normconsts_or_residues_footprint
                Reference.malloc_ok Reference.uninit engine
                2 (Some [(1, 0); (1, 0)]%float) None (0, 1)%float 1
                [(0, 1)%float] ncr o) as Hspec.
  remember (compute_normconsts_or_residues _ _ _ _ _ _ _ _ _ _ _) as run eqn:Hrun
    in Hspec |- *.
  vm_compute in Hrun. subst run.
  destruct (Hspec _ _ eq_refl) as (Hlen & Hrest).
  split; [reflexivity|]. split; [exact Hlen|].
  apply (Hrest 2%nat). simpl. lia.
Defined.

(** Two bound states, residues requested, an engine whose derivative is 0
    at the second one: the first slot holds a residue, the second one still
    the norming constant. *)
Lemma compute_residues_first_zero_derivative_witness :
  let engine :=
    λ (D : Z) (q : list Binary64.complex) (r : option (list Binary64.complex))
      (T : float * float) (K : Z) (bound_states : list Binary64.complex)
      (d : nse_discretization_t) (skip_b_flag : Z),
      (SUCCESS, λ _ : nat, (0, 0)%float,
       λ k : nat, match k with 1%nat => (0, 0)%float | _ => (1, 0)%float end,
       λ _ : nat, (2, 0)%float) in
  let o := set_discspec_type nsev_dstype_RESIDUES default_opts in
  let q := [(1, 0); (1, 0)]%float in
  let bound_states := [(0, 1); (1, 1)]%float in
  0 < 2
  ∧ ∃ ncr',
      compute_normconsts_or_residues Reference.malloc_ok Reference.uninit engine
        2 (Some q) None (0, 1)%float 2 bound_states
        [(9, 9); (9, 9)]%float o
      = Some (E_DIV_BY_ZERO, ncr')
      ∧ ncr' !! 0%nat = Some (Cdiv (2, 0)%float (1, 0)%float)
      ∧ ncr' !! 1%nat = Some (2, 0)%float.
Proof.
  intros engine o q bound_states. split; [lia|].
  destruct (compute_residues_first_zero_derivative
              Reference.malloc_ok Reference.uninit engine
              2 q None (0, 1)%float 2 bound_states
              [(9, 9); (9, 9)]%float o
              (λ _ : nat, (0, 0)%float)
              (λ k : nat, match k with 1%nat => (0, 0)%float | _ => (1, 0)%float end)
              (λ _ : nat, (2, 0)%float) 1%nat)
    as (ncr' & Hrun & Hres & Hnorm);
    [lia | lia | reflexivity | simpl; lia | reflexivity | left; reflexivity
     | simpl; lia | simpl; lia | | by vm_compute |].
  { intros i Hi. assert (i = 0%nat) as -> by lia. by vm_compute. }
  exists ncr'. split; [exact Hrun|]. split.
  - apply (Hres 0%nat). lia.
  - apply (Hnorm 1%nat). simpl. lia.
Defined.

(** One candidate to refine in an array of two: the second slot is not
    touched. *)
Lemma refine_roots_newton_footprint_witness :
  let engine := Reference.single_zero (0, 0.5)%float (1, 0)%float in
  let q := [(2, 0); (2, 0)]%float in
  match refine_roots_newton Reference.D_scale Reference.misc_l2norm2 engine
          2 (Some q) None (Some (0, 1)%float) 1 (Some [(0, 1); (7, 7)]%float)
          nse_discretization_BO 10
  with
  | Some (rc, out) =>
      rc = SUCCESS
      ∧ ∃ bs', out = Some bs' ∧ length bs' = 2%nat
               ∧ bs' !! 1%nat = Some (7, 7)%float
  | None => False
  end.
Proof.
  intros engine q.
  pose proof (refine_roots_newton_footprint
                Reference.D_scale Reference.misc_l2norm2 engine
                2 (Some q) None (Some (0, 1)%float) 1 [(0, 1); (7, 7)]%float
                nse_discretization_BO 10) as Hspec.
  remember (refine_roots_newton _ _ _ _ _ _ _ _ _ _ _) as run eqn:Hrun
    in Hspec |- *.
  vm_compute in Hrun. subst run.
  destruct (Hspec _ _ eq_refl) as (bs' & Hout & Hlen & Hrest).
  split; [reflexivity|]. exists bs'. split; [exact Hout|]. split; [exact Hlen|].
  apply (Hrest 1%nat). simpl. lia.
Defined.

(** An engine with the single zero [0.5 i] and the derivative 1: the
    refinement of one candidate succeeds. *)
Lemma refine_roots_newton_succeeds_witness :
  let engine := Reference.single_zero (0, 0.5)%float (1, 0)%float in
  let q := [(2, 0); (2, 0)]%float in
  0 < 1
  ∧ ∃ bs',
      refine_roots_newton Reference.D_scale Reference.misc_l2norm2 engine
        2 (Some q) None (Some (0, 1)%float) 1 (Some [(0, 1)%float])
        nse_discretization_BO 10
      = Some (SUCCESS, Some bs')
      ∧ length bs' = 1%nat.
Proof.
  intros engine q. split; [lia|].
  apply (refine_roots_newton_succeeds
           Reference.D_scale Reference.misc_l2norm2 engine
           2 q None (0, 1)%float 1 [(0, 1)%float] nse_discretization_BO 10);
    [lia | lia | simpl; lia | discriminate | by vm_compute |].
  intros lam. eexists _, _. split; [reflexivity | by vm_compute].
Defined.

(** A norm routine that returns [NAN]: the bound on the imaginary parts is
    [NAN], and the refinement runs all the same. *)
Lemma refine_roots_newton_nan_check_is_dead_witness :
  let engine := Reference.single_zero (0, 0.5)%float (1, 0)%float in
  let nan_norm :=
    λ (D : Z) (q : list Binary64.complex) (a b : float), PrimFloat.nan in
  let q := [(2, 0); (2, 0)]%float in
  (∀ x : float, Reqb x NAN = false)
  ∧ match refine_roots_newton Reference.D_scale nan_norm engine
            2 (Some q) None (Some (0, 1)%float) 1 (Some [(0, 1)%float])
            nse_discretization_BO 10
    with
    | Some (rc, _) => rc = SUCCESS ∧ rc ≠ E_OTHER
    | None => False
    end.
Proof.
  intros engine nan_norm q. split; [exact binary64_eqb_nan|].
  pose proof (refine_roots_newton_nan_check_is_dead
                Reference.D_scale nan_norm engine
                2 q None (0, 1)%float 1 (Some [(0, 1)%float])
                nse_discretization_BO 10) as Hspec.
  remember (refine_roots_newton _ _ _ _ _ _ _ _ _ _ _) as run eqn:Hrun
    in Hspec |- *.
  vm_compute in Hrun. subst run.
  split; [reflexivity|].
  eapply Hspec; [exact binary64_eqb_nan | intros lam; discriminate | reflexivity].
Defined.

(** ** Sample runs of nse_scatter_matrix *)

(** No spectral point: [K = 0] is rejected. *)
Lemma nse_scatter_matrix_invalid_argument_witness :
  let akns :=
    λ (D : Z) (q r : list Binary64.complex) (eps_t : float) (K : Z)
      (lambda result : list Binary64.complex) (d : akns_discretization_t),
      (SUCCESS, result) in
  Rleb (RofZ 0) (RofQ 0.0) = true
  ∧ NseScatterMatrix.nse_scatter_matrix Reference.malloc_ok Reference.uninit akns
      2 (Some [(1, 2); (3, 4)]%float) 1%float 1 0 (Some [])
      (Some [(9, 9)%float]) nse_discretization_BO
    = Some (E_INVALID_ARGUMENT, Some [(9, 9)%float]).
Proof.
  intros akns.
  assert (HK : Rleb (RofZ 0) (RofQ 0.0) = true) by (by vm_compute).
  split; [exact HK|].
  apply nse_scatter_matrix_invalid_argument. do 4 right. left. exact HK.
Defined.

(** An engine that hands the co-field back: for [kappa = 1] the co-field of
    [1 + 2i, 3 + 4i] is [-1 + 2i, -3 + 4i]. *)
Lemma nse_scatter_matrix_BO_witness :
  let akns :=
    λ (D : Z) (q r : list Binary64.complex) (eps_t : float) (K : Z)
      (lambda result : list Binary64.complex) (d : akns_discretization_t),
      (SUCCESS, r) in
  0 < 2
  ∧ NseScatterMatrix.nse_scatter_matrix Reference.malloc_ok Reference.uninit akns
      2 (Some [(1, 2); (3, 4)]%float) 1%float 1 1 (Some [(0, 1)%float])
      (Some [(9, 9); (9, 9)]%float) nse_discretization_BO
    = Some (SUCCESS, Some [(-1, 2); (-3, 4)]%float).
Proof.
  intros akns. split; [lia|].
  rewrite (nse_scatter_matrix_BO Reference.malloc_ok Reference.uninit akns
             2 [(1, 2); (3, 4)]%float 1%float 1 1 [(0, 1)%float]
             [(9, 9); (9, 9)]%float);
    [by vm_compute | lia | simpl; lia | by vm_compute | reflexivity
     | by vm_compute | reflexivity].
Defined.

(** An allocator that refuses the block: the call has no defined result. *)
Lemma nse_scatter_matrix_failed_allocation_witness :
  let akns :=
    λ (D : Z) (q r : list Binary64.complex) (eps_t : float) (K : Z)
      (lambda result : list Binary64.complex) (d : akns_discretization_t),
      (SUCCESS, result) in
  0 < 2
  ∧ NseScatterMatrix.nse_scatter_matrix (λ _ : Z, false) Reference.uninit akns
      2 (Some [(1, 2); (3, 4)]%float) 1%float 1 1 (Some [(0, 1)%float])
      (Some [(9, 9); (9, 9)]%float) nse_discretization_BO
    = None.
Proof.
  intros akns. split; [lia|].
  apply nse_scatter_matrix_failed_allocation;
    [lia | by vm_compute | reflexivity | by vm_compute | reflexivity].
Defined.

(** ** Sample runs of fnft_nsev_slow *)

(** A run with Richardson extrapolation and residues on four samples: it
    succeeds, and the options come back with [discspec_type] at
    [nsev_dstype_RESIDUES] and the localization at [nsev_bsloc_NEWTON]. *)
Lemma fnft_nsev_slow_restores_options_witness :
  let q := [(0.5, 0); (1, 0); (1, 0); (0.5, 0)]%float in
  let o := mk_opts nsev_bsfilt_FULL nsev_bsloc_NEWTON 10 nsev_dstype_RESIDUES
                   nsev_cstype_REFLECTION_COEFFICIENT 1 nse_discretization_BO 1 in
  let m := mk_mem (Some (replicate 4 (9, 9)%float)) (Some 2)
                  (Some [(0, 1); (0.5, 1)]%float)
                  (Some (replicate 4 (7, 7)%float)) (Some o) default_opts in
  match fnft_nsev_slow Reference.D_scale Reference.method_order
          Reference.boundary_coeff Reference.malloc_ok Reference.uninit
          Reference.misc_resample Reference.misc_l2norm2 Reference.misc_filter
          Reference.misc_merge Reference.nse_scatter_matrix
          Reference.nse_scatter_bound_states
          4 (Some q) (Some (-1.5, 1.5)%float) 4 (Some (-1, 1)%float) 1 m
  with
  | Some (rc, m') =>
      rc = SUCCESS ∧ opts m' = Some o ∧ static_default_opts m' = default_opts
  | None => False
  end.
Proof.
  intros q o m.
  pose proof (fnft_nsev_slow_restores_options
                Reference.D_scale Reference.method_order
                Reference.boundary_coeff Reference.malloc_ok Reference.uninit
                Reference.misc_resample Reference.misc_l2norm2
                Reference.misc_filter Reference.misc_merge
                Reference.nse_scatter_matrix Reference.nse_scatter_bound_states
                4 (Some q) (Some (-1.5, 1.5)%float) 4 (Some (-1, 1)%float) 1 m)
    as Hspec.
  remember (fnft_nsev_slow _ _ _ _ _ _ _ _ _ _ _ _ _ _ _ _ _ _) as run eqn:Hrun
    in Hspec |- *.
  vm_compute in Hrun. subst run.
  split; [reflexivity|]. exact (Hspec _ eq_refl).
Defined.

(** The same call with the scheme 2SPLIT1A, which the descriptor does not
    know: the call is rejected, and the options come back with
    [discspec_type] at [nsev_dstype_BOTH]. *)
Lemma fnft_nsev_slow_failure_keeps_discspec_type_both_witness :
  let q := [(0.5, 0); (1, 0); (1, 0); (0.5, 0)]%float in
  let o := mk_opts nsev_bsfilt_FULL nsev_bsloc_NEWTON 10 nsev_dstype_RESIDUES
                   nsev_cstype_REFLECTION_COEFFICIENT 1
                   nse_discretization_2SPLIT1A 1 in
  let m := mk_mem (Some (replicate 4 (9, 9)%float)) (Some 2)
                  (Some [(0, 1); (0.5, 1)]%float)
                  (Some (replicate 4 (7, 7)%float)) (Some o) default_opts in
  match fnft_nsev_slow Reference.D_scale Reference.method_order
          Reference.boundary_coeff Reference.malloc_ok Reference.uninit
          Reference.misc_resample Reference.misc_l2norm2 Reference.misc_filter
          Reference.misc_merge Reference.nse_scatter_matrix
          Reference.nse_scatter_bound_states
          4 (Some q) (Some (-1.5, 1.5)%float) 4 (Some (-1, 1)%float) 1 m
  with
  | Some (rc, m') =>
      rc = E_INVALID_ARGUMENT
      ∧ discspec_type (opts_deref m') = nsev_dstype_BOTH
  | None => False
  end.
Proof.
  intros q o m.
  pose proof (fnft_nsev_slow_failure_keeps_discspec_type_both
                Reference.D_scale Reference.method_order
                Reference.boundary_coeff Reference.malloc_ok Reference.uninit
                Reference.misc_resample Reference.misc_l2norm2
                Reference.misc_filter Reference.misc_merge
                Reference.nse_scatter_matrix Reference.nse_scatter_bound_states
                4 (Some q) (-1.5, 1.5)%float 4 (Some (-1, 1)%float) 1 m)
    as Hspec.
  remember (fnft_nsev_slow _ _ _ _ _ _ _ _ _ _ _ _ _ _ _ _ _ _) as run eqn:Hrun
    in Hspec |- *.
  vm_compute in Hrun. subst run.
  split; [reflexivity|].
  eapply Hspec;
    [reflexivity | reflexivity | lia | discriminate | by vm_compute
    | intros _; eexists; split; [reflexivity | by vm_compute]
    | reflexivity | discriminate | reflexivity | discriminate].
Defined.

(** A call with [M = 0]: the array [contspec] is not written. *)
Lemma fnft_nsev_slow_no_continuous_spectrum_witness :
  let q := [(0.5, 0); (1, 0); (1, 0); (0.5, 0)]%float in
  let m := mk_mem (Some (replicate 4 (9, 9)%float)) (Some 2)
                  (Some [(0, 1); (0.5, 1)]%float)
                  (Some (replicate 4 (7, 7)%float)) None default_opts in
  match fnft_nsev_slow Reference.D_scale Reference.method_order
          Reference.boundary_coeff Reference.malloc_ok Reference.uninit
          Reference.misc_resample Reference.misc_l2norm2 Reference.misc_filter
          Reference.misc_merge Reference.nse_scatter_matrix
          Reference.nse_scatter_bound_states
          4 (Some q) (Some (-1.5, 1.5)%float) 0 (Some (-1, 1)%float) 1 m
  with
  | Some (rc, m') =>
      rc = SUCCESS ∧ K_ptr m' = Some 1
      ∧ contspec m' = Some (replicate 4 (9, 9)%float)
  | None => False
  end.
Proof.
  intros q m.
  pose proof (fnft_nsev_slow_no_continuous_spectrum
                Reference.D_scale Reference.method_order
                Reference.boundary_coeff Reference.malloc_ok Reference.uninit
                Reference.misc_resample Reference.misc_l2norm2
                Reference.misc_filter Reference.misc_merge
                Reference.nse_scatter_matrix Reference.nse_scatter_bound_states
                4 (Some q) (Some (-1.5, 1.5)%float) 0 (Some (-1, 1)%float) 1 m)
    as Hspec.
  remember (fnft_nsev_slow _ _ _ _ _ _ _ _ _ _ _ _ _ _ _ _ _ _) as run eqn:Hrun
    in Hspec |- *.
  vm_compute in Hrun. subst run.
  split; [reflexivity|]. split; [reflexivity|].
  apply (Hspec _ _ eq_refl). right. lia.
Defined.

(** One eigenvalue [i] of the full run, two of the subsampled run, [0.5 i]
    and [1.0625 i]: the second is the nearer one, and the extrapolation with
    it is [0.9375 i]. *)
Lemma richardson_bound_states_spec_witness :
  let a := mk_arrays [(0, 1)%float] None None in
  let bound_states_sub := [(0, 0.5); (0, 1.0625)]%float in
  match richardson_bound_states 0.125%float 2%float 1%float
          nsev_dstype_NORMING_CONSTANTS 1 2 bound_states_sub a
  with
  | Some a' =>
      length (ra_bound_states a') = 1%nat
      ∧ ra_reserve a' = None
      ∧ ∃ loc thr,
          nearest_sub 0.125%float (0, 1)%float bound_states_sub 2 = Some (loc, thr)
          ∧ ra_bound_states a' !! 0%nat
            = (if decide (loc < 2)%nat
               then (λ y, Cdivr (Csub (Cscale 2%float (0, 1)%float) y) 1%float)
                      <$> bound_states_sub !! loc
               else Some (0, 1)%float)
  | None => False
  end.
Proof.
  intros a bound_states_sub.
  pose proof (richardson_bound_states_spec 0.125%float 2%float 1%float
                nsev_dstype_NORMING_CONSTANTS 1 2 bound_states_sub a) as Hspec.
  remember (richardson_bound_states _ _ _ _ _ _ _ _) as run eqn:Hrun
    in Hspec |- *.
  vm_compute in Hrun. subst run.
  destruct (Hspec _ eq_refl) as (Hlen & _ & Hvals & Hncr).
  split; [exact Hlen|]. split; [apply Hncr; discriminate|].
  apply (Hvals 0%nat); [simpl; lia | reflexivity].
Defined.

(** A call with the scheme 2SPLIT1A, which the descriptor does not know:
    the call is rejected and the four outputs are not written. *)
Lemma fnft_nsev_slow_unsupported_discretization_witness :
  let q := [(0.5, 0); (1, 0); (1, 0); (0.5, 0)]%float in
  let o := mk_opts nsev_bsfilt_FULL nsev_bsloc_NEWTON 10
                   nsev_dstype_NORMING_CONSTANTS
                   nsev_cstype_REFLECTION_COEFFICIENT 1
                   nse_discretization_2SPLIT1A 0 in
  let m := mk_mem (Some (replicate 4 (9, 9)%float)) (Some 2)
                  (Some [(0, 1); (0.5, 1)]%float)
                  (Some (replicate 2 (7, 7)%float)) (Some o) default_opts in
  match fnft_nsev_slow Reference.D_scale Reference.method_order
          Reference.boundary_coeff Reference.malloc_ok Reference.uninit
          Reference.misc_resample Reference.misc_l2norm2 Reference.misc_filter
          Reference.misc_merge Reference.nse_scatter_matrix
          Reference.nse_scatter_bound_states
          4 (Some q) (Some (-1.5, 1.5)%float) 4 (Some (-1, 1)%float) 1 m
  with
  | Some (rc, m') =>
      rc = E_INVALID_ARGUMENT
      ∧ contspec m' = contspec m
      ∧ K_ptr m' = Some 2
      ∧ bound_states m' = bound_states m
      ∧ normconsts_or_residues m' = normconsts_or_residues m
  | None => False
  end.
Proof.
  intros q o m.
  pose proof (fnft_nsev_slow_unsupported_discretization
                Reference.D_scale Reference.method_order
                Reference.boundary_coeff Reference.malloc_ok Reference.uninit
                Reference.misc_resample Reference.misc_l2norm2
                Reference.misc_filter Reference.misc_merge
                Reference.nse_scatter_matrix Reference.nse_scatter_bound_states
                4 (Some q) (Some (-1.5, 1.5)%float) 4 (Some (-1, 1)%float) 1 m)
    as Hspec.
  remember (fnft_nsev_slow _ _ _ _ _ _ _ _ _ _ _ _ _ _ _ _ _ _) as run eqn:Hrun
    in Hspec |- *.
  vm_compute in Hrun. subst run.
  destruct (Hspec _ _ eq_refl eq_refl) as (_ & Hc & HK & Hb & Hn).
  split; [reflexivity|]. auto.
Defined.

(** ** A grid of one point *)

Lemma binary64_div_zero_mul_zero (d : float) :
  PrimFloat.mul (PrimFloat.div d 0) 0 = nan.
Proof.
  apply Prim2SF_inj. rewrite mul_spec, div_spec.
  change (Prim2SF 0) with (S754_zero false).
  change (Prim2SF nan) with S754_nan.
  destruct (Prim2SF d) as [s|s| |s m e]; reflexivity.
Qed.

Lemma binary64_add_nan (x : float) : PrimFloat.add x nan = nan.
Proof.
  apply Prim2SF_inj. rewrite add_spec.
  change (Prim2SF nan) with S754_nan.
  destruct (Prim2SF x) as [s|s| |s m e]; reflexivity.
Qed.

(** X23.  On binary64 numbers a grid of one point is not a point of the
    interval: for [M == 1] the spacing is [(XI[1] - XI[0])/(M - 1)], a
    division by zero, and [xi[0] = XI[0] + eps_xi*0] is [NAN] whatever [XI]
    is. *)
Theorem xi_grid_single_point_is_nan (XI : float * float) :
  xi_grid XI (Rdiv (Rsub (snd XI) (fst XI)) (RofZ (usub 1 1))) 1
  = [(nan, 0%float)].
Proof.
  assert (E0 : Binary64.of_Z 0 = 0%float) by (by vm_compute).
  unfold xi_grid, CofR. cbn [RofZ Radd Rmul Rdiv Rsub Cmk float_ops].
  change (usub 1 1) with 0. change (Z.to_nat 1) with 1%nat.
  cbn [seq fmap list_fmap]. change (Z.of_nat 0) with 0. rewrite E0.
  by rewrite binary64_div_zero_mul_zero, binary64_add_nan.
Qed.

(** ** Sample runs of the continuous spectrum *)

(** One grid point, the reflection coefficient, an array of two slots: the
    second slot is not written. *)
Lemma contspec_assemble_footprint_witness :
  match contspec_assemble 1 (0, 1)%float 1%float 0.5%float
          nsev_cstype_REFLECTION_COEFFICIENT
          (λ _ : nat, (1, 0)%float) [(0, 0)%float] [(9, 9); (7, 7)]%float
  with
  | Some (Continue cs') =>
      length cs' = 2%nat ∧ cs' !! 1%nat = Some (7, 7)%float
  | _ => False
  end.
Proof.
  pose proof (contspec_assemble_footprint 1 (0, 1)%float 1%float 0.5%float
                nsev_cstype_REFLECTION_COEFFICIENT
                (λ _ : nat, (1, 0)%float) [(0, 0)%float] [(9, 9); (7, 7)]%float)
    as Hspec.
  remember (contspec_assemble _ _ _ _ _ _ _ _) as run eqn:Hrun in Hspec |- *.
  vm_compute in Hrun. subst run.
  destruct (Hspec _ eq_refl) as (Hlen & Hrest).
  split; [exact Hlen|]. apply (Hrest 1%nat). simpl. lia.
Defined.

(** A descriptor whose boundary coefficient is [NAN]: the continuous
    spectrum is assembled with it all the same. *)
Lemma base_contspec_nan_check_is_dead_witness :
  let q := [(0.5, 0); (1, 0); (1, 0); (0.5, 0)]%float in
  let nan_coeff := λ _ : nse_discretization_t, PrimFloat.nan in
  let xi := xi_grid (-1, 1)%float
              (Rdiv (Rsub 1%float (-1)%float) (RofZ (usub 2 1))) 2 in
  (∀ x : float, Reqb x NAN = false)
  ∧ base_contspec nan_coeff Reference.malloc_ok Reference.uninit
      Reference.nse_scatter_matrix
      4 q None (-1.5, 1.5)%float 2 (Some (-1, 1)%float) 1 1%float default_opts
      [(9, 9); (9, 9)]%float
    = contspec_assemble 2 (-1.5, 1.5)%float 1%float PrimFloat.nan
        nsev_cstype_REFLECTION_COEFFICIENT
        (Reference.nse_scatter_matrix 4 q None 1%float 1 2 xi
           nse_discretization_BO 0).2
        xi [(9, 9); (9, 9)]%float.
Proof.
  intros q nan_coeff xi. split; [exact binary64_eqb_nan|].
  apply (base_contspec_nan_check_is_dead nan_coeff Reference.malloc_ok
           Reference.uninit Reference.nse_scatter_matrix
           4 q None (-1.5, 1.5)%float 2 (-1, 1)%float 1 1%float default_opts
           [(9, 9); (9, 9)]%float);
    [exact binary64_eqb_nan | reflexivity | reflexivity | reflexivity].
Defined.
